(** * Tic-tac-toe: board, chain detection, scoring, turn rotation and bot

    A shallow embedding of [src/main.cpp].  The C++ [int] values are
    modelled as mathematical integers [Z]; [%] and [/] on [int] truncate
    towards zero and are [Z.rem] and [Z.quot].  Signed overflow is undefined
    behaviour in C++ and is not modelled: every statement below is about
    executions in which the [int] values stay within range.  For the cell
    numbers that is what [wf_grid] asks of the grid size: its square is an
    [int].

    [std::vector::at] throws [std::out_of_range] on a bad index.  Functions
    that can reach such a throw return [option]; [None] is the exception.

    The console side of the program (Screen, prompts, rendering of the grid)
    is not modelled.  A Board or Player reaches the session through a weak
    pointer; here the board is passed to the functions that read it. *)

From Stdlib Require Import ZArith String Ascii List Lia Bool DecimalString.
From Stdlib Require DecimalZ DecimalPos.
From Stdlib Require Import Permutation Sorted.
From stdpp Require Import base option list.
Import ListNotations.

Local Open Scope Z_scope.

(** ** Integers and vectors *)

(** [std::numeric_limits<int>::max()], the default [maxChain]. *)
Definition INT_MAX : Z := 2147483647.

(** [v.at(i)] with an [int] index: the index is converted to [size_t], so a
    negative one is out of range like one past the end. *)
Definition vec_at {A : Type} (v : list A) (i : Z) : option A :=
  if i <? 0 then None else v !! Z.to_nat i.

(** [s.empty()] on a [std::string]. *)
Definition empty (s : string) : bool :=
  match s with
  | EmptyString => true
  | String _ _ => false
  end.

(** [std::to_string] / [operator<<] on an [int]. *)
Definition to_string (z : Z) : string := NilZero.string_of_int (Z.to_int z).

(** ** std::set<int>

    A [std::set<int>] is kept as its ascending, duplicate-free element
    sequence, which is the order in which the program iterates over it. *)

Fixpoint set_insert (x : Z) (s : list Z) : list Z :=
  match s with
  | [] => [x]
  | y :: s' =>
      if x <? y then x :: s
      else if x =? y then s
      else y :: set_insert x s'
  end.

(** ** ConnectedCell *)

Record ConnectedCell := mkConnectedCell {
  row : Z;
  column : Z;
  verticalChain : Z;
  horizontalChain : Z;
  diagonalLeftChain : Z;
  diagonalRightChain : Z;
  totalConnected : Z
}.

(** ** Player

    [Player] and its subclass [Bot] share all fields; [kind] records the
    dynamic type, which decides the virtual [name]. *)

Inductive PlayerKind := Human | Robot.

Record Player := mkPlayer {
  kind : PlayerKind;
  _number : Z;
  _marker : string;
  _score : Z;
  _lastScore : Z
}.

Definition name (p : Player) : string :=
  match kind p with
  | Human => "Player"
  | Robot => "Bot"
  end.

Definition setScore (score : Z) (p : Player) : Player :=
  {| kind := kind p; _number := _number p; _marker := _marker p;
     _score := score; _lastScore := _score p |}.

Definition Player_reset (p : Player) : Player :=
  {| kind := kind p; _number := _number p; _marker := _marker p;
     _score := 0; _lastScore := 0 |}.

(** ** Board

    [_players] is the vector of player objects.  [_playerTurn] is a shared
    pointer to one of them, or [nullptr]: it is kept as the index of the
    object it points to, so that a score written through [_playerTurn] is
    the score read through [_players].  [variant] is the dynamic type of the
    board (ClassicBoard or FrenzyBoard). *)

Inductive Variant := Classic | Frenzy.

Record Board := mkBoard {
  variant : Variant;
  _players : list Player;
  _gridSize : Z;
  _grid : list (list string);
  _playerTurn : option nat
}.

(** [Board::Board]: a [gridSize] x [gridSize] grid of empty strings, no
    turn-holder.  The vector constructors take the [int] [gridSize] as a
    [size_t] count: a negative one becomes a count above [max_size()], the
    constructor of the vector throws [std::length_error] and no board is
    built.  Running out of memory is not modelled. *)
Definition Board_new (v : Variant) (players : list Player) (gridSize : Z)
  : option Board :=
  if gridSize <? 0 then None
  else
    Some {| variant := v;
            _players := players;
            _gridSize := gridSize;
            _grid := replicate (Z.to_nat gridSize)
                       (replicate (Z.to_nat gridSize) EmptyString);
            _playerTurn := None |}.

(** [ClassicBoard::ClassicBoard] hands [players.size() + 1] to [Board::Board],
    [FrenzyBoard::FrenzyBoard] the grid size it is given. *)
Definition ClassicBoard (players : list Player) : option Board :=
  Board_new Classic players (Z.of_nat (length players) + 1).

Definition FrenzyBoard (players : list Player) (gridSize : Z) : option Board :=
  Board_new Frenzy players gridSize.

Definition columnByCellNumber (b : Board) (cellNumber : Z) : Z :=
  Z.rem cellNumber (_gridSize b).

Definition rowByCellNumber (b : Board) (cellNumber : Z) : Z :=
  Z.quot cellNumber (_gridSize b).

(** The product and the sum are [int] operations: they are the
    mathematical ones as long as the result is an [int], which holds at every
    position of a well-formed grid. *)
Definition cellNumberByPosition (b : Board) (r c : Z) : Z :=
  r * _gridSize b + c.

(** [_grid.at(r).at(c)] *)
Definition grid_at (g : list (list string)) (r c : Z) : option string :=
  line ← vec_at g r; vec_at line c.

(** [_grid.at(r).at(c) = marker], for indices already known to be in range
    of the grid. *)
Definition grid_set (g : list (list string)) (r c : Z) (marker : string)
  : list (list string) :=
  match g !! Z.to_nat r with
  | Some line => <[Z.to_nat r := <[Z.to_nat c := marker]> line]> g
  | None => g
  end.

(** The two loops of [findAvailableCellNumbers], over the rows of the grid
    and over the cells of a row. *)
Fixpoint availableInRow (b : Board) (r c : Z) (line : list string) (cells : list Z)
  : list Z :=
  match line with
  | [] => cells
  | cell :: rest =>
      availableInRow b r (c + 1) rest
        (if empty cell then set_insert (cellNumberByPosition b r c) cells else cells)
  end.

Fixpoint availableInRows (b : Board) (r : Z) (rows : list (list string)) (cells : list Z)
  : list Z :=
  match rows with
  | [] => cells
  | line :: rest => availableInRows b (r + 1) rest (availableInRow b r 0 line cells)
  end.

Definition findAvailableCellNumbers (b : Board) : list Z :=
  availableInRows b 0 (_grid b) [].

(** ** do-while loops

    One pass through a loop body either goes on with a new state, leaves the
    loop with a value, or throws.  [iterate fuel body s] runs the body from
    [s] at most [fuel] times; the binary fuel is consumed only as far as the
    loop really runs, so that [INT_MAX] is a usable bound.  A result
    [Continue _] means the bound was reached with the loop still running. *)

Inductive LoopStep (S R : Type) :=
  | Continue (s : S)
  | Break (r : R)
  | Throw.
Arguments Continue {S R} s.
Arguments Break {S R} r.
Arguments Throw {S R}.

Fixpoint iterate {S R : Type} (fuel : positive) (body : S -> LoopStep S R) (s : S)
  : LoopStep S R :=
  match fuel with
  | xH => body s
  | xO fuel' =>
      match iterate fuel' body s with
      | Continue s1 => iterate fuel' body s1
      | stop => stop
      end
  | xI fuel' =>
      match body s with
      | Continue s1 =>
          match iterate fuel' body s1 with
          | Continue s2 => iterate fuel' body s2
          | stop => stop
          end
      | stop => stop
      end
  end.

(** ** Chain detection *)

(** The locals of [_countChainByDirection]: the two by-value parameters the
    loop advances, and the counter. *)
Record ChainState := mkChainState {
  cs_row : Z;
  cs_column : Z;
  cs_chain : Z
}.

(** The body of the do-while loop, followed by its [while (chain < maxChain)]
    test. *)
Definition chainBody (b : Board) (deltaRow deltaColumn : Z) (targetMarker : string)
    (maxChain : Z) (s : ChainState) : LoopStep ChainState Z :=
  let r := cs_row s + deltaRow in
  let c := cs_column s + deltaColumn in
  if (r <? 0) || (r >=? _gridSize b) || (c <? 0) || (c >=? _gridSize b)
  then Break (cs_chain s)
  else
    match grid_at (_grid b) r c with
    | None => Throw
    | Some cell =>
        if negb (String.eqb cell targetMarker) then Break (cs_chain s)
        else
          let chain := cs_chain s + 1 in
          if chain <? maxChain
          then Continue {| cs_row := r; cs_column := c; cs_chain := chain |}
          else Break chain
    end.

(** The loop runs its body at most [max 1 maxChain] times, since the counter
    grows by one on every pass that goes on; [chain_fuel_suffices] below
    shows that this bound is never reached with the loop still running. *)
Definition _countChainByDirection (b : Board) (r c deltaRow deltaColumn : Z)
    (targetMarker : string) (maxChain : Z) : option Z :=
  match iterate (Z.to_pos maxChain)
          (chainBody b deltaRow deltaColumn targetMarker maxChain)
          {| cs_row := r; cs_column := c; cs_chain := 0 |} with
  | Break chain => Some chain
  | Throw => None
  | Continue _ => None
  end.

Definition _countCurrentTopChain b r c targetMarker maxChain :=
  _countChainByDirection b r c (-1) 0 targetMarker maxChain.
Definition _countCurrentBottomChain b r c targetMarker maxChain :=
  _countChainByDirection b r c 1 0 targetMarker maxChain.
Definition _countCurrentLeftChain b r c targetMarker maxChain :=
  _countChainByDirection b r c 0 (-1) targetMarker maxChain.
Definition _countCurrentRightChain b r c targetMarker maxChain :=
  _countChainByDirection b r c 0 1 targetMarker maxChain.
Definition _countTopLeftChain b r c targetMarker maxChain :=
  _countChainByDirection b r c (-1) (-1) targetMarker maxChain.
Definition _countTopRightChain b r c targetMarker maxChain :=
  _countChainByDirection b r c (-1) 1 targetMarker maxChain.
Definition _countBottomLeftChain b r c targetMarker maxChain :=
  _countChainByDirection b r c 1 (-1) targetMarker maxChain.
Definition _countBottomRightChain b r c targetMarker maxChain :=
  _countChainByDirection b r c 1 1 targetMarker maxChain.

(** [chain >= 2 ? chain + 1 : 0], what one axis adds to the total. *)
Definition axisTotal (chain : Z) : Z :=
  if chain >=? 2 then chain + 1 else 0.

Definition findConnectedCell (b : Board) (r c : Z) (targetMarker : string)
    (maxChain : Z) : option ConnectedCell :=
  top ← _countCurrentTopChain b r c targetMarker maxChain;
  bottom ← _countCurrentBottomChain b r c targetMarker maxChain;
  let vertical := top + bottom in
  let total := 0 + axisTotal vertical in
  left ← _countCurrentLeftChain b r c targetMarker maxChain;
  right ← _countCurrentRightChain b r c targetMarker maxChain;
  let horizontal := left + right in
  let total := total + axisTotal horizontal in
  topLeft ← _countTopLeftChain b r c targetMarker maxChain;
  bottomRight ← _countBottomRightChain b r c targetMarker maxChain;
  let diagonalLeft := topLeft + bottomRight in
  let total := total + axisTotal diagonalLeft in
  topRight ← _countTopRightChain b r c targetMarker maxChain;
  bottomLeft ← _countBottomLeftChain b r c targetMarker maxChain;
  let diagonalRight := topRight + bottomLeft in
  let total := total + axisTotal diagonalRight in
  Some {| row := r;
          column := c;
          verticalChain := vertical;
          horizontalChain := horizontal;
          diagonalLeftChain := diagonalLeft;
          diagonalRightChain := diagonalRight;
          totalConnected := total |}.

(** ** Result, marking, turn rotation *)

(** The loop of [resultText]: the pointer [topPlayer] (an index into the
    player vector, or [nullptr]) and [topScore]. *)
Fixpoint resultLoop (players : list Player) (i : nat) (topPlayer : option nat)
    (topScore : Z) : option nat :=
  match players with
  | [] => topPlayer
  | player :: rest =>
      if _score player >? topScore
      then resultLoop rest (S i) (Some i) (_score player)
      else if _score player =? topScore
      then resultLoop rest (S i) None topScore
      else resultLoop rest (S i) topPlayer topScore
  end.

Definition drawText : string :=
  String.append "Game over! The game ends with draw." (String "010"%char EmptyString).

Definition winText (p : Player) : string :=
  String.append "Game over! "
   (String.append (name p)
    (String.append "-"
     (String.append (to_string (_number p))
      (String.append " ("
       (String.append (_marker p)
        (String.append ") has won!" (String "010"%char EmptyString))))))).

Definition resultText (b : Board) : option string :=
  match resultLoop (_players b) 0 None 0 with
  | None => Some drawText
  | Some i => p ← _players b !! i; Some (winText p)
  end.

Definition markCellByNumber (cellNumber : Z) (marker : string) (b : Board)
  : option (bool * Board) :=
  let x := columnByCellNumber b cellNumber in
  let y := rowByCellNumber b cellNumber in
  if (x <? 0) || (x >=? _gridSize b) || (y <? 0) || (y >=? _gridSize b)
  then Some (false, b)
  else
    cell ← grid_at (_grid b) y x;
    if negb (empty cell) then Some (false, b)
    else
      match _playerTurn b with
      | None => Some (false, b)
      | Some turn =>
          let b1 := {| variant := variant b;
                       _players := _players b;
                       _gridSize := _gridSize b;
                       _grid := grid_set (_grid b) y x marker;
                       _playerTurn := _playerTurn b |} in
          cc ← findConnectedCell b1 y x marker INT_MAX;
          p ← _players b1 !! turn;
          let score := _score p + totalConnected cc in
          Some (true,
                {| variant := variant b1;
                   _players := <[turn := setScore score p]> (_players b1);
                   _gridSize := _gridSize b1;
                   _grid := _grid b1;
                   _playerTurn := _playerTurn b1 |})
      end.

(** [Board::reset].  The grid size of a board that was constructed is not
    negative, so the vector constructors do not throw here. *)
Definition reset (b : Board) : Board :=
  {| variant := variant b;
     _players := map Player_reset (_players b);
     _gridSize := _gridSize b;
     _grid := replicate (Z.to_nat (_gridSize b))
                (replicate (Z.to_nat (_gridSize b)) EmptyString);
     _playerTurn := None |}.

(** The bounds of [randomIndex]: [0] and [max(0, size - 1)]. *)
Definition randomIndexRange (size : nat) (rnd : Z) : Prop :=
  0 <= rnd <= Z.max 0 (Z.of_nat size - 1).

(** [togglePlayerTurn].  [rnd] is the value [randomIndex(engine)] yields,
    should it be drawn.  [playerTurnIndex + 1 >= _players.size()] compares an
    [int] with a [size_t]: the left side is converted to unsigned, and a
    negative one compares as larger than any size. *)
Definition togglePlayerTurn (rnd : Z) (b : Board) : option Board :=
  playerTurnIndex ←
    match _playerTurn b with
    | None => Some (-1)
    | Some turn => p ← _players b !! turn; Some (_number p - 1)
    end;
  let size := Z.of_nat (length (_players b)) in
  let playerTurnIndex :=
    if playerTurnIndex =? -1 then rnd
    else if (playerTurnIndex + 1 <? 0) || (playerTurnIndex + 1 >=? size) then 0
    else playerTurnIndex + 1 in
  _ ← vec_at (_players b) playerTurnIndex;
  Some {| variant := variant b;
          _players := _players b;
          _gridSize := _gridSize b;
          _grid := _grid b;
          _playerTurn := Some (Z.to_nat playerTurnIndex) |}.

(** [isCompleted], by the dynamic type of the board. *)
Definition isCompleted (b : Board) : bool :=
  match variant b with
  | Classic =>
      match findAvailableCellNumbers b with
      | [] => true
      | _ => existsb (fun p => _score p >? 0) (_players b)
      end
  | Frenzy =>
      match findAvailableCellNumbers b with
      | [] => true
      | _ => false
      end
  end.

(** ** Bot *)

(** The comparison handed to [std::sort] in [_rankAvailableCells]. *)
Definition rankBefore (a b : ConnectedCell) : bool :=
  let aChains := verticalChain a + horizontalChain a
                 + diagonalLeftChain a + diagonalRightChain a in
  let bChains := verticalChain b + horizontalChain b
                 + diagonalLeftChain b + diagonalRightChain b in
  (totalConnected a >? totalConnected b)
  || ((totalConnected a =? totalConnected b) && (aChains >? bChains)).

(** The test of [_compareNextTurn], on the three player numbers: when it
    holds the function returns its first argument. *)
Definition nextTurnIsFirst (this_number number1 number2 : Z) : bool :=
  ((number1 <? number2) && (number2 <? this_number))
  || ((number2 <? this_number) && (this_number <? number1))
  || ((this_number <? number1) && (number1 <? number2))
  || (this_number =? number2).

Definition _compareNextTurn (this player1 player2 : Player) : Player :=
  if nextTurnIsFirst (_number this) (_number player1) (_number player2)
  then player1
  else player2.

(** The first loop of [_rankAvailableCells]. *)
Fixpoint connectedCells (b : Board) (marker : string) (cells : list Z)
  : option (list ConnectedCell) :=
  match cells with
  | [] => Some []
  | cell :: rest =>
      let r := rowByCellNumber b cell in
      let c := columnByCellNumber b cell in
      connectedCell ← findConnectedCell b r c marker INT_MAX;
      others ← connectedCells b marker rest;
      Some (connectedCell :: others)
  end.

(** The inner loop of the blocking decision, over the bot's own ranked cells.
    It returns the new [bestCell] and [isBestCellFound]. *)
Fixpoint ownScan (playerCell : ConnectedCell) (rankedTop : Z)
    (rankedCells : list ConnectedCell) (bestCell : option ConnectedCell)
  : option ConnectedCell * bool :=
  match rankedCells with
  | [] => (bestCell, false)
  | rankedCell :: rest =>
      if (totalConnected playerCell =? rankedTop)
         && (totalConnected playerCell =? totalConnected rankedCell)
      then
        let isSamePosition :=
          (row playerCell =? row rankedCell)
          && (column playerCell =? column rankedCell) in
        if isSamePosition then (Some playerCell, true)
        else ownScan playerCell rankedTop rest (Some playerCell)
      else (bestCell, false)
  end.

(** The outer loop of the blocking decision, over the cells of the player to
    block; [rankedTop] is [rankedCells.at(0).totalConnected]. *)
Fixpoint blockScan (playerToBlockCells : list ConnectedCell) (rankedTop : Z)
    (rankedCells : list ConnectedCell) (bestCell : option ConnectedCell)
  : option ConnectedCell :=
  match playerToBlockCells with
  | [] => bestCell
  | playerCell :: rest =>
      if totalConnected playerCell =? 0 then bestCell
      else if totalConnected playerCell >? rankedTop then Some playerCell
      else
        let '(bestCell', isBestCellFound) :=
          ownScan playerCell rankedTop rankedCells bestCell in
        if isBestCellFound then bestCell'
        else blockScan rest rankedTop rankedCells bestCell'
  end.

Section WithSort.

(** [std::sort(first, last, comp)].  The standard fixes its result only up
    to the order of equivalent elements, so the algorithm is a parameter;
    [SortSpec] below is what the standard guarantees of it. *)
Variable std_sort :
  (ConnectedCell -> ConnectedCell -> bool) -> list ConnectedCell -> list ConnectedCell.

Definition _rankAvailableCells (b : Board) (player : Player)
    (availableCellNumbers : list Z) : option (list ConnectedCell) :=
  cells ← connectedCells b (_marker player) availableCellNumbers;
  Some (std_sort rankBefore cells).

(** The loop that searches the player to block.  [ns] holds the values of
    [n] still to come, up to [totalPlayers + number % totalPlayers]; [i] is
    the current index.  The state is [playerToBlockCells] with
    [playerToBlock], a pointer kept as an index into the player vector.
    [&playerShortestNextTurn == &*player] compares addresses:
    [_compareNextTurn] is given the objects [*playerToBlock] and [*player],
    which are different objects since the loop visits an index once, so
    the addresses agree exactly when it returns its second argument. *)
Fixpoint blockSearch (b : Board) (this : Player) (availableCells : list Z)
    (totalPlayers : Z) (ns : list Z) (i : Z)
    (st : list ConnectedCell * option nat)
  : option (list ConnectedCell * option nat) :=
  match ns with
  | [] => Some st
  | n :: rest =>
      if i =? _number this - 1 then Some st
      else
        let '(playerToBlockCells, playerToBlock) := st in
        player ← vec_at (_players b) i;
        playerCells ← _rankAvailableCells b player availableCells;
        shortestIsPlayer ←
          match playerToBlock with
          | None => Some true
          | Some j =>
              blocked ← _players b !! j;
              Some (negb (nextTurnIsFirst (_number this) (_number blocked)
                            (_number player)))
          end;
        replace ←
          match playerToBlockCells with
          | [] => Some true
          | _ =>
              playerTop ← vec_at playerCells 0;
              blockTop ← vec_at playerToBlockCells 0;
              Some ((totalConnected playerTop >? totalConnected blockTop)
                    || ((totalConnected playerTop =? totalConnected blockTop)
                        && shortestIsPlayer))
          end;
        blockSearch b this availableCells totalPlayers rest
          (Z.rem (n + 1) totalPlayers)
          (if replace : bool then (playerCells, Some (Z.to_nat i)) else st)
  end.

(** [Bot::requireCellSelection] for the bot [this] on board [b].  [rnd] is
    the value [randomIndex(engine)] yields, should it be drawn.  The bot is
    one of the players of [b], so [totalPlayers] is not 0 where the code takes
    a remainder by it. *)
Definition requireCellSelection (rnd : Z) (this : Player) (b : Board) : option Z :=
  let totalPlayers := Z.of_nat (length (_players b)) in
  let availableCells := findAvailableCellNumbers b in
  rankedCells ← _rankAvailableCells b this availableCells;
  let first := Z.rem (_number this) totalPlayers in
  '(playerToBlockCells, _) ←
    blockSearch b this availableCells totalPlayers
      (map (fun k => first + Z.of_nat k) (seq 0 (length (_players b))))
      first ([], None);
  ranked0 ← vec_at rankedCells 0;
  let bestCell :=
    if totalConnected ranked0 >=? 3 then Some ranked0 else None in
  let bestCell :=
    blockScan playerToBlockCells (totalConnected ranked0) rankedCells bestCell in
  match bestCell with
  | Some best => Some (cellNumberByPosition b (row best) (column best))
  | None =>
      if (verticalChain ranked0 >=? 1)
         || (horizontalChain ranked0 >=? 1)
         || (diagonalLeftChain ranked0 >=? 1)
         || (diagonalRightChain ranked0 >=? 1)
      then Some (cellNumberByPosition b (row ranked0) (column ranked0))
      else vec_at availableCells rnd
  end.

End WithSort.

(** What the C++ standard guarantees of [std::sort] for the comparison
    [rankBefore]: the result is a rearrangement of the input in which no
    element is ordered before one that precedes it.  The order of elements
    that compare as equivalent is left open. *)
Definition SortSpec
    (sort : (ConnectedCell -> ConnectedCell -> bool) ->
            list ConnectedCell -> list ConnectedCell) : Prop :=
  forall l,
    Permutation l (sort rankBefore l)
    /\ forall (i j : nat) x y,
         (i < j)%nat ->
         sort rankBefore l !! i = Some x -> sort rankBefore l !! j = Some y ->
         rankBefore y x = false.

(** One sorting algorithm, for running the bot: insertion sort. *)
Fixpoint insert_sorted {A : Type} (comp : A -> A -> bool) (x : A) (l : list A) : list A :=
  match l with
  | [] => [x]
  | y :: l' => if comp x y then x :: l else y :: insert_sorted comp x l'
  end.

Definition insertion_sort {A : Type} (comp : A -> A -> bool) (l : list A) : list A :=
  foldr (insert_sorted comp) [] l.

(** ** Boards used in the examples *)

(** A 3 x 3 board on which X holds cells 0 and 1 and no other cell is marked.
    The two players are X and the bot O, in either seat order. *)
Definition opponentX (k : PlayerKind) (number : Z) : Player :=
  {| kind := k; _number := number; _marker := "X"; _score := 0; _lastScore := 0 |}.

Definition botO (number : Z) : Player :=
  {| kind := Robot; _number := number; _marker := "O"; _score := 0; _lastScore := 0 |}.

Definition blockBoard (v : Variant) (k : PlayerKind) (botFirst : bool) : Board :=
  {| variant := v;
     _players := if botFirst then [botO 1; opponentX k 2] else [opponentX k 1; botO 2];
     _gridSize := 3;
     _grid := [ ["X"; "X"; ""]; [""; ""; ""]; [""; ""; ""] ]%string;
     _playerTurn := Some (if botFirst then 0 else 1)%nat |}.

Definition blockBot (botFirst : bool) : Player :=
  botO (if botFirst then 1 else 2).

(** A 3 x 3 board on which X, seated first, holds cells 0 and 4 of a
    diagonal whose last cell, 8, is free, and the bot O holds cell 1; it is
    the bot's turn.  The first free cell is cell 2. *)
Definition diagonalBoard : Board :=
  {| variant := Classic;
     _players := [opponentX Human 1; botO 2];
     _gridSize := 3;
     _grid := [ ["X"; "O"; ""]; [""; "X"; ""]; [""; ""; ""] ]%string;
     _playerTurn := Some 1%nat |}.

(** [n] successive calls of [togglePlayerTurn], one drawn value per call:
    the index of the turn-holder after each call. *)
Fixpoint toggleTrace (rnds : list Z) (b : Board) : option (list nat) :=
  match rnds with
  | [] => Some []
  | rnd :: rest =>
      b' ← togglePlayerTurn rnd b;
      turn ← _playerTurn b';
      trace ← toggleTrace rest b';
      Some (turn :: trace)
  end.

(** ** Well-formed boards and the vocabulary of the properties *)

(** The grid is what [Board::Board] and [reset] build and [markCellByNumber]
    keeps: [_gridSize] rows of [_gridSize] cells, for a positive [_gridSize]
    whose square is an [int].  The program computes [_gridSize * _gridSize]
    and, for the positions of the grid, [row * _gridSize + column] in [int];
    under this bound (a grid size of 46340 at most) those values are the
    mathematical ones, see [cell_numbers_fit_int] below.  For a larger grid
    the [int] arithmetic overflows and nothing is stated. *)
Definition wf_grid (b : Board) : Prop :=
  (0 < _gridSize b /\ _gridSize b * _gridSize b <= INT_MAX)
  /\ length (_grid b) = Z.to_nat (_gridSize b)
  /\ Forall (fun line : list string => length line = Z.to_nat (_gridSize b)) (_grid b).

(** A turn-holder, when there is one, is one of the players. *)
Definition wf_turn (b : Board) : Prop :=
  forall turn, _playerTurn b = Some turn -> (turn < length (_players b))%nat.

Definition wf_board (b : Board) : Prop := wf_grid b /\ wf_turn b.

(** The players carry the numbers 1..N in list order, as [requirePlayers]
    hands them out. *)
Definition numbered (players : list Player) : Prop :=
  forall (i : nat) p, players !! i = Some p -> _number p = Z.of_nat i + 1.

(** The position (r, c) is on the grid. *)
Definition inBounds (b : Board) (r c : Z) : Prop :=
  0 <= r < _gridSize b /\ 0 <= c < _gridSize b.

(** The position (r, c) is on the grid and holds the marker [m]. *)
Definition holdsAt (b : Board) (r c : Z) (m : string) : Prop :=
  inBounds b r c /\ grid_at (_grid b) r c = Some m.

(** [n] is the number of consecutive cells holding [m] met from (r, c) in
    direction (deltaRow, deltaColumn), starting one step away, and stopping
    at the first position that is off the grid or holds something else, or
    once [limit] cells are counted. *)
Definition isRun (b : Board) (r c deltaRow deltaColumn : Z) (m : string)
    (limit n : Z) : Prop :=
  0 <= n <= limit
  /\ (forall k, 1 <= k <= n -> holdsAt b (r + k * deltaRow) (c + k * deltaColumn) m)
  /\ (n < limit ->
      ~ holdsAt b (r + (n + 1) * deltaRow) (c + (n + 1) * deltaColumn) m).

(** What holds of the locals of [_countChainByDirection] before every pass of
    its loop body, for a scan from (r, c): the counter tells how far the scan
    has come, every cell passed holds [m], and the counter is below the cap
    once it has left 0. *)
Definition chainInv (b : Board) (r c deltaRow deltaColumn : Z) (m : string)
    (maxChain : Z) (s : ChainState) : Prop :=
  0 <= cs_chain s
  /\ cs_row s = r + cs_chain s * deltaRow
  /\ cs_column s = c + cs_chain s * deltaColumn
  /\ (forall k, 1 <= k <= cs_chain s ->
        holdsAt b (r + k * deltaRow) (c + k * deltaColumn) m)
  /\ (1 <= cs_chain s -> cs_chain s < maxChain).

(** What an axis whose two opposite runs sum to [chain] adds to the total:
    the chain and the cell itself when the chain is at least 2, nothing
    otherwise. *)
Definition axisContributes (chain t : Z) : Prop :=
  (2 <= chain /\ t = chain + 1) \/ (chain < 2 /\ t = 0).

(** None of the eight neighbours of (r, c) holds the marker [m]. *)
Definition isolated (b : Board) (r c : Z) (m : string) : Prop :=
  forall deltaRow deltaColumn,
    -1 <= deltaRow <= 1 -> -1 <= deltaColumn <= 1 ->
    (deltaRow, deltaColumn) <> (0, 0) ->
    ~ holdsAt b (r + deltaRow) (c + deltaColumn) m.

(** A 3 x 3 board on which the bot O holds cells 0 and 1 and X, seated
    first, holds cells 3 and 8; it is the bot's turn. *)
Definition ownLineBoard : Board :=
  {| variant := Frenzy;
     _players := [opponentX Human 1; botO 2];
     _gridSize := 3;
     _grid := [ ["O"; "O"; ""]; ["X"; ""; ""]; [""; ""; "X"] ]%string;
     _playerTurn := Some 1%nat |}.

(** The board [blockBoard] seen in a mirror, left and right exchanged: X
    holds cells 1 and 2. *)
Definition mirrorBoard (v : Variant) (k : PlayerKind) (botFirst : bool) : Board :=
  {| variant := v;
     _players := _players (blockBoard v k botFirst);
     _gridSize := 3;
     _grid := [ [""; "X"; "X"]; [""; ""; ""]; [""; ""; ""] ]%string;
     _playerTurn := _playerTurn (blockBoard v k botFirst) |}.

(** ** Further code: the selection test and the moves of a game *)

(** The test of the input loop of [requireGridSelection] on a number read
    from the console: the number is within [0, maxCell], its position within
    [0, maxRowOrColumn] both ways, and the cell there is empty.  The grid is
    read only once the tests before it have passed.  [maxCell] is computed
    from the [int] product [_gridSize * _gridSize], which is within range on
    a well-formed grid and overflows on a larger one. *)
Definition selectionAccepted (b : Board) (selectedCell : Z) : option bool :=
  let maxCell := Z.max 0 (_gridSize b * _gridSize b - 1) in
  let maxRowOrColumn := Z.max 0 (_gridSize b - 1) in
  let x := columnByCellNumber b selectedCell in
  let y := rowByCellNumber b selectedCell in
  if (selectedCell >=? 0) && (selectedCell <=? maxCell)
     && (x >=? 0) && (x <=? maxRowOrColumn)
     && (y >=? 0) && (y <=? maxRowOrColumn)
  then cell ← grid_at (_grid b) y x; Some (empty cell)
  else Some false.



(** The identity of a player: what no method changes. *)
Definition samePlayer (p q : Player) : Prop :=
  kind q = kind p /\ _number q = _number p /\ _marker q = _marker p.

(** The grid holds no empty cell. *)
Definition gridFull (b : Board) : Prop :=
  forall r c cell, grid_at (_grid b) r c = Some cell -> cell <> EmptyString.

(** What the search for the player to block keeps true of its state: the
    pointer is to a player of the board, and the cells held are none, or one
    record per available cell, each at the position of an available cell. *)
Definition searchInv (b : Board) (st : list ConnectedCell * option nat) : Prop :=
  (forall j, st.2 = Some j -> (j < length (_players b))%nat)
  /\ (st.1 = []
      \/ (length st.1 = length (findAvailableCellNumbers b)
          /\ List.Forall
               (fun cc => In (cellNumberByPosition b (row cc) (column cc))
                            (findAvailableCellNumbers b))
               st.1)).

(** The total of the first cell of a ranked list, what the bot compares
    players by; -1, below every total, stands for a list with no cell. *)
Definition topTotal (cells : list ConnectedCell) : Z :=
  match cells with
  | first :: _ => totalConnected first
  | [] => -1
  end.

(** * Properties *)

(** ** Cell numbers and positions *)

Section CellNumbers.

Variable b : Board.
Hypothesis size_pos : 0 < _gridSize b.

Lemma decode_encode (cellNumber : Z) :
  cellNumberByPosition b (rowByCellNumber b cellNumber)
    (columnByCellNumber b cellNumber) = cellNumber.
Proof.
  unfold cellNumberByPosition, rowByCellNumber, columnByCellNumber.
  pose proof (Z.quot_rem' cellNumber (_gridSize b)). lia.
Qed.

Lemma decode_inBounds (cellNumber : Z) :
  0 <= cellNumber < _gridSize b * _gridSize b ->
  inBounds b (rowByCellNumber b cellNumber) (columnByCellNumber b cellNumber).
Proof.
  intros Hc. unfold inBounds, rowByCellNumber, columnByCellNumber.
  rewrite Z.quot_div_nonneg, Z.rem_mod_nonneg by lia.
  split.
  - split; [apply Z.div_pos; lia | apply Z.div_lt_upper_bound; lia].
  - apply Z.mod_pos_bound; lia.
Qed.

Lemma encode_range (r c : Z) :
  inBounds b r c -> 0 <= cellNumberByPosition b r c < _gridSize b * _gridSize b.
Proof. unfold inBounds, cellNumberByPosition. nia. Qed.

Lemma encode_decode (r c : Z) :
  inBounds b r c ->
  rowByCellNumber b (cellNumberByPosition b r c) = r
  /\ columnByCellNumber b (cellNumberByPosition b r c) = c.
Proof.
  intros Hin. pose proof (encode_range r c Hin) as Hr.
  unfold inBounds, rowByCellNumber, columnByCellNumber, cellNumberByPosition in *.
  rewrite Z.quot_div_nonneg, Z.rem_mod_nonneg by lia.
  split.
  - rewrite Z.div_add_l by lia. rewrite Z.div_small by lia. lia.
  - rewrite Z.add_comm, Z.mod_add by lia. apply Z.mod_small. lia.
Qed.

End CellNumbers.



(** Without it the sum is no [int]: on a grid of size 46341 the last
    position has a cell number above [INT_MAX]. *)
Lemma cell_number_beyond_int :
  INT_MAX < cellNumberByPosition (mkBoard Frenzy [] 46341 [] None) 46340 46340.
Proof. unfold cellNumberByPosition, INT_MAX. simpl. lia. Qed.



(** ** Construction *)

(** A grid of empty cells of the size of the board is well-formed. *)
Lemma empty_grid_wf (b : Board) :
  0 < _gridSize b -> _gridSize b * _gridSize b <= INT_MAX ->
  _grid b = replicate (Z.to_nat (_gridSize b))
              (replicate (Z.to_nat (_gridSize b)) EmptyString) ->
  wf_grid b.
Proof.
  intros Hpos Hfit Hgrid. unfold wf_grid. rewrite Hgrid.
  split; [split; assumption |].
  split; [apply length_replicate |].
  apply Forall_forall. intros line Hline.
  apply elem_of_replicate in Hline. destruct Hline as [-> _].
  apply length_replicate.
Qed.

(** The constructor builds a board for every size that is not negative, and
    throws for a negative one. *)
Lemma Board_new_returns v players gridSize :
  0 <= gridSize ->
  Board_new v players gridSize
  = Some {| variant := v; _players := players; _gridSize := gridSize;
            _grid := replicate (Z.to_nat gridSize)
                       (replicate (Z.to_nat gridSize) EmptyString);
            _playerTurn := None |}.
Proof.
  intros Hsize. unfold Board_new.
  destruct (Z.ltb_spec gridSize 0); [lia | reflexivity].
Qed.

Lemma Board_new_throws v players gridSize :
  gridSize < 0 -> Board_new v players gridSize = None.
Proof.
  intros Hsize. unfold Board_new.
  destruct (Z.ltb_spec gridSize 0); [reflexivity | lia].
Qed.

Lemma Board_new_wf_grid v players gridSize b :
  0 < gridSize -> gridSize * gridSize <= INT_MAX ->
  Board_new v players gridSize = Some b ->
  wf_grid b.
Proof.
  intros Hpos Hfit Hnew. rewrite Board_new_returns in Hnew by lia.
  injection Hnew as <-. apply empty_grid_wf; [exact Hpos | exact Hfit | reflexivity].
Qed.

(** C9: a ClassicBoard built for P >= 2 players has grid size P + 1 (3 for
    two players, 4 for three), with a grid of P + 1 rows of P + 1 empty cells;
    a FrenzyBoard has the grid size it is constructed with, for every size
    the constructor accepts: a negative size throws and builds no board. *)
Theorem classic_grid_size (players : list Player) :
  (2 <= length players)%nat ->
  (exists b,
     ClassicBoard players = Some b
     /\ variant b = Classic
     /\ _players b = players
     /\ _gridSize b = Z.of_nat (length players) + 1
     /\ _grid b
        = replicate (length players + 1) (replicate (length players + 1) EmptyString)
     /\ (length players = 2%nat -> _gridSize b = 3)
     /\ (length players = 3%nat -> _gridSize b = 4))
  /\ (forall gridSize,
        0 <= gridSize ->
        exists b,
          FrenzyBoard players gridSize = Some b
          /\ variant b = Frenzy
          /\ _players b = players
          /\ _gridSize b = gridSize
          /\ _grid b
             = replicate (Z.to_nat gridSize) (replicate (Z.to_nat gridSize) EmptyString))
  /\ (forall gridSize, gridSize < 0 -> FrenzyBoard players gridSize = None).
Proof.
  intros Hlen. split; [| split].
  - unfold ClassicBoard. rewrite Board_new_returns by lia.
    eexists. split; [reflexivity |]. simpl.
    replace (Z.to_nat (Z.of_nat (length players) + 1)) with (length players + 1)%nat
      by lia.
    repeat split; intros; lia.
  - intros gridSize Hsize. unfold FrenzyBoard. rewrite Board_new_returns by lia.
    eexists. split; [reflexivity |]. simpl. repeat split.
  - intros gridSize Hsize. apply Board_new_throws. exact Hsize.
Qed.

Lemma classic_grid_size_witness :
  exists b, ClassicBoard [botO 1; opponentX Human 2] = Some b /\ _gridSize b = 3.
Proof.
  destruct (classic_grid_size [botO 1; opponentX Human 2])
    as ((b & Hb & _ & _ & _ & _ & Htwo & _) & _ & _).
  - simpl. lia.
  - exists b. split; [exact Hb | apply Htwo; reflexivity].
Defined.

(** ** Loops *)

Section IterateInvariant.

Context {S R : Type}.
Variable body : S -> LoopStep S R.
Variable Inv : S -> Prop.
Variable rank : S -> Z.

Hypothesis body_continue :
  forall s s', Inv s -> body s = Continue s' -> Inv s' /\ rank s' = rank s + 1.

(** Whatever the bound, a loop that stops does so in a pass of its body
    taken from a state the invariant holds of; one that reaches the bound
    has made exactly that many passes. *)
Lemma iterate_invariant (fuel : positive) :
  forall s, Inv s ->
    match iterate fuel body s with
    | Continue s' => Inv s' /\ rank s' = rank s + Z.pos fuel
    | Break r => exists s1, Inv s1 /\ body s1 = Break r
    | Throw => exists s1, Inv s1 /\ body s1 = Throw
    end.
Proof.
  induction fuel as [fuel IH | fuel IH |]; intros s Hs; simpl.
  - destruct (body s) as [s1 | r | ] eqn:Hbody; [| eauto | eauto].
    destruct (body_continue _ _ Hs Hbody) as [Hs1 Hr1].
    specialize (IH s1 Hs1) as IH1.
    destruct (iterate fuel body s1) as [s2 | r | ]; [| exact IH1 | exact IH1].
    destruct IH1 as [Hs2 Hr2].
    specialize (IH s2 Hs2) as IH2.
    destruct (iterate fuel body s2) as [s3 | r | ]; [| exact IH2 | exact IH2].
    destruct IH2 as [Hs3 Hr3]. split; [exact Hs3 | lia].
  - specialize (IH s Hs) as IH1.
    destruct (iterate fuel body s) as [s1 | r | ]; [| exact IH1 | exact IH1].
    destruct IH1 as [Hs1 Hr1].
    specialize (IH s1 Hs1) as IH2.
    destruct (iterate fuel body s1) as [s2 | r | ]; [| exact IH2 | exact IH2].
    destruct IH2 as [Hs2 Hr2]. split; [exact Hs2 | lia].
  - destruct (body s) as [s1 | r | ] eqn:Hbody; [| eauto | eauto].
    destruct (body_continue _ _ Hs Hbody) as [Hs1 Hr1]. split; [exact Hs1 | lia].
Qed.

End IterateInvariant.

(** ** Vectors and grids *)

Lemma vec_at_Some {A : Type} (v : list A) (i : Z) :
  0 <= i < Z.of_nat (length v) -> exists x, vec_at v i = Some x.
Proof.
  intros Hi. unfold vec_at.
  destruct (Z.ltb_spec i 0) as [Hneg | _]; [lia |].
  destruct (lookup_lt_is_Some_2 v (Z.to_nat i)) as [x Hx]; [lia | eauto].
Qed.

Lemma vec_at_lookup {A : Type} (v : list A) (i : Z) (x : A) :
  vec_at v i = Some x <-> 0 <= i /\ v !! Z.to_nat i = Some x.
Proof.
  unfold vec_at. destruct (Z.ltb_spec i 0); split; intros H0.
  - discriminate.
  - lia.
  - split; [lia | exact H0].
  - apply H0.
Qed.

Lemma grid_at_lookup (g : list (list string)) (r c : Z) (cell : string) :
  grid_at g r c = Some cell <->
  0 <= r /\ 0 <= c
  /\ exists line, g !! Z.to_nat r = Some line /\ line !! Z.to_nat c = Some cell.
Proof.
  unfold grid_at. split.
  - intros Hat. destruct (vec_at g r) as [line |] eqn:Hline; [| discriminate].
    simpl in Hat. apply vec_at_lookup in Hline, Hat.
    destruct Hline as [Hr Hline], Hat as [Hc Hat]. eauto 6.
  - intros (Hr & Hc & line & Hline & Hcell).
    assert (Hv : vec_at g r = Some line) by (apply vec_at_lookup; auto).
    rewrite Hv. simpl. apply vec_at_lookup; auto.
Qed.

Lemma wf_grid_row (b : Board) (r : Z) :
  wf_grid b -> 0 <= r < _gridSize b ->
  exists line, _grid b !! Z.to_nat r = Some line
               /\ length line = Z.to_nat (_gridSize b).
Proof.
  intros (Hsize & Hrows & Hcols) Hr.
  destruct (lookup_lt_is_Some_2 (_grid b) (Z.to_nat r)) as [line Hline]; [lia |].
  exists line. split; [exact Hline |].
  rewrite Forall_forall in Hcols. apply Hcols.
  apply list_elem_of_lookup. eauto.
Qed.

Lemma grid_at_inBounds (b : Board) (r c : Z) :
  wf_grid b -> inBounds b r c -> exists cell, grid_at (_grid b) r c = Some cell.
Proof.
  intros Hwf [Hr Hc].
  destruct (wf_grid_row b r Hwf Hr) as (line & Hline & Hlen).
  destruct (lookup_lt_is_Some_2 line (Z.to_nat c)) as [cell Hcell]; [lia |].
  exists cell. apply grid_at_lookup. split; [lia |]. split; [lia |]. eauto.
Qed.

(** ** Directional runs *)

Section ChainLoop.

Variable b : Board.
Variables r c deltaRow deltaColumn : Z.
Variable m : string.
Variable maxChain : Z.

Local Abbreviation body := (chainBody b deltaRow deltaColumn m maxChain).
Local Abbreviation chainInv := (chainInv b r c deltaRow deltaColumn m maxChain).

(** The three ways a pass of the body can end, read off its code. *)
Lemma chainBody_cases (s : ChainState) :
  let r' := cs_row s + deltaRow in
  let c' := cs_column s + deltaColumn in
  (body s = Break (cs_chain s) /\ ~ holdsAt b r' c' m)
  \/ (body s = Throw /\ inBounds b r' c' /\ grid_at (_grid b) r' c' = None)
  \/ (holdsAt b r' c' m
      /\ ((cs_chain s + 1 < maxChain
           /\ body s = Continue {| cs_row := r'; cs_column := c';
                                   cs_chain := cs_chain s + 1 |})
          \/ (maxChain <= cs_chain s + 1 /\ body s = Break (cs_chain s + 1)))).
Proof.
  intros r' c'. unfold chainBody. fold r' c'. unfold holdsAt, inBounds.
  destruct (Z.ltb_spec r' 0); simpl; [left; split; [reflexivity | lia] |].
  destruct (Z.geb_spec r' (_gridSize b)); simpl; [left; split; [reflexivity | lia] |].
  destruct (Z.ltb_spec c' 0); simpl; [left; split; [reflexivity | lia] |].
  destruct (Z.geb_spec c' (_gridSize b)); simpl; [left; split; [reflexivity | lia] |].
  destruct (grid_at (_grid b) r' c') as [cell |] eqn:Hcell.
  - destruct (String.eqb_spec cell m) as [-> | Hne]; simpl.
    + right. right. split; [split; [lia | reflexivity] |].
      destruct (Z.ltb_spec (cs_chain s + 1) maxChain); [left | right]; auto.
    + left. split; [reflexivity |]. intros [_ Heq]. congruence.
  - right. left. split; [reflexivity |]. split; [lia | reflexivity].
Qed.

Lemma chainBody_continue (s s' : ChainState) :
  chainInv s -> body s = Continue s' ->
  chainInv s' /\ cs_chain s' = cs_chain s + 1.
Proof.
  intros (Hpos & Hrow & Hcol & Hrun & Hcap) Hbody.
  destruct (chainBody_cases s) as [[Hb _] | [[Hb _] | [Hhold [[Hlt Hb] | [_ Hb]]]]];
    rewrite Hb in Hbody; try discriminate.
  injection Hbody as <-. simpl. split; [| reflexivity].
  unfold chainInv. simpl. split; [lia |].
  split; [lia |]. split; [lia |]. split; [| lia].
  intros k Hk. destruct (Z.eq_dec k (cs_chain s + 1)) as [-> | Hne].
  - replace (r + (cs_chain s + 1) * deltaRow) with (cs_row s + deltaRow) by lia.
    replace (c + (cs_chain s + 1) * deltaColumn) with (cs_column s + deltaColumn) by lia.
    exact Hhold.
  - apply Hrun. lia.
Qed.

Lemma chainBody_break (s : ChainState) (n : Z) :
  chainInv s -> body s = Break n ->
  isRun b r c deltaRow deltaColumn m (Z.max 1 maxChain) n.
Proof.
  intros (Hpos & Hrow & Hcol & Hrun & Hcap) Hbody.
  destruct (chainBody_cases s) as [[Hb Hstop] | [[Hb _] | [Hhold [[_ Hb] | [Hge Hb]]]]];
    rewrite Hb in Hbody; try discriminate; injection Hbody as <-.
  - unfold isRun. split; [lia |]. split; [exact Hrun |].
    intros _.
    replace (r + (cs_chain s + 1) * deltaRow) with (cs_row s + deltaRow) by lia.
    replace (c + (cs_chain s + 1) * deltaColumn) with (cs_column s + deltaColumn) by lia.
    exact Hstop.
  - unfold isRun. split; [lia |]. split; [| lia].
    intros k Hk. destruct (Z.eq_dec k (cs_chain s + 1)) as [-> | Hne].
    + replace (r + (cs_chain s + 1) * deltaRow) with (cs_row s + deltaRow) by lia.
      replace (c + (cs_chain s + 1) * deltaColumn) with (cs_column s + deltaColumn) by lia.
      exact Hhold.
    + apply Hrun. lia.
Qed.

Lemma chainBody_no_throw (s : ChainState) : wf_grid b -> body s <> Throw.
Proof.
  intros Hwf Hbody.
  destruct (chainBody_cases s) as [[Hb _] | [[_ [Hin Hnone]] | [_ [[_ Hb] | [_ Hb]]]]];
    try (rewrite Hb in Hbody; discriminate).
  destruct (grid_at_inBounds b _ _ Hwf Hin) as [cell Hcell]. congruence.
Qed.

Lemma chainInv_init : chainInv {| cs_row := r; cs_column := c; cs_chain := 0 |}.
Proof. unfold chainInv. simpl. repeat split; intros; lia. Qed.

(** The loop never outlives its bound of [max 1 maxChain] passes. *)
Lemma chain_fuel_suffices (s : ChainState) :
  iterate (Z.to_pos maxChain) body
    {| cs_row := r; cs_column := c; cs_chain := 0 |} <> Continue s.
Proof.
  intros Hrun.
  pose proof (iterate_invariant body chainInv cs_chain chainBody_continue
                (Z.to_pos maxChain) _ chainInv_init) as Hinv.
  rewrite Hrun in Hinv. simpl in Hinv.
  destruct Hinv as [(_ & _ & _ & _ & Hcap) Hcount].
  destruct maxChain; simpl in *; lia.
Qed.

(** The result of [_countChainByDirection], when it returns one. *)
Lemma countChain_isRun (n : Z) :
  _countChainByDirection b r c deltaRow deltaColumn m maxChain = Some n ->
  isRun b r c deltaRow deltaColumn m (Z.max 1 maxChain) n.
Proof.
  unfold _countChainByDirection. intros Hcount.
  pose proof (iterate_invariant body chainInv cs_chain chainBody_continue
                (Z.to_pos maxChain) _ chainInv_init) as Hinv.
  destruct (iterate (Z.to_pos maxChain) body _) as [s | n' |]; try discriminate.
  injection Hcount as ->. destruct Hinv as (s1 & Hs1 & Hbody).
  exact (chainBody_break s1 n Hs1 Hbody).
Qed.

(** On a well-formed grid it always returns one. *)
Lemma countChain_returns :
  wf_grid b ->
  exists n, _countChainByDirection b r c deltaRow deltaColumn m maxChain = Some n.
Proof.
  intros Hwf. unfold _countChainByDirection.
  pose proof (iterate_invariant body chainInv cs_chain chainBody_continue
                (Z.to_pos maxChain) _ chainInv_init) as Hinv.
  pose proof chain_fuel_suffices as Hfuel.
  destruct (iterate (Z.to_pos maxChain) body _) as [s | n' |].
  - exfalso. exact (Hfuel s eq_refl).
  - eauto.
  - destruct Hinv as (s1 & _ & Hbody). exfalso.
    exact (chainBody_no_throw s1 Hwf Hbody).
Qed.

End ChainLoop.

(** Two run lengths for the same scan and limit agree. *)
Lemma isRun_unique b r c deltaRow deltaColumn m limit n n' :
  isRun b r c deltaRow deltaColumn m limit n ->
  isRun b r c deltaRow deltaColumn m limit n' ->
  n = n'.
Proof.
  intros (Hn & Hrun & Hstop) (Hn' & Hrun' & Hstop').
  destruct (Z.lt_trichotomy n n') as [Hlt | [Heq | Hgt]]; [| exact Heq |].
  - exfalso. apply Hstop; [lia |]. apply Hrun'. lia.
  - exfalso. apply Hstop'; [lia |]. apply Hrun. lia.
Qed.

(** The scan reads the grid and its size, and nothing else of the board. *)
Lemma countChain_reads_grid_only b b' r c deltaRow deltaColumn m maxChain :
  _grid b' = _grid b -> _gridSize b' = _gridSize b ->
  _countChainByDirection b' r c deltaRow deltaColumn m maxChain
  = _countChainByDirection b r c deltaRow deltaColumn m maxChain.
Proof.
  destruct b, b'. simpl. intros -> ->. reflexivity.
Qed.

(** On a well-formed grid the scan returns, and what it returns is the run
    length under the limit [max 1 maxChain]. *)
Lemma countChain_returns_run b r c deltaRow deltaColumn m maxChain :
  wf_grid b ->
  exists n,
    _countChainByDirection b r c deltaRow deltaColumn m maxChain = Some n
    /\ isRun b r c deltaRow deltaColumn m (Z.max 1 maxChain) n.
Proof.
  intros Hwf.
  destruct (countChain_returns b r c deltaRow deltaColumn m maxChain Hwf) as [n Hn].
  exists n. split; [exact Hn |]. apply countChain_isRun. exact Hn.
Qed.

(** C4, as the code has it: on a well-formed grid, for every start, direction,
    marker and cap, [_countChainByDirection] returns the number of consecutive
    cells holding the marker from one step away, stopping at the boundary, at
    the first other cell, or once [max 1 maxChain] cells are counted (the
    do-while loop looks at the first cell before it tests the cap); so the
    result never exceeds [maxChain] when [maxChain >= 1].  The result is a
    function of the grid contents alone. *)
Theorem countChain_run (b : Board) (r c deltaRow deltaColumn : Z) (m : string)
    (maxChain : Z) :
  wf_grid b ->
  exists n,
    _countChainByDirection b r c deltaRow deltaColumn m maxChain = Some n
    /\ isRun b r c deltaRow deltaColumn m (Z.max 1 maxChain) n
    /\ (1 <= maxChain -> n <= maxChain)
    /\ (forall b', _grid b' = _grid b -> _gridSize b' = _gridSize b ->
          _countChainByDirection b' r c deltaRow deltaColumn m maxChain = Some n).
Proof.
  intros Hwf.
  destruct (countChain_returns_run b r c deltaRow deltaColumn m maxChain Hwf)
    as (n & Hn & Hrun).
  exists n. split; [exact Hn |]. split; [exact Hrun |]. split.
  - intros Hcap. destruct Hrun as [Hrange _]. lia.
  - intros b' Hgrid Hsize. rewrite <- Hn.
    apply countChain_reads_grid_only; assumption.
Qed.

Lemma blockBoard_wf_grid v k botFirst : wf_grid (blockBoard v k botFirst).
Proof.
  unfold wf_grid. simpl. split; [unfold INT_MAX; lia |].
  split; [reflexivity |]. repeat constructor.
Qed.

Lemma countChain_run_witness :
  _countChainByDirection (blockBoard Classic Human true) 0 2 0 (-1) "X" INT_MAX
  = Some 2.
Proof.
  destruct (countChain_run (blockBoard Classic Human true) 0 2 0 (-1) "X" INT_MAX
              (blockBoard_wf_grid Classic Human true)) as (n & Hn & _).
  rewrite Hn. vm_compute in Hn. symmetry. exact Hn.
Defined.

(** C4, as stated, fails for a cap below 1: with [maxChain = 0] the scan to
    the left of cell 2 on the board holding X at cells 0 and 1 returns 1,
    which exceeds the cap. *)
Lemma countChain_exceeds_zero_cap :
  _countChainByDirection (blockBoard Classic Human true) 0 2 0 (-1) "X" 0 = Some 1
  /\ ~ (1 <= 0)
  /\ ~ isRun (blockBoard Classic Human true) 0 2 0 (-1) "X" 0 1.
Proof.
  split; [reflexivity |]. split; [lia |].
  intros [Hrange _]. lia.
Qed.

(** ** Connected cells *)

Lemma countChain_isolated b r c deltaRow deltaColumn m maxChain n :
  isolated b r c m ->
  -1 <= deltaRow <= 1 -> -1 <= deltaColumn <= 1 ->
  (deltaRow, deltaColumn) <> (0, 0) ->
  _countChainByDirection b r c deltaRow deltaColumn m maxChain = Some n ->
  n = 0.
Proof.
  intros Hiso Hdr Hdc Hdir Hn.
  apply countChain_isRun in Hn. destruct Hn as (Hrange & Hrun & _).
  destruct (Z.eq_dec n 0) as [Hz | Hnz]; [exact Hz | exfalso].
  apply (Hiso deltaRow deltaColumn Hdr Hdc Hdir).
  specialize (Hrun 1 ltac:(lia)).
  rewrite !Z.mul_1_l in Hrun. exact Hrun.
Qed.

Lemma axisTotal_contributes chain : axisContributes chain (axisTotal chain).
Proof.
  unfold axisContributes, axisTotal.
  destruct (Z.geb_spec chain 2); [left | right]; split; lia.
Qed.

(** C1: on a well-formed grid, for every cell and marker, [findConnectedCell]
    returns the cell with the four axis sums vertical = top + bottom,
    horizontal = left + right, diagonal-left = top-left + bottom-right and
    diagonal-right = top-right + bottom-left of the eight directional runs,
    and a [totalConnected] that is the sum over the four axes of the axis sum
    plus one when that sum is at least 2, and of 0 otherwise.  For a cell none
    of whose neighbours holds the marker, [totalConnected] is 0. *)
Theorem findConnectedCell_total (b : Board) (r c : Z) (m : string) (maxChain : Z) :
  wf_grid b ->
  exists top bottom left right topLeft bottomRight topRight bottomLeft
         tv th tl tr cc,
    (_countCurrentTopChain b r c m maxChain = Some top
     /\ isRun b r c (-1) 0 m (Z.max 1 maxChain) top)
    /\ (_countCurrentBottomChain b r c m maxChain = Some bottom
        /\ isRun b r c 1 0 m (Z.max 1 maxChain) bottom)
    /\ (_countCurrentLeftChain b r c m maxChain = Some left
        /\ isRun b r c 0 (-1) m (Z.max 1 maxChain) left)
    /\ (_countCurrentRightChain b r c m maxChain = Some right
        /\ isRun b r c 0 1 m (Z.max 1 maxChain) right)
    /\ (_countTopLeftChain b r c m maxChain = Some topLeft
        /\ isRun b r c (-1) (-1) m (Z.max 1 maxChain) topLeft)
    /\ (_countBottomRightChain b r c m maxChain = Some bottomRight
        /\ isRun b r c 1 1 m (Z.max 1 maxChain) bottomRight)
    /\ (_countTopRightChain b r c m maxChain = Some topRight
        /\ isRun b r c (-1) 1 m (Z.max 1 maxChain) topRight)
    /\ (_countBottomLeftChain b r c m maxChain = Some bottomLeft
        /\ isRun b r c 1 (-1) m (Z.max 1 maxChain) bottomLeft)
    /\ findConnectedCell b r c m maxChain = Some cc
    /\ row cc = r /\ column cc = c
    /\ verticalChain cc = top + bottom
    /\ horizontalChain cc = left + right
    /\ diagonalLeftChain cc = topLeft + bottomRight
    /\ diagonalRightChain cc = topRight + bottomLeft
    /\ axisContributes (verticalChain cc) tv
    /\ axisContributes (horizontalChain cc) th
    /\ axisContributes (diagonalLeftChain cc) tl
    /\ axisContributes (diagonalRightChain cc) tr
    /\ totalConnected cc = tv + th + tl + tr
    /\ (isolated b r c m -> totalConnected cc = 0).
Proof.
  intros Hwf.
  destruct (countChain_returns_run b r c (-1) 0 m maxChain Hwf) as (top & Htop & Rtop).
  destruct (countChain_returns_run b r c 1 0 m maxChain Hwf) as (bottom & Hbottom & Rbottom).
  destruct (countChain_returns_run b r c 0 (-1) m maxChain Hwf) as (left & Hleft & Rleft).
  destruct (countChain_returns_run b r c 0 1 m maxChain Hwf) as (right & Hright & Rright).
  destruct (countChain_returns_run b r c (-1) (-1) m maxChain Hwf) as (tl' & Htl & Rtl).
  destruct (countChain_returns_run b r c 1 1 m maxChain Hwf) as (br & Hbr & Rbr).
  destruct (countChain_returns_run b r c (-1) 1 m maxChain Hwf) as (tr' & Htr & Rtr).
  destruct (countChain_returns_run b r c 1 (-1) m maxChain Hwf) as (bl & Hbl & Rbl).
  exists top, bottom, left, right, tl', br, tr', bl.
  exists (axisTotal (top + bottom)), (axisTotal (left + right)),
         (axisTotal (tl' + br)), (axisTotal (tr' + bl)).
  eexists.
  unfold findConnectedCell, _countCurrentTopChain, _countCurrentBottomChain,
    _countCurrentLeftChain, _countCurrentRightChain, _countTopLeftChain,
    _countBottomRightChain, _countTopRightChain, _countBottomLeftChain.
  rewrite Htop, Hbottom, Hleft, Hright, Htl, Hbr, Htr, Hbl. simpl.
  repeat (split; [first [split; [reflexivity | assumption]
                        | reflexivity
                        | apply axisTotal_contributes
                        | lia] |]).
  intros Hiso.
  assert (top = 0) as -> by (eapply countChain_isolated; eauto; lia || congruence).
  assert (bottom = 0) as -> by (eapply countChain_isolated; eauto; lia || congruence).
  assert (left = 0) as -> by (eapply countChain_isolated; eauto; lia || congruence).
  assert (right = 0) as -> by (eapply countChain_isolated; eauto; lia || congruence).
  assert (tl' = 0) as -> by (eapply countChain_isolated; eauto; lia || congruence).
  assert (br = 0) as -> by (eapply countChain_isolated; eauto; lia || congruence).
  assert (tr' = 0) as -> by (eapply countChain_isolated; eauto; lia || congruence).
  assert (bl = 0) as -> by (eapply countChain_isolated; eauto; lia || congruence).
  reflexivity.
Qed.

Lemma findConnectedCell_total_witness :
  exists cc,
    findConnectedCell (blockBoard Classic Human true) 0 2 "X" INT_MAX = Some cc
    /\ horizontalChain cc = 2 /\ totalConnected cc = 3.
Proof.
  destruct (findConnectedCell_total (blockBoard Classic Human true) 0 2 "X" INT_MAX
              (blockBoard_wf_grid Classic Human true))
    as (top & bottom & left & right & tl & br & tr & bl & tv & th & tdl & tdr & cc
        & _ & _ & _ & _ & _ & _ & _ & _ & Hcc & _).
  exists cc. split; [exact Hcc |].
  vm_compute in Hcc. injection Hcc as <-. split; reflexivity.
Defined.

(** ** Result determination *)

(** Once [topScore] is at least every score still to come and no candidate
    is held, none is found. *)
Lemma resultLoop_none (players : list Player) :
  forall i topScore,
    Forall (fun p => _score p <= topScore) players ->
    resultLoop players i None topScore = None.
Proof.
  induction players as [| player rest IH]; intros i topScore Hall; simpl.
  - reflexivity.
  - inversion Hall as [| ? ? Hplayer Hrest]; subst.
    destruct (Z.gtb_spec (_score player) topScore); [lia |].
    destruct (Z.eqb_spec (_score player) topScore); apply IH; exact Hrest.
Qed.

(** A candidate stays while every later score is below [topScore]. *)
Lemma resultLoop_keeps (players : list Player) :
  forall i topPlayer topScore,
    Forall (fun p => _score p < topScore) players ->
    resultLoop players i topPlayer topScore = topPlayer.
Proof.
  induction players as [| player rest IH]; intros i topPlayer topScore Hall; simpl.
  - reflexivity.
  - inversion Hall as [| ? ? Hplayer Hrest]; subst.
    destruct (Z.gtb_spec (_score player) topScore); [lia |].
    destruct (Z.eqb_spec (_score player) topScore); [lia |].
    apply IH. exact Hrest.
Qed.

(** A later player whose score equals a [topScore] that nobody exceeds
    removes the candidate for good. *)
Lemma resultLoop_tie_with_top (players : list Player) :
  forall i topPlayer topScore (w : nat) p,
    players !! w = Some p -> _score p = topScore ->
    Forall (fun q => _score q <= topScore) players ->
    resultLoop players i topPlayer topScore = None.
Proof.
  induction players as [| player rest IH];
    intros i topPlayer topScore w p Hw Hp Hall; [discriminate |].
  inversion Hall as [| ? ? Hplayer Hrest]; subst. simpl.
  destruct (Z.gtb_spec (_score player) (_score p)); [lia |].
  destruct w as [| w]; simpl in Hw.
  - injection Hw as ->. rewrite Z.eqb_refl. apply resultLoop_none. exact Hrest.
  - destruct (Z.eqb_spec (_score player) (_score p)); eapply IH; eauto.
Qed.

Lemma resultLoop_tie (players : list Player) :
  forall i topPlayer topScore (w1 w2 : nat) p1 p2,
    (w1 < w2)%nat ->
    players !! w1 = Some p1 -> players !! w2 = Some p2 ->
    _score p1 = _score p2 ->
    topScore <= _score p1 ->
    Forall (fun q => _score q <= _score p1) players ->
    resultLoop players i topPlayer topScore = None.
Proof.
  induction players as [| player rest IH];
    intros i topPlayer topScore w1 w2 p1 p2 Hlt H1 H2 Heq Htop Hall; [discriminate |].
  inversion Hall as [| ? ? Hplayer Hrest]; subst. simpl.
  destruct w2 as [| w2]; [lia |]. simpl in H2.
  destruct w1 as [| w1]; simpl in H1.
  - injection H1 as ->.
    destruct (Z.gtb_spec (_score p1) topScore).
    + eapply resultLoop_tie_with_top; eauto.
    + replace topScore with (_score p1) by lia. rewrite Z.eqb_refl.
      apply resultLoop_none. exact Hrest.
  - destruct (Z.gtb_spec (_score player) topScore).
    + eapply (IH _ _ _ w1 w2); eauto; lia.
    + destruct (Z.eqb_spec (_score player) topScore);
        eapply (IH _ _ _ w1 w2); eauto; lia.
Qed.

Lemma resultLoop_winner (players : list Player) :
  forall i topPlayer topScore (w : nat) p,
    players !! w = Some p ->
    topScore < _score p ->
    (forall (j : nat) q, j <> w -> players !! j = Some q -> _score q < _score p) ->
    resultLoop players i topPlayer topScore = Some (i + w)%nat.
Proof.
  induction players as [| player rest IH];
    intros i topPlayer topScore w p Hw Htop Hothers; [discriminate |].
  simpl. destruct w as [| w]; simpl in Hw.
  - injection Hw as ->.
    destruct (Z.gtb_spec (_score p) topScore); [| lia].
    rewrite resultLoop_keeps; [f_equal; lia |].
    apply Forall_lookup. intros j q Hq. apply (Hothers (S j)); [lia | exact Hq].
  - assert (Hplayer : _score player < _score p)
      by (apply (Hothers 0%nat); [lia | reflexivity]).
    assert (Hrest : forall (j : nat) q,
               j <> w -> rest !! j = Some q -> _score q < _score p)
      by (intros j q Hj Hq; apply (Hothers (S j)); [lia | exact Hq]).
    replace (i + S w)%nat with (S i + w)%nat by lia.
    destruct (Z.gtb_spec (_score player) topScore).
    + eapply IH; eauto.
    + destruct (Z.eqb_spec (_score player) topScore); eapply IH; eauto.
Qed.

Lemma winText_not_drawText (p : Player) : winText p <> drawText.
Proof.
  unfold winText, drawText, name. destruct (kind p); simpl; discriminate.
Qed.

(** *** The winner text identifies the winner *)

Lemma append_inj_l (s x y : string) :
  String.append s x = String.append s y -> x = y.
Proof.
  induction s as [| a s IH]; simpl; intros H; [exact H |].
  injection H as H. apply IH. exact H.
Qed.

Lemma length_append (x y : string) :
  String.length (String.append x y) = (String.length x + String.length y)%nat.
Proof. induction x as [| a x IH]; simpl; [reflexivity | rewrite IH; reflexivity]. Qed.

Lemma append_inj_r (s : string) :
  forall x y, String.append x s = String.append y s -> x = y.
Proof.
  induction x as [| a x IH]; intros [| b y] H; simpl in H.
  - reflexivity.
  - exfalso. apply (f_equal String.length) in H. simpl in H.
    rewrite length_append in H. lia.
  - exfalso. apply (f_equal String.length) in H. simpl in H.
    rewrite length_append in H. lia.
  - injection H as -> H. f_equal. apply IH. exact H.
Qed.

(** The decimal text of a number holds no space. *)
Lemma to_string_no_space (z : Z) :
  ~ In " "%char (list_ascii_of_string (to_string z)).
Proof.
  assert (Huint : forall u,
             ~ In " "%char (list_ascii_of_string (NilEmpty.string_of_uint u))).
  { induction u; simpl; try tauto; intros [H | H]; try discriminate; tauto. }
  assert (Hzero : forall u,
             ~ In " "%char (list_ascii_of_string (NilZero.string_of_uint u))).
  { intros u. destruct u; try apply Huint. simpl. intros [H | []]. discriminate. }
  unfold to_string. destruct (Z.to_int z) as [u | u]; simpl.
  - apply Hzero.
  - intros [H | H]; [discriminate | exact (Hzero u H)].
Qed.

(** Different numbers have different decimal texts. *)
Lemma to_string_inj (z1 z2 : Z) : to_string z1 = to_string z2 -> z1 = z2.
Proof.
  unfold to_string. intros H.
  assert (Hnonnil : forall z, Z.to_int z <> Decimal.Pos Decimal.Nil
                              /\ Z.to_int z <> Decimal.Neg Decimal.Nil).
  { intros [| p | p]; simpl; split; try discriminate;
      intros Heq; injection Heq as Heq;
      exact (DecimalPos.Unsigned.to_uint_nonnil p Heq). }
  apply DecimalZ.to_int_inj.
  destruct (Hnonnil z1) as [H1 H1'], (Hnonnil z2) as [H2 H2'].
  pose proof (NilZero.isi _ H1 H1') as E1.
  pose proof (NilZero.isi _ H2 H2') as E2.
  rewrite H in E1. congruence.
Qed.

(** Two texts that begin with a word free of spaces and a space agree on
    the word and on what follows the space. *)
Lemma append_space_inj (a : string) :
  forall b x y,
    ~ In " "%char (list_ascii_of_string a) ->
    ~ In " "%char (list_ascii_of_string b) ->
    String.append a (String " " x) = String.append b (String " " y) ->
    a = b /\ x = y.
Proof.
  induction a as [| c a IH]; intros [| d b] x y Ha Hb H; simpl in *.
  - injection H as ->. auto.
  - injection H as <- _. exfalso. apply Hb. left. reflexivity.
  - injection H as -> _. exfalso. apply Ha. left. reflexivity.
  - injection H as -> H.
    destruct (IH b x y) as [-> ->]; [tauto | tauto | exact H | auto].
Qed.

(** The winner text tells the kind, the number and the marker of the
    player it is written for. *)
Lemma winText_inj (p q : Player) : winText p = winText q -> samePlayer p q.
Proof.
  unfold winText, name, samePlayer. intros H.
  apply append_inj_l in H.
  assert (Hkind : kind p = kind q).
  { destruct (kind p), (kind q); try reflexivity; simpl in H; discriminate. }
  split; [symmetry; exact Hkind |]. rewrite Hkind in H.
  apply append_inj_l in H. apply append_inj_l in H.
  change (String.append " (" ?x) with (String " " (String "(" x)) in H.
  apply append_space_inj in H; try apply to_string_no_space.
  destruct H as [Hnumber H]. apply to_string_inj in Hnumber.
  split; [symmetry; exact Hnumber |].
  injection H as H. apply append_inj_r in H. symmetry. exact H.
Qed.

(** Two players that share the highest score leave no winner. *)
Lemma resultText_tie (b : Board) (w1 w2 : nat) (p1 p2 : Player) :
  w1 <> w2 ->
  _players b !! w1 = Some p1 -> _players b !! w2 = Some p2 ->
  _score p1 = _score p2 ->
  Forall (fun q => _score q <= _score p1) (_players b) ->
  resultText b = Some drawText.
Proof.
  intros Hne H1 H2 Heq Hmax. unfold resultText.
  destruct (Z.le_gt_cases 0 (_score p1)) as [Hp1 | Hp1].
  - destruct (Nat.lt_total w1 w2) as [Hlt | [Heqw | Hgt]]; [| lia |].
    + rewrite (resultLoop_tie _ 0%nat None 0 w1 w2 p1 p2); auto.
    + rewrite (resultLoop_tie _ 0%nat None 0 w2 w1 p2 p1); auto; try lia.
      rewrite <- Heq. exact Hmax.
  - rewrite resultLoop_none; [reflexivity |].
    eapply Forall_impl; [exact Hmax |]. simpl. intros; lia.
Qed.

(** C5: for every player list, [resultText] names as winner the player
    whose score is positive and strictly above every other player's, and
    reports a draw when two players share the highest score and when no
    score is positive, every score being 0 included.  The winner text is
    not the draw text, and it is the winner text of no player of another
    kind, number or marker.  Scores 5, 5, 3 give a draw and scores 5, 3, 3
    make the player with 5 the winner. *)
Theorem resultText_winner_or_draw (b : Board) :
  (forall (w : nat) p,
     _players b !! w = Some p ->
     0 < _score p ->
     (forall (j : nat) q, j <> w -> _players b !! j = Some q -> _score q < _score p) ->
     resultText b = Some (winText p))
  /\ (forall (w1 w2 : nat) p1 p2,
        w1 <> w2 ->
        _players b !! w1 = Some p1 -> _players b !! w2 = Some p2 ->
        _score p1 = _score p2 ->
        Forall (fun q => _score q <= _score p1) (_players b) ->
        resultText b = Some drawText)
  /\ (Forall (fun q => _score q <= 0) (_players b) -> resultText b = Some drawText)
  /\ (forall p, winText p <> drawText)
  /\ (forall p q, winText p = winText q -> samePlayer p q)
  /\ (forall p1 p2 p3,
        _players b = [p1; p2; p3] ->
        _score p1 = 5 -> _score p2 = 5 -> _score p3 = 3 ->
        resultText b = Some drawText)
  /\ (forall p1 p2 p3,
        _players b = [p1; p2; p3] ->
        _score p1 = 5 -> _score p2 = 3 -> _score p3 = 3 ->
        resultText b = Some (winText p1)).
Proof.
  assert (Hwin : forall (w : nat) p,
     _players b !! w = Some p ->
     0 < _score p ->
     (forall (j : nat) q, j <> w -> _players b !! j = Some q -> _score q < _score p) ->
     resultText b = Some (winText p)).
  { intros w p Hw Hpos Hothers. unfold resultText.
    rewrite (resultLoop_winner _ 0%nat None 0 w p Hw Hpos Hothers).
    simpl. rewrite Hw. reflexivity. }
  split; [exact Hwin |].
  split; [intros w1 w2 p1 p2; apply resultText_tie |].
  split.
  { intros Hnone. unfold resultText. rewrite resultLoop_none; [reflexivity |].
    exact Hnone. }
  split; [apply winText_not_drawText |].
  split; [apply winText_inj |].
  split.
  - intros p1 p2 p3 Hplayers H1 H2 H3.
    apply (resultText_tie b 0%nat 1%nat p1 p2); [lia | | | lia |]; rewrite Hplayers;
      try reflexivity.
    repeat constructor; lia.
  - intros p1 p2 p3 Hplayers H1 H2 H3.
    apply (Hwin 0%nat p1); [rewrite Hplayers; reflexivity | lia |].
    rewrite Hplayers. intros [| [| [| j]]] q Hj Hq; simpl in Hq; try discriminate; try lia;
      injection Hq as <-; lia.
Qed.

Lemma resultText_winner_or_draw_witness :
  resultText (mkBoard Frenzy
                [mkPlayer Human 1 "X" 5 2; mkPlayer Robot 2 "O" 3 3;
                 mkPlayer Human 3 "Z" 3 0] 4 [] None)
  = Some (winText (mkPlayer Human 1 "X" 5 2))
  /\ winText (mkPlayer Human 1 "X" 5 2) <> winText (mkPlayer Robot 2 "O" 3 3).
Proof.
  refine (match resultText_winner_or_draw
                  (mkBoard Frenzy
                     [mkPlayer Human 1 "X" 5 2; mkPlayer Robot 2 "O" 3 3;
                      mkPlayer Human 3 "Z" 3 0] 4 [] None)
          with conj _ (conj _ (conj _ (conj _ (conj Hinj (conj _ Hwin))))) =>
            conj (Hwin _ _ _ eq_refl eq_refl eq_refl eq_refl)
                 (fun Heq => _)
          end).
  destruct (Hinj _ _ Heq) as [Hkind _]. discriminate.
Defined.

(** C5, as stated for every player list, fails where the strict maximum is
    not positive: a player with score 0 above a player with score -1, and a
    lone player with score 0, hold the strict maximum, and the result is a
    draw. *)
Lemma resultText_strict_maximum_draw :
  (let players := [mkPlayer Human 1 "X" 0 0; mkPlayer Robot 2 "O" (-1) 0] in
   let b := mkBoard Frenzy players 3 (replicate 3 (replicate 3 EmptyString)) None in
   (forall (j : nat) q,
      j <> 0%nat -> players !! j = Some q -> _score q < _score (mkPlayer Human 1 "X" 0 0))
   /\ resultText b = Some drawText
   /\ resultText b <> Some (winText (mkPlayer Human 1 "X" 0 0)))
  /\ (let players := [mkPlayer Human 1 "X" 0 0] in
      let b := mkBoard Frenzy players 3 (replicate 3 (replicate 3 EmptyString)) None in
      (forall (j : nat) q,
         j <> 0%nat -> players !! j = Some q
         -> _score q < _score (mkPlayer Human 1 "X" 0 0))
      /\ resultText b = Some drawText
      /\ resultText b <> Some (winText (mkPlayer Human 1 "X" 0 0))).
Proof.
  split; simpl.
  - split; [| split; [reflexivity | discriminate]].
    intros [| [| j]] q Hj Hq; simpl in Hq; try discriminate; [contradiction |].
    injection Hq as <-. simpl. lia.
  - split; [| split; [reflexivity | discriminate]].
    intros [| j] q Hj Hq; simpl in Hq; [contradiction | discriminate].
Qed.

(** ** Turn distance *)

Lemma turn_distance (playerCount this_number number : Z) :
  1 <= this_number <= playerCount -> 1 <= number <= playerCount ->
  number <> this_number ->
  (number - this_number) mod playerCount
  = if number <? this_number then number - this_number + playerCount
    else number - this_number.
Proof.
  intros Hthis Hn Hne. destruct (Z.ltb_spec number this_number).
  - rewrite <- (Z.mod_add _ 1 playerCount) by lia.
    rewrite Z.mod_small; lia.
  - apply Z.mod_small. lia.
Qed.

(** C6: for a bot and two candidates whose three numbers are distinct
    numbers of 1..playerCount, [_compareNextTurn] returns the candidate with
    the smaller (number - botNumber) mod playerCount, the one who moves sooner
    after the bot; and when the second candidate carries the bot's own number,
    the special case of the code, it returns the first candidate. *)
Theorem compareNextTurn_sooner (this player1 player2 : Player) (playerCount : Z) :
  (1 <= _number this <= playerCount ->
   1 <= _number player1 <= playerCount ->
   1 <= _number player2 <= playerCount ->
   _number player1 <> _number player2 ->
   _number player1 <> _number this ->
   _number player2 <> _number this ->
   ((_number player1 - _number this) mod playerCount
    < (_number player2 - _number this) mod playerCount ->
    _compareNextTurn this player1 player2 = player1)
   /\ ((_number player2 - _number this) mod playerCount
       < (_number player1 - _number this) mod playerCount ->
       _compareNextTurn this player1 player2 = player2))
  /\ (_number player2 = _number this ->
      _compareNextTurn this player1 player2 = player1).
Proof.
  split.
  - intros Hthis H1 H2 H12 H1t H2t.
    rewrite (turn_distance playerCount (_number this) (_number player1)) by assumption.
    rewrite (turn_distance playerCount (_number this) (_number player2)) by assumption.
    unfold _compareNextTurn, nextTurnIsFirst.
    destruct (Z.ltb_spec (_number player1) (_number this));
      destruct (Z.ltb_spec (_number player2) (_number this));
      destruct (Z.ltb_spec (_number player1) (_number player2));
      destruct (Z.ltb_spec (_number this) (_number player1));
      destruct (Z.eqb_spec (_number this) (_number player2));
      simpl; split; intros; first [reflexivity | lia].
  - intros Heq. unfold _compareNextTurn, nextTurnIsFirst.
    rewrite Heq, Z.eqb_refl, !orb_true_r. reflexivity.
Qed.

Lemma compareNextTurn_sooner_witness :
  _compareNextTurn (botO 3) (opponentX Human 2) (opponentX Human 4)
  = opponentX Human 4.
Proof.
  destruct (compareNextTurn_sooner (botO 3) (opponentX Human 2) (opponentX Human 4) 5)
    as [Hsooner _].
  apply Hsooner; simpl; try lia. reflexivity.
Defined.

(** ** Turn rotation *)

Lemma rotate_index (N i k : nat) :
  (i < N)%nat -> (k <= N)%nat ->
  ((i + k) mod N = if (i + k <? N)%nat then i + k else i + k - N)%nat.
Proof.
  intros Hi Hk. destruct (Nat.ltb_spec (i + k) N).
  - apply Nat.mod_small. lia.
  - replace (i + k)%nat with ((i + k - N) + 1 * N)%nat at 1 by lia.
    rewrite Nat.Div0.mod_add. apply Nat.mod_small. lia.
Qed.

Lemma toggle_keeps rnd b b' :
  togglePlayerTurn rnd b = Some b' ->
  variant b' = variant b /\ _players b' = _players b
  /\ _gridSize b' = _gridSize b /\ _grid b' = _grid b.
Proof.
  unfold togglePlayerTurn. intros Htoggle.
  destruct (match _playerTurn b with
            | Some turn => _ | None => _ end) as [idx |]; [| discriminate].
  simpl in Htoggle.
  destruct (vec_at (_players b) _); [| discriminate].
  simpl in Htoggle. injection Htoggle as <-. simpl. auto.
Qed.

(** The first call, with no turn-holder: the drawn index is taken. *)
Lemma toggle_first rnd b :
  _players b <> [] -> _playerTurn b = None ->
  randomIndexRange (length (_players b)) rnd ->
  exists b', togglePlayerTurn rnd b = Some b'
             /\ _playerTurn b' = Some (Z.to_nat rnd)
             /\ (Z.to_nat rnd < length (_players b))%nat.
Proof.
  intros Hplayers Hturn Hrnd. unfold togglePlayerTurn, randomIndexRange in *.
  assert (Hlen : (0 < length (_players b))%nat)
    by (destruct (_players b); [congruence | simpl; lia]).
  rewrite Hturn. simpl.
  destruct (vec_at_Some (_players b) rnd) as [p Hp]; [lia |].
  rewrite Hp. simpl. eexists. split; [reflexivity |]. simpl. split; [reflexivity | lia].
Qed.

(** A later call: the turn passes to the next index, cyclically. *)
Lemma toggle_next rnd b (i : nat) :
  numbered (_players b) -> _playerTurn b = Some i ->
  (i < length (_players b))%nat ->
  exists b', togglePlayerTurn rnd b = Some b'
             /\ _playerTurn b' = Some ((i + 1) mod length (_players b))%nat.
Proof.
  intros Hnum Hturn Hi. unfold togglePlayerTurn. rewrite Hturn.
  destruct (lookup_lt_is_Some_2 (_players b) i Hi) as [p Hp].
  rewrite Hp. simpl. rewrite (Hnum i p Hp).
  replace (Z.of_nat i + 1 - 1) with (Z.of_nat i) by lia.
  destruct (Z.eqb_spec (Z.of_nat i) (-1)); [lia |].
  destruct (Z.ltb_spec (Z.of_nat i + 1) 0); [lia |]. simpl.
  rewrite (rotate_index (length (_players b)) i 1) by lia.
  destruct (Z.geb_spec (Z.of_nat i + 1) (Z.of_nat (length (_players b))));
    destruct (Nat.ltb_spec (i + 1) (length (_players b))); try lia.
  - destruct (vec_at_Some (_players b) 0) as [q Hq]; [lia |].
    rewrite Hq. simpl. eexists. split; [reflexivity |]. simpl. f_equal. lia.
  - destruct (vec_at_Some (_players b) (Z.of_nat i + 1)) as [q Hq]; [lia |].
    rewrite Hq. simpl. eexists. split; [reflexivity |]. simpl. f_equal. lia.
Qed.

(** From a turn-holder at index [i], the calls visit i + 1, i + 2, ...
    modulo the number of players. *)
Lemma toggleTrace_from (rnds : list Z) :
  forall b (i : nat),
    numbered (_players b) -> _playerTurn b = Some i ->
    (i < length (_players b))%nat ->
    toggleTrace rnds b
    = Some (map (fun k => ((i + k) mod length (_players b))%nat)
              (seq 1 (length rnds))).
Proof.
  induction rnds as [| rnd rest IH]; intros b i Hnum Hturn Hi; [reflexivity |].
  simpl toggleTrace.
  destruct (toggle_next rnd b i Hnum Hturn Hi) as (b' & Htoggle & Hturn').
  destruct (toggle_keeps _ _ _ Htoggle) as (_ & Hplayers & _).
  rewrite Htoggle. simpl. rewrite Hturn'. simpl.
  rewrite (IH b' ((i + 1) mod length (_players b))%nat).
  - simpl. rewrite Hplayers. apply (f_equal Some). apply (f_equal (cons _)).
    rewrite <- (seq_shift (length rest) 1), map_map. apply map_ext. intros k.
    rewrite Nat.Div0.add_mod_idemp_l. f_equal. lia.
  - rewrite Hplayers. exact Hnum.
  - exact Hturn'.
  - rewrite Hplayers. apply Nat.mod_upper_bound. lia.
Qed.

Lemma seq_from_zero (n : nat) :
  (0 < n)%nat -> seq 0 n = 0%nat :: seq 1 (n - 1).
Proof.
  destruct n as [| n]; [lia |]. intros _. simpl. rewrite Nat.sub_0_r. reflexivity.
Qed.

Lemma seq_from_one_last (n : nat) :
  (0 < n)%nat -> seq 1 n = seq 1 (n - 1) ++ [n].
Proof.
  destruct n as [| n]; [lia |]. intros _. rewrite seq_S. simpl.
  rewrite Nat.sub_0_r. reflexivity.
Qed.

Lemma rotation_NoDup (N i : nat) :
  (i < N)%nat -> List.NoDup (map (fun k => ((i + k) mod N)%nat) (seq 0 N)).
Proof.
  intros Hi. apply NoDup_map_NoDup_ForallPairs; [| apply seq_NoDup].
  intros k1 k2 H1 H2. apply in_seq in H1, H2.
  rewrite !rotate_index by lia.
  destruct (Nat.ltb_spec (i + k1) N); destruct (Nat.ltb_spec (i + k2) N); lia.
Qed.

Lemma rotation_covers (N i j : nat) :
  (i < N)%nat -> (j < N)%nat ->
  In j (map (fun k => ((i + k) mod N)%nat) (seq 0 N)).
Proof.
  intros Hi Hj. apply in_map_iff.
  exists (if (i <=? j)%nat then j - i else j + N - i)%nat.
  destruct (Nat.leb_spec i j); (split; [| apply in_seq; lia]);
    rewrite rotate_index by lia;
    destruct (Nat.ltb_spec (i + (j - i)) N);
    destruct (Nat.ltb_spec (i + (j + N - i)) N); lia.
Qed.

(** C7: on a board with N >= 1 players numbered 1..N in list order,
    [togglePlayerTurn] with no turn-holder picks the drawn index, which lies
    in [0, N); with the turn-holder at index i it moves the turn to index
    (i + 1) mod N; and N successive calls from the unset state visit every
    index exactly once, the call after them coming back to the first pick. *)
Theorem togglePlayerTurn_rotation (b : Board) :
  _players b <> [] ->
  numbered (_players b) ->
  (forall rnd,
     _playerTurn b = None -> randomIndexRange (length (_players b)) rnd ->
     exists b' i, togglePlayerTurn rnd b = Some b'
                  /\ _playerTurn b' = Some i
                  /\ (i < length (_players b))%nat
                  /\ _players b' = _players b /\ _grid b' = _grid b)
  /\ (forall rnd (i : nat),
        _playerTurn b = Some i -> (i < length (_players b))%nat ->
        exists b', togglePlayerTurn rnd b = Some b'
                   /\ _playerTurn b' = Some ((i + 1) mod length (_players b))%nat
                   /\ _players b' = _players b /\ _grid b' = _grid b)
  /\ (forall rnds,
        _playerTurn b = None ->
        length rnds = S (length (_players b)) ->
        Forall (randomIndexRange (length (_players b))) rnds ->
        exists first rest,
          toggleTrace rnds b = Some (first :: rest ++ [first])
          /\ length (first :: rest) = length (_players b)
          /\ List.NoDup (first :: rest)
          /\ forall i, (i < length (_players b))%nat -> In i (first :: rest)).
Proof.
  intros Hplayers Hnum.
  assert (Hlen : (0 < length (_players b))%nat)
    by (destruct (_players b); [congruence | simpl; lia]).
  split; [| split].
  - intros rnd Hturn Hrnd.
    destruct (toggle_first rnd b Hplayers Hturn Hrnd) as (b' & Htoggle & Hturn' & Hlt).
    destruct (toggle_keeps _ _ _ Htoggle) as (_ & Hp & _ & Hg).
    exists b', (Z.to_nat rnd). auto.
  - intros rnd i Hturn Hi.
    destruct (toggle_next rnd b i Hnum Hturn Hi) as (b' & Htoggle & Hturn').
    destruct (toggle_keeps _ _ _ Htoggle) as (_ & Hp & _ & Hg).
    exists b'. auto.
  - intros rnds Hturn Hcount Hrnds.
    destruct rnds as [| rnd rnds]; [discriminate |].
    injection Hcount as Hcount.
    inversion Hrnds as [| ? ? Hrnd _]; subst.
    destruct (toggle_first rnd b Hplayers Hturn Hrnd) as (b' & Htoggle & Hturn' & Hlt).
    destruct (toggle_keeps _ _ _ Htoggle) as (_ & Hp & _).
    set (N := length (_players b)) in *.
    set (i0 := Z.to_nat rnd) in *.
    set (f := fun k => ((i0 + k) mod N)%nat).
    assert (Htrace : toggleTrace (rnd :: rnds) b = Some (i0 :: map f (seq 1 N))).
    { simpl toggleTrace. rewrite Htoggle. simpl. rewrite Hturn'. simpl.
      rewrite (toggleTrace_from rnds b' i0); rewrite ?Hp; auto.
      simpl. rewrite Hcount. reflexivity. }
    assert (Hf0 : f 0%nat = i0)
      by (unfold f; rewrite Nat.add_0_r; apply Nat.mod_small; exact Hlt).
    assert (HfN : f N = i0).
    { unfold f. rewrite (rotate_index N i0 N) by lia.
      destruct (Nat.ltb_spec (i0 + N) N); lia. }
    assert (Hall : i0 :: map f (seq 1 (N - 1)) = map f (seq 0 N)).
    { rewrite (seq_from_zero N) by lia. cbn [map]. rewrite Hf0. reflexivity. }
    exists i0, (map f (seq 1 (N - 1))).
    split; [| split; [| split]].
    + rewrite Htrace. apply (f_equal Some). apply (f_equal (cons _)).
      rewrite (seq_from_one_last N) by lia.
      rewrite map_app. cbn [map]. rewrite HfN. reflexivity.
    + rewrite Hall, length_map, length_seq. reflexivity.
    + rewrite Hall. apply rotation_NoDup. exact Hlt.
    + intros i Hi. rewrite Hall. apply rotation_covers; assumption.
Qed.

Lemma togglePlayerTurn_rotation_witness :
  exists b,
    ClassicBoard [botO 1; opponentX Human 2] = Some b
    /\ toggleTrace [1; 0; 0] b = Some [1; 0; 1]%nat.
Proof.
  exists (mkBoard Classic [botO 1; opponentX Human 2] 3
            (replicate 3 (replicate 3 EmptyString)) None).
  split; [reflexivity |].
  refine (match togglePlayerTurn_rotation
                  (mkBoard Classic [botO 1; opponentX Human 2] 3
                     (replicate 3 (replicate 3 EmptyString)) None) _ _
          with conj _ (conj _ Hcycle) => _ end).
  - discriminate.
  - intros [| [| i]] p Hp; simpl in Hp; try discriminate;
      injection Hp as <-; reflexivity.
  - destruct (Hcycle [1; 0; 0]) as (first & rest & Htrace & _).
    + reflexivity.
    + reflexivity.
    + repeat constructor; unfold randomIndexRange; simpl; lia.
    + rewrite Htrace. vm_compute in Htrace. symmetry. exact Htrace.
Defined.

(** ** Writing a cell *)

Lemma grid_set_length g r c marker : length (grid_set g r c marker) = length g.
Proof.
  unfold grid_set. destruct (g !! Z.to_nat r); [apply length_insert | reflexivity].
Qed.

Lemma grid_set_rows (n : nat) g r c marker :
  Forall (fun line : list string => length line = n) g ->
  Forall (fun line : list string => length line = n) (grid_set g r c marker).
Proof.
  intros Hall. unfold grid_set.
  destruct (g !! Z.to_nat r) as [line |] eqn:Hline; [| exact Hall].
  apply Forall_insert; [exact Hall |].
  rewrite length_insert. rewrite Forall_lookup in Hall. exact (Hall _ _ Hline).
Qed.

Lemma grid_at_set_same g r c marker line :
  0 <= r -> 0 <= c ->
  g !! Z.to_nat r = Some line -> (Z.to_nat c < length line)%nat ->
  grid_at (grid_set g r c marker) r c = Some marker.
Proof.
  intros Hr Hc Hline Hlen. apply grid_at_lookup.
  split; [exact Hr |]. split; [exact Hc |].
  exists (<[Z.to_nat c := marker]> line). unfold grid_set. rewrite Hline. split.
  - apply list_lookup_insert_eq. apply lookup_lt_Some in Hline. exact Hline.
  - apply list_lookup_insert_eq. exact Hlen.
Qed.

Lemma grid_at_set_other g r c marker r' c' :
  0 <= r -> 0 <= c -> (r', c') <> (r, c) ->
  grid_at (grid_set g r c marker) r' c' = grid_at g r' c'.
Proof.
  intros Hr Hc Hne. unfold grid_set.
  destruct (g !! Z.to_nat r) as [line |] eqn:Hline; [| reflexivity].
  unfold grid_at, vec_at.
  destruct (Z.ltb_spec r' 0); [reflexivity |].
  destruct (Nat.eq_dec (Z.to_nat r') (Z.to_nat r)) as [Heq | Hrow].
  - rewrite Heq, Hline.
    rewrite list_lookup_insert_eq by (apply lookup_lt_Some in Hline; exact Hline).
    simpl. destruct (Z.ltb_spec c' 0); [reflexivity |].
    apply list_lookup_insert_ne. intros Hcol. apply Hne. f_equal; lia.
  - rewrite list_lookup_insert_ne by congruence. reflexivity.
Qed.

(** ** Caps that cannot bind *)





Lemma findConnectedCell_reads_grid_only b b' r c m maxChain :
  _grid b' = _grid b -> _gridSize b' = _gridSize b ->
  findConnectedCell b' r c m maxChain = findConnectedCell b r c m maxChain.
Proof.
  destruct b, b'. simpl. intros -> ->. reflexivity.
Qed.

Lemma findConnectedCell_returns b r c m maxChain :
  wf_grid b -> exists cc, findConnectedCell b r c m maxChain = Some cc.
Proof.
  intros Hwf.
  unfold findConnectedCell, _countCurrentTopChain, _countCurrentBottomChain,
    _countCurrentLeftChain, _countCurrentRightChain, _countTopLeftChain,
    _countBottomRightChain, _countTopRightChain, _countBottomLeftChain.
  destruct (countChain_returns b r c (-1) 0 m maxChain Hwf) as [? ->].
  destruct (countChain_returns b r c 1 0 m maxChain Hwf) as [? ->].
  destruct (countChain_returns b r c 0 (-1) m maxChain Hwf) as [? ->].
  destruct (countChain_returns b r c 0 1 m maxChain Hwf) as [? ->].
  destruct (countChain_returns b r c (-1) (-1) m maxChain Hwf) as [? ->].
  destruct (countChain_returns b r c 1 1 m maxChain Hwf) as [? ->].
  destruct (countChain_returns b r c (-1) 1 m maxChain Hwf) as [? ->].
  destruct (countChain_returns b r c 1 (-1) m maxChain Hwf) as [? ->].
  simpl. eauto.
Qed.

(** ** Marking a cell *)

Lemma inBounds_dec b r c :
  ((c <? 0) || (c >=? _gridSize b) || (r <? 0) || (r >=? _gridSize b)) = false
  <-> inBounds b r c.
Proof.
  unfold inBounds.
  destruct (Z.ltb_spec r 0); destruct (Z.geb_spec r (_gridSize b));
    destruct (Z.ltb_spec c 0); destruct (Z.geb_spec c (_gridSize b));
    simpl; split; intros; try discriminate; try reflexivity; lia.
Qed.

Lemma empty_true (s : string) : empty s = true <-> s = EmptyString.
Proof. destruct s; simpl; split; congruence. Qed.

(** The three refusals of [markCellByNumber]. *)
Lemma markCellByNumber_refuses b cellNumber marker :
  wf_grid b ->
  let x := columnByCellNumber b cellNumber in
  let y := rowByCellNumber b cellNumber in
  ~ inBounds b y x
  \/ (exists cell, grid_at (_grid b) y x = Some cell /\ empty cell = false)
  \/ _playerTurn b = None ->
  markCellByNumber cellNumber marker b = Some (false, b).
Proof.
  intros Hwf x y Hcase. unfold markCellByNumber. fold x y.
  destruct ((x <? 0) || (x >=? _gridSize b) || (y <? 0) || (y >=? _gridSize b))
    eqn:Hout; [reflexivity |].
  assert (Hin : inBounds b y x) by (apply inBounds_dec in Hout; exact Hout).
  destruct (grid_at_inBounds b y x Hwf Hin) as [cell Hcell].
  rewrite Hcell. simpl.
  destruct (empty cell) eqn:Hempty; simpl; [| reflexivity].
  destruct Hcase as [Hno | [(cell' & Hcell' & Hocc) | Hturn]].
  - contradiction.
  - congruence.
  - rewrite Hturn. reflexivity.
Qed.

(** The placement. *)
Lemma markCellByNumber_places b cellNumber marker turn p :
  wf_grid b ->
  let x := columnByCellNumber b cellNumber in
  let y := rowByCellNumber b cellNumber in
  inBounds b y x ->
  grid_at (_grid b) y x = Some EmptyString ->
  _playerTurn b = Some turn ->
  _players b !! turn = Some p ->
  exists b' cc,
    markCellByNumber cellNumber marker b = Some (true, b')
    /\ findConnectedCell b' y x marker INT_MAX = Some cc
    /\ _grid b' = grid_set (_grid b) y x marker
    /\ _players b'
       = <[turn := setScore (_score p + totalConnected cc) p]> (_players b)
    /\ variant b' = variant b
    /\ _gridSize b' = _gridSize b
    /\ _playerTurn b' = _playerTurn b.
Proof.
  intros Hwf x y Hin Hcell Hturn Hp. unfold markCellByNumber. fold x y.
  assert (Hout : ((x <? 0) || (x >=? _gridSize b) || (y <? 0) || (y >=? _gridSize b))
                 = false) by (apply inBounds_dec; auto).
  rewrite Hout, Hcell. simpl. rewrite Hturn.
  set (b1 := {| variant := variant b; _players := _players b;
                _gridSize := _gridSize b;
                _grid := grid_set (_grid b) y x marker;
                _playerTurn := Some turn |}).
  assert (Hwf1 : wf_grid b1).
  { destruct Hwf as (Hsize & Hrows & Hcols). unfold wf_grid, b1. simpl.
    split; [exact Hsize |]. split; [rewrite grid_set_length; exact Hrows |].
    apply grid_set_rows. exact Hcols. }
  destruct (findConnectedCell_returns b1 y x marker INT_MAX Hwf1) as [cc Hcc].
  rewrite Hcc. simpl. rewrite Hp. simpl.
  eexists. exists cc. split; [reflexivity |]. simpl.
  split; [| auto 6].
  rewrite <- Hcc. apply findConnectedCell_reads_grid_only; reflexivity.
Qed.

Lemma markCellByNumber_wf b cellNumber marker result b' :
  wf_board b ->
  markCellByNumber cellNumber marker b = Some (result, b') ->
  wf_board b'.
Proof.
  intros [Hwf Hturn] Hmark.
  set (x := columnByCellNumber b cellNumber) in *.
  set (y := rowByCellNumber b cellNumber) in *.
  destruct result.
  - unfold markCellByNumber in Hmark. fold x y in Hmark.
    destruct ((x <? 0) || (x >=? _gridSize b) || (y <? 0) || (y >=? _gridSize b));
      [discriminate |].
    destruct (grid_at (_grid b) y x) as [cell |]; [| discriminate]. simpl in Hmark.
    destruct (negb (empty cell)); [discriminate |].
    destruct (_playerTurn b) as [turn |] eqn:Ht; [| discriminate].
    destruct (findConnectedCell _ y x marker INT_MAX) as [cc |]; [| discriminate].
    simpl in Hmark.
    destruct (_players b !! turn) as [p |]; [| discriminate]. simpl in Hmark.
    injection Hmark as <-.
    destruct Hwf as (Hsize & Hrows & Hcols).
    split.
    + unfold wf_grid. simpl. split; [exact Hsize |].
      split; [rewrite grid_set_length; exact Hrows |].
      apply grid_set_rows. exact Hcols.
    + unfold wf_turn. simpl. intros t Ht'. rewrite length_insert.
      apply Hturn. rewrite Ht. exact Ht'.
  - unfold markCellByNumber in Hmark. fold x y in Hmark.
    destruct ((x <? 0) || (x >=? _gridSize b) || (y <? 0) || (y >=? _gridSize b));
      [injection Hmark as <-; split; assumption |].
    destruct (grid_at (_grid b) y x) as [cell |]; [| discriminate]. simpl in Hmark.
    destruct (negb (empty cell)); [injection Hmark as <-; split; assumption |].
    destruct (_playerTurn b) as [turn |] eqn:Ht;
      [| injection Hmark as <-; split; assumption].
    destruct (findConnectedCell _ y x marker INT_MAX) as [cc |]; [| discriminate].
    simpl in Hmark.
    destruct (_players b !! turn) as [p |]; discriminate.
Qed.


Lemma blockBoard_wf v k botFirst : wf_board (blockBoard v k botFirst).
Proof.
  split; [apply blockBoard_wf_grid |].
  intros turn Hturn. simpl in Hturn. injection Hturn as <-.
  destruct botFirst; simpl; lia.
Qed.


(** ** Available cells *)

Lemma set_insert_In (x y : Z) (s : list Z) :
  In x (set_insert y s) <-> x = y \/ In x s.
Proof.
  induction s as [| z s IH]; simpl.
  - intuition.
  - destruct (Z.ltb_spec y z); simpl; [intuition |].
    destruct (Z.eqb_spec y z); simpl; [subst; intuition |].
    rewrite IH. intuition.
Qed.

Lemma availableInRow_In b r (line : list string) :
  forall c cells x,
    In x (availableInRow b r c line cells) <->
    In x cells
    \/ exists (j : nat) cell,
         line !! j = Some cell /\ empty cell = true
         /\ x = cellNumberByPosition b r (c + Z.of_nat j).
Proof.
  induction line as [| cell0 rest IH]; intros c cells x; simpl.
  - split; [auto |]. intros [Hx | (j & cell & Hj & _)]; [exact Hx | discriminate].
  - rewrite IH. split.
    + intros [Hx | (j & cell & Hj & Hempty & ->)].
      * destruct (empty cell0) eqn:Hcell0; [| auto].
        apply set_insert_In in Hx. destruct Hx as [-> | Hx]; [| auto].
        right. exists 0%nat, cell0. simpl. rewrite Z.add_0_r. auto.
      * right. exists (S j), cell.
        split; [exact Hj |]. split; [exact Hempty |]. f_equal. lia.
    + intros [Hx | (j & cell & Hj & Hempty & ->)].
      * left. destruct (empty cell0); [apply set_insert_In |]; auto.
      * destruct j as [| j]; simpl in Hj.
        -- injection Hj as ->. rewrite Hempty. left. apply set_insert_In.
           left. simpl. rewrite Z.add_0_r. reflexivity.
        -- right. exists j, cell.
           split; [exact Hj |]. split; [exact Hempty |]. f_equal. lia.
Qed.

Lemma availableInRows_In b (rows : list (list string)) :
  forall r cells x,
    In x (availableInRows b r rows cells) <->
    In x cells
    \/ exists (i j : nat) line cell,
         rows !! i = Some line /\ line !! j = Some cell /\ empty cell = true
         /\ x = cellNumberByPosition b (r + Z.of_nat i) (Z.of_nat j).
Proof.
  induction rows as [| line0 rest IH]; intros r cells x; simpl.
  - split; [auto |]. intros [Hx | (i & j & line & cell & Hi & _)];
      [exact Hx | discriminate].
  - rewrite IH, availableInRow_In. split.
    + intros [[Hx | (j & cell & Hj & Hempty & ->)]
             | (i & j & line & cell & Hi & Hj & Hempty & ->)].
      * auto.
      * right. exists 0%nat, j, line0, cell. simpl. rewrite Z.add_0_r. auto.
      * right. exists (S i), j, line, cell.
        split; [exact Hi |]. split; [exact Hj |]. split; [exact Hempty |].
        f_equal. lia.
    + intros [Hx | (i & j & line & cell & Hi & Hj & Hempty & ->)]; [auto |].
      destruct i as [| i]; simpl in Hi.
      * injection Hi as ->. left. right. exists j, cell.
        simpl. rewrite Z.add_0_r. auto.
      * right. exists i, j, line, cell.
        split; [exact Hi |]. split; [exact Hj |]. split; [exact Hempty |].
        f_equal. lia.
Qed.

(** The available cell numbers are those of the cells holding the empty
    string. *)
Lemma findAvailableCellNumbers_In b x :
  In x (findAvailableCellNumbers b) <->
  exists r c, 0 <= r /\ 0 <= c /\ grid_at (_grid b) r c = Some EmptyString
              /\ x = cellNumberByPosition b r c.
Proof.
  unfold findAvailableCellNumbers. rewrite availableInRows_In. split.
  - intros [[] | (i & j & line & cell & Hi & Hj & Hempty & ->)].
    apply empty_true in Hempty. subst cell.
    exists (Z.of_nat i), (Z.of_nat j).
    split; [lia |]. split; [lia |]. split; [| reflexivity].
    apply grid_at_lookup. split; [lia |]. split; [lia |].
    exists line. rewrite !Nat2Z.id. auto.
  - intros (r & c & Hr & Hc & Hcell & ->). right.
    apply grid_at_lookup in Hcell. destruct Hcell as (_ & _ & line & Hline & Hcell).
    exists (Z.to_nat r), (Z.to_nat c), line, EmptyString.
    rewrite !Z2Nat.id by lia. auto.
Qed.

(** C10: [markCellByNumber] does not look at the marker.  On a well-formed
    board with a turn-holder, marking an empty cell c of the grid with the
    empty string returns true; c is still among the available cell numbers
    afterwards, and marking c again, with any marker, returns true again. *)
Theorem empty_marker_keeps_cell_available (b : Board) (c : Z) :
  wf_board b ->
  _playerTurn b <> None ->
  inBounds b (rowByCellNumber b c) (columnByCellNumber b c) ->
  grid_at (_grid b) (rowByCellNumber b c) (columnByCellNumber b c)
  = Some EmptyString ->
  exists b',
    markCellByNumber c EmptyString b = Some (true, b')
    /\ In c (findAvailableCellNumbers b')
    /\ forall marker, exists b'', markCellByNumber c marker b' = Some (true, b'').
Proof.
  intros Hwf Hturn Hin Hcell.
  destruct (_playerTurn b) as [turn |] eqn:Ht; [clear Hturn | congruence].
  pose proof Hwf as [Hwfg Hwt].
  pose proof (Hwt turn Ht) as Hlt.
  destruct (lookup_lt_is_Some_2 (_players b) turn Hlt) as [p Hp].
  destruct (markCellByNumber_places b c EmptyString turn p Hwfg Hin Hcell Ht Hp)
    as (b' & cc & Hmark & _ & Hgrid & Hplayers & _ & Hsize & Hturn').
  pose proof (markCellByNumber_wf _ _ _ _ _ Hwf Hmark) as [Hwfg' Hwt'].
  assert (Hrow : rowByCellNumber b' c = rowByCellNumber b c)
    by (unfold rowByCellNumber; rewrite Hsize; reflexivity).
  assert (Hcol : columnByCellNumber b' c = columnByCellNumber b c)
    by (unfold columnByCellNumber; rewrite Hsize; reflexivity).
  assert (Hcell' : grid_at (_grid b') (rowByCellNumber b c) (columnByCellNumber b c)
                   = Some EmptyString).
  { destruct Hin as [Hy Hx].
    destruct (wf_grid_row b _ Hwfg Hy) as (line & Hline & Hlen).
    rewrite Hgrid. eapply grid_at_set_same; eauto; lia. }
  exists b'. split; [exact Hmark |]. split.
  - apply findAvailableCellNumbers_In.
    exists (rowByCellNumber b c), (columnByCellNumber b c).
    destruct Hin as [Hy Hx]. split; [lia |]. split; [lia |].
    split; [exact Hcell' |].
    rewrite <- Hrow, <- Hcol. symmetry. apply decode_encode.
  - intros marker.
    assert (Hlt' : (turn < length (_players b'))%nat)
      by (rewrite Hplayers, length_insert; exact Hlt).
    destruct (lookup_lt_is_Some_2 (_players b') turn Hlt') as [p' Hp'].
    destruct (markCellByNumber_places b' c marker turn p' Hwfg') as (b'' & _ & Hmark' & _).
    + rewrite Hrow, Hcol. unfold inBounds. rewrite Hsize. exact Hin.
    + rewrite Hrow, Hcol. exact Hcell'.
    + rewrite Hturn'. exact Ht.
    + exact Hp'.
    + exists b''. exact Hmark'.
Qed.

Lemma empty_marker_keeps_cell_available_witness :
  exists b',
    markCellByNumber 4 EmptyString (blockBoard Frenzy Human false) = Some (true, b')
    /\ In 4 (findAvailableCellNumbers b').
Proof.
  destruct (empty_marker_keeps_cell_available (blockBoard Frenzy Human false) 4
              (blockBoard_wf Frenzy Human false))
    as (b' & Hmark & Havailable & _).
  - discriminate.
  - change (rowByCellNumber (blockBoard Frenzy Human false) 4) with 1.
    change (columnByCellNumber (blockBoard Frenzy Human false) 4) with 1.
    unfold inBounds. simpl. lia.
  - reflexivity.
  - exists b'. split; [exact Hmark | exact Havailable].
Defined.

(** ** Sorting *)

(** [a] is not ranked after [b]. *)
Local Abbreviation notAfter := (fun a b : ConnectedCell => rankBefore b a = false).

Lemma rankBefore_asym a b : rankBefore a b = true -> rankBefore b a = false.
Proof.
  unfold rankBefore. intros H.
  apply orb_true_iff in H. apply orb_false_iff.
  rewrite andb_true_iff in H. rewrite andb_false_iff.
  rewrite !Z.gtb_ltb, !Z.ltb_lt, Z.eqb_eq in H.
  rewrite !Z.gtb_ltb, !Z.ltb_ge, Z.eqb_neq. lia.
Qed.

Lemma notAfter_trans a b c : notAfter a b -> notAfter b c -> notAfter a c.
Proof.
  unfold rankBefore. intros Hab Hbc.
  apply orb_false_iff in Hab, Hbc. apply orb_false_iff.
  rewrite andb_false_iff in Hab, Hbc. rewrite andb_false_iff.
  rewrite !Z.gtb_ltb, !Z.ltb_ge, Z.eqb_neq in Hab, Hbc.
  rewrite !Z.gtb_ltb, !Z.ltb_ge, Z.eqb_neq. lia.
Qed.

Lemma insert_sorted_Permutation {A : Type} (comp : A -> A -> bool) x l :
  Permutation (x :: l) (insert_sorted comp x l).
Proof.
  induction l as [| y l IH]; simpl; [reflexivity |].
  destruct (comp x y); [reflexivity |].
  rewrite <- IH. apply perm_swap.
Qed.

Lemma insertion_sort_Permutation {A : Type} (comp : A -> A -> bool) l :
  Permutation l (insertion_sort comp l).
Proof.
  induction l as [| x l IH]; simpl; [reflexivity |].
  rewrite <- insert_sorted_Permutation. constructor. exact IH.
Qed.

Lemma insert_sorted_StronglySorted x l :
  StronglySorted notAfter l -> StronglySorted notAfter (insert_sorted rankBefore x l).
Proof.
  induction 1 as [| y l Hsorted IH Hall]; simpl.
  - repeat constructor.
  - destruct (rankBefore x y) eqn:Hxy.
    + constructor; [constructor; assumption |].
      apply rankBefore_asym in Hxy. constructor; [exact Hxy |].
      eapply List.Forall_impl; [| exact Hall].
      intros z Hz. exact (notAfter_trans x y z Hxy Hz).
    + constructor; [exact IH |].
      eapply Permutation_Forall; [apply insert_sorted_Permutation |].
      constructor; assumption.
Qed.

Lemma insertion_sort_StronglySorted l :
  StronglySorted notAfter (insertion_sort rankBefore l).
Proof.
  induction l as [| x l IH]; simpl; [constructor |].
  apply insert_sorted_StronglySorted. exact IH.
Qed.

Lemma StronglySorted_lookup (l : list ConnectedCell) :
  StronglySorted notAfter l ->
  forall (i j : nat) x y,
    (i < j)%nat -> l !! i = Some x -> l !! j = Some y -> notAfter x y.
Proof.
  induction 1 as [| z l Hsorted IH Hall]; intros i j x y Hlt Hi Hj; [discriminate |].
  destruct j as [| j]; [lia |]. simpl in Hj.
  destruct i as [| i]; simpl in Hi.
  - injection Hi as ->. rewrite List.Forall_forall in Hall. apply Hall.
    apply list_elem_of_In. eapply list_elem_of_lookup_2. exact Hj.
  - apply (IH i j); [lia | assumption | assumption].
Qed.

Lemma insertion_sort_SortSpec : SortSpec (@insertion_sort ConnectedCell).
Proof.
  intros l. split; [apply insertion_sort_Permutation |].
  intros i j x y Hlt Hi Hj.
  exact (StronglySorted_lookup _ (insertion_sort_StronglySorted l) i j x y Hlt Hi Hj).
Qed.

Section SortFacts.

Variable std_sort :
  (ConnectedCell -> ConnectedCell -> bool) -> list ConnectedCell -> list ConnectedCell.
Hypothesis std_sort_spec : SortSpec std_sort.

(** An element ranked before every other one comes out first. *)
Lemma sort_head_best (l : list ConnectedCell) (x : ConnectedCell) :
  In x l ->
  (forall y, In y l -> y <> x -> rankBefore x y = true) ->
  exists rest, std_sort rankBefore l = x :: rest.
Proof.
  intros Hx Hbest. destruct (std_sort_spec l) as [Hperm Hsorted].
  assert (Hx' : In x (std_sort rankBefore l))
    by (eapply Permutation_in; eassumption).
  destruct (std_sort rankBefore l) as [| h rest] eqn:Hsort; [contradiction |].
  exists rest. f_equal.
  destruct Hx' as [Hh | Hrest]; [exact Hh |].
  apply list_elem_of_In, list_elem_of_lookup in Hrest. destruct Hrest as [j Hj].
  assert (Hh : In h l)
    by (eapply Permutation_in; [symmetry; exact Hperm | left; reflexivity]).
  assert (Hdec : {h = x} + {h <> x}) by (repeat decide equality).
  destruct Hdec as [Heq | Hne]; [exact Heq |].
  pose proof (Hbest h Hh Hne) as Hbefore.
  pose proof (Hsorted 0%nat (S j) h x ltac:(lia) eq_refl Hj). congruence.
Qed.

(** What holds of every element holds of the first element of the result. *)
Lemma sort_head_Forall (P : ConnectedCell -> Prop) (l : list ConnectedCell) :
  l <> [] -> List.Forall P l ->
  exists h rest, std_sort rankBefore l = h :: rest /\ P h.
Proof.
  intros Hne Hall. destruct (std_sort_spec l) as [Hperm _].
  destruct (std_sort rankBefore l) as [| h rest] eqn:Hsort.
  - apply Permutation_sym, Permutation_nil in Hperm. contradiction.
  - exists h, rest. split; [reflexivity |].
    rewrite List.Forall_forall in Hall. apply Hall.
    eapply Permutation_in; [symmetry; exact Hperm | left; reflexivity].
Qed.

End SortFacts.

(** ** The bot's choice *)

Section BotChoice.

Variable std_sort :
  (ConnectedCell -> ConnectedCell -> bool) -> list ConnectedCell -> list ConnectedCell.
Hypothesis std_sort_spec : SortSpec std_sort.

Lemma blockSearch_stop b this availableCells totalPlayers n rest i st :
  (i =? _number this - 1) = true ->
  blockSearch std_sort b this availableCells totalPlayers (n :: rest) i st = Some st.
Proof. intros Hi. simpl. rewrite Hi. reflexivity. Qed.

(** The first opponent met becomes the player to block. *)
Lemma blockSearch_first b this availableCells totalPlayers n rest i player cells :
  (i =? _number this - 1) = false ->
  vec_at (_players b) i = Some player ->
  _rankAvailableCells std_sort b player availableCells = Some cells ->
  blockSearch std_sort b this availableCells totalPlayers (n :: rest) i ([], None)
  = blockSearch std_sort b this availableCells totalPlayers rest
      (Z.rem (n + 1) totalPlayers) (cells, Some (Z.to_nat i)).
Proof.
  intros Hi Hplayer Hcells. simpl. rewrite Hi, Hplayer. simpl.
  rewrite Hcells. reflexivity.
Qed.

(** On the board with X at cells 0 and 1, the cell ranked first for X is
    cell 2, with two X to its left. *)
Lemma blockBoard_rank_X v k botFirst number :
  exists rest,
    _rankAvailableCells std_sort (blockBoard v k botFirst) (opponentX k number)
      [2; 3; 4; 5; 6; 7; 8]
    = Some ({| row := 0; column := 2; verticalChain := 0; horizontalChain := 2;
               diagonalLeftChain := 0; diagonalRightChain := 0;
               totalConnected := 3 |} :: rest).
Proof.
  unfold _rankAvailableCells.
  assert (Hcells : exists l,
             connectedCells (blockBoard v k botFirst) (_marker (opponentX k number))
               [2; 3; 4; 5; 6; 7; 8] = Some l
             /\ In {| row := 0; column := 2; verticalChain := 0;
                      horizontalChain := 2; diagonalLeftChain := 0;
                      diagonalRightChain := 0; totalConnected := 3 |} l
             /\ forall y, In y l ->
                  y <> {| row := 0; column := 2; verticalChain := 0;
                          horizontalChain := 2; diagonalLeftChain := 0;
                          diagonalRightChain := 0; totalConnected := 3 |} ->
                  rankBefore {| row := 0; column := 2; verticalChain := 0;
                                horizontalChain := 2; diagonalLeftChain := 0;
                                diagonalRightChain := 0; totalConnected := 3 |} y
                  = true).
  { eexists. split; [vm_compute; reflexivity |]. split; [left; reflexivity |].
    intros y Hy Hne. simpl in Hy.
    repeat (destruct Hy as [<- | Hy]; [first [congruence | reflexivity] |]).
    contradiction. }
  destruct Hcells as (l & -> & Hin & Hbest). simpl.
  destruct (sort_head_best std_sort std_sort_spec l _ Hin Hbest) as [rest ->].
  eauto.
Qed.

(** No cell connects anything for O. *)
Lemma blockBoard_rank_O v k botFirst :
  exists h rest,
    _rankAvailableCells std_sort (blockBoard v k botFirst) (blockBot botFirst)
      [2; 3; 4; 5; 6; 7; 8]
    = Some (h :: rest)
    /\ totalConnected h = 0.
Proof.
  unfold _rankAvailableCells.
  assert (Hcells : exists l,
             connectedCells (blockBoard v k botFirst) (_marker (blockBot botFirst))
               [2; 3; 4; 5; 6; 7; 8] = Some l
             /\ l <> [] /\ List.Forall (fun cc => totalConnected cc = 0) l).
  { eexists. split; [vm_compute; reflexivity |]. split; [discriminate |].
    repeat constructor. }
  destruct Hcells as (l & -> & Hne & Hall). simpl.
  destruct (sort_head_Forall std_sort std_sort_spec _ l Hne Hall) as (h & rest & -> & Hh).
  eauto.
Qed.

(** The search for the player to block ends with the cells of X. *)
Lemma blockBoard_search v k botFirst :
  exists rest playerToBlock,
    blockSearch std_sort (blockBoard v k botFirst) (blockBot botFirst)
      [2; 3; 4; 5; 6; 7; 8]
      (Z.of_nat (length (_players (blockBoard v k botFirst))))
      (map (fun n => Z.rem (_number (blockBot botFirst))
                       (Z.of_nat (length (_players (blockBoard v k botFirst))))
                     + Z.of_nat n)
         (seq 0 (length (_players (blockBoard v k botFirst)))))
      (Z.rem (_number (blockBot botFirst))
         (Z.of_nat (length (_players (blockBoard v k botFirst)))))
      ([], None)
    = Some ({| row := 0; column := 2; verticalChain := 0; horizontalChain := 2;
               diagonalLeftChain := 0; diagonalRightChain := 0;
               totalConnected := 3 |} :: rest, playerToBlock).
Proof.
  destruct botFirst.
  - destruct (blockBoard_rank_X v k true 2) as [rest HX].
    exists rest, (Some 1%nat).
    change (map _ (seq 0 _)) with [1; 2].
    change (Z.rem (_number (blockBot true)) _) with 1.
    rewrite (blockSearch_first (blockBoard v k true) (blockBot true) _ _ 1 [2] 1
               (opponentX k 2) _ eq_refl eq_refl HX).
    apply blockSearch_stop. reflexivity.
  - destruct (blockBoard_rank_X v k false 1) as [rest HX].
    exists rest, (Some 0%nat).
    change (map _ (seq 0 _)) with [0; 1].
    change (Z.rem (_number (blockBot false)) _) with 0.
    rewrite (blockSearch_first (blockBoard v k false) (blockBot false) _ _ 0 [1] 0
               (opponentX k 1) _ eq_refl eq_refl HX).
    apply blockSearch_stop. reflexivity.
Qed.

End BotChoice.

(** ** Reachable boards

    The boards the program builds and keeps are well-formed, and their
    scores are never negative. *)

Lemma ClassicBoard_wf (players : list Player) (b : Board) :
  (Z.of_nat (length players) + 1) * (Z.of_nat (length players) + 1) <= INT_MAX ->
  ClassicBoard players = Some b -> wf_board b.
Proof.
  intros Hfit Hnew. split.
  - eapply Board_new_wf_grid; [| exact Hfit | exact Hnew]. lia.
  - unfold ClassicBoard in Hnew. rewrite Board_new_returns in Hnew by lia.
    injection Hnew as <-. intros turn Hturn. discriminate.
Qed.

Lemma FrenzyBoard_wf (players : list Player) (gridSize : Z) (b : Board) :
  3 <= gridSize -> gridSize * gridSize <= INT_MAX ->
  FrenzyBoard players gridSize = Some b -> wf_board b.
Proof.
  intros Hsize Hfit Hnew. split.
  - eapply Board_new_wf_grid; [| exact Hfit | exact Hnew]. lia.
  - unfold FrenzyBoard in Hnew. rewrite Board_new_returns in Hnew by lia.
    injection Hnew as <-. intros turn Hturn. discriminate.
Qed.



Lemma axisTotal_nonneg chain : 0 <= axisTotal chain.
Proof. unfold axisTotal. destruct (Z.geb_spec chain 2); lia. Qed.

Lemma findConnectedCell_total_nonneg b r c m maxChain cc :
  findConnectedCell b r c m maxChain = Some cc -> 0 <= totalConnected cc.
Proof.
  unfold findConnectedCell. intros Hcc.
  repeat match type of Hcc with
         | (?o ≫= _) = Some _ =>
             destruct o as [? |]; [simpl in Hcc | discriminate]
         end.
  injection Hcc as <-. simpl.
  repeat match goal with
         | |- context [axisTotal ?x] =>
             pose proof (axisTotal_nonneg x); generalize dependent (axisTotal x); intros
         end.
  lia.
Qed.

Lemma markCellByNumber_scores_nonneg b cellNumber marker result b' :
  List.Forall (fun p => 0 <= _score p) (_players b) ->
  markCellByNumber cellNumber marker b = Some (result, b') ->
  List.Forall (fun p => 0 <= _score p) (_players b').
Proof.
  intros Hscores Hmark. unfold markCellByNumber in Hmark.
  destruct (_ || _); [injection Hmark as <- <-; exact Hscores |].
  destruct (grid_at _ _ _) as [cell |]; [| discriminate]. simpl in Hmark.
  destruct (negb (empty cell)); [injection Hmark as <- <-; exact Hscores |].
  destruct (_playerTurn b) as [turn |]; [| injection Hmark as <- <-; exact Hscores].
  destruct (findConnectedCell _ _ _ marker INT_MAX) as [cc |] eqn:Hcc;
    [| discriminate].
  simpl in Hmark.
  destruct (_players b !! turn) as [p |] eqn:Hp; [| discriminate]. simpl in Hmark.
  injection Hmark as <- <-. simpl.
  apply findConnectedCell_total_nonneg in Hcc.
  apply Forall_insert; [exact Hscores |]. simpl.
  rewrite List.Forall_forall in Hscores.
  assert (0 <= _score p)
    by (apply Hscores, list_elem_of_In; eapply list_elem_of_lookup_2; exact Hp).
  lia.
Qed.

(** * Further properties *)

(** ** The set of available cells *)

Lemma set_insert_sorted (x : Z) (s : list Z) :
  StronglySorted Z.lt s -> StronglySorted Z.lt (set_insert x s).
Proof.
  induction 1 as [| y s Hsorted IH Hall]; simpl.
  - repeat constructor.
  - destruct (Z.ltb_spec x y).
    + constructor; [constructor; assumption |].
      constructor; [assumption |].
      eapply List.Forall_impl; [| exact Hall]. simpl. intros; lia.
    + destruct (Z.eqb_spec x y); [constructor; assumption |].
      constructor; [exact IH |].
      apply List.Forall_forall. intros z Hz. apply set_insert_In in Hz.
      destruct Hz as [-> | Hz]; [lia |].
      rewrite List.Forall_forall in Hall. apply Hall. exact Hz.
Qed.

Lemma availableInRow_sorted b r (line : list string) :
  forall c cells,
    StronglySorted Z.lt cells ->
    StronglySorted Z.lt (availableInRow b r c line cells).
Proof.
  induction line as [| cell rest IH]; intros c cells Hsorted; simpl; [exact Hsorted |].
  apply IH. destruct (empty cell); [apply set_insert_sorted |]; exact Hsorted.
Qed.

Lemma availableInRows_sorted b (rows : list (list string)) :
  forall r cells,
    StronglySorted Z.lt cells ->
    StronglySorted Z.lt (availableInRows b r rows cells).
Proof.
  induction rows as [| line rest IH]; intros r cells Hsorted; simpl; [exact Hsorted |].
  apply IH, availableInRow_sorted. exact Hsorted.
Qed.

Lemma findAvailableCellNumbers_sorted b :
  StronglySorted Z.lt (findAvailableCellNumbers b).
Proof. apply availableInRows_sorted. constructor. Qed.

Lemma grid_at_Some_inBounds b r c cell :
  wf_grid b -> grid_at (_grid b) r c = Some cell -> inBounds b r c.
Proof.
  intros (Hsize & Hrows & Hcols) Hcell.
  apply grid_at_lookup in Hcell. destruct Hcell as (Hr & Hc & line & Hline & Hcell).
  pose proof (lookup_lt_Some _ _ _ Hline) as Hlt.
  pose proof (lookup_lt_Some _ _ _ Hcell) as Hlt'.
  rewrite Forall_lookup in Hcols. rewrite (Hcols _ _ Hline) in Hlt'.
  unfold inBounds. lia.
Qed.

(** On a well-formed grid the available cell numbers are the numbers of
    [0, N * N) whose cell is empty. *)
Lemma available_members b x :
  wf_grid b ->
  In x (findAvailableCellNumbers b) <->
  0 <= x < _gridSize b * _gridSize b
  /\ grid_at (_grid b) (rowByCellNumber b x) (columnByCellNumber b x)
     = Some EmptyString.
Proof.
  intros Hwf. pose proof Hwf as (Hsize & _).
  rewrite findAvailableCellNumbers_In. split.
  - intros (r & c & Hr & Hc & Hcell & ->).
    pose proof (grid_at_Some_inBounds b r c _ Hwf Hcell) as Hin.
    destruct (encode_decode b ltac:(lia) r c Hin) as [-> ->].
    split; [apply encode_range; [lia | exact Hin] | exact Hcell].
  - intros [Hx Hcell].
    pose proof (decode_inBounds b ltac:(lia) x Hx) as [Hr Hc].
    exists (rowByCellNumber b x), (columnByCellNumber b x).
    split; [lia |]. split; [lia |]. split; [exact Hcell |].
    symmetry. apply decode_encode.
Qed.

(** X1: [findAvailableCellNumbers] yields strictly ascending cell numbers,
    so none twice, on any grid; on a well-formed grid, whose size N has a
    square within [int], they are exactly the numbers of [0, N * N) whose
    cell holds the empty string. *)
Theorem available_cells_ascending_exact (b : Board) :
  StronglySorted Z.lt (findAvailableCellNumbers b)
  /\ List.NoDup (findAvailableCellNumbers b)
  /\ (wf_grid b ->
      forall x,
        In x (findAvailableCellNumbers b) <->
        0 <= x < _gridSize b * _gridSize b
        /\ grid_at (_grid b) (rowByCellNumber b x) (columnByCellNumber b x)
           = Some EmptyString).
Proof.
  split; [apply findAvailableCellNumbers_sorted |]. split.
  - pose proof (findAvailableCellNumbers_sorted b) as Hsorted.
    induction Hsorted as [| y s Hsorted IH Hall]; constructor; [| exact IH].
    intros Hin. rewrite List.Forall_forall in Hall. specialize (Hall _ Hin). lia.
  - intros Hwf x. apply available_members. exact Hwf.
Qed.

Lemma available_cells_ascending_exact_witness :
  In 5 (findAvailableCellNumbers (blockBoard Classic Human true))
  /\ ~ In 1 (findAvailableCellNumbers (blockBoard Classic Human true)).
Proof.
  destruct (available_cells_ascending_exact (blockBoard Classic Human true))
    as (_ & _ & Hexact).
  specialize (Hexact (blockBoard_wf_grid Classic Human true)).
  split.
  - apply Hexact. split; [simpl; lia | reflexivity].
  - intros Hin. apply Hexact in Hin. destruct Hin as [_ Hcell]. discriminate.
Defined.

(** ** Completion *)

Lemma available_nil_gridFull b :
  findAvailableCellNumbers b = [] <-> gridFull b.
Proof.
  split.
  - intros Hnil r c cell Hcell ->.
    assert (Hin : In (cellNumberByPosition b r c) (findAvailableCellNumbers b)).
    { apply findAvailableCellNumbers_In. exists r, c.
      apply grid_at_lookup in Hcell as Hpos. destruct Hpos as (Hr & Hc & _). auto. }
    rewrite Hnil in Hin. contradiction.
  - intros Hfull.
    destruct (findAvailableCellNumbers b) as [| x rest] eqn:Havailable; [reflexivity |].
    assert (Hin : In x (findAvailableCellNumbers b))
      by (rewrite Havailable; left; reflexivity).
    apply findAvailableCellNumbers_In in Hin.
    destruct Hin as (r & c & _ & _ & Hcell & _).
    exfalso. exact (Hfull r c _ Hcell eq_refl).
Qed.

(** X2: a FrenzyBoard is completed exactly when no cell of the grid is
    empty, whatever the scores; a ClassicBoard is completed exactly when no
    cell is empty or some player has a positive score. *)
Theorem isCompleted_exact (b : Board) :
  (variant b = Frenzy -> (isCompleted b = true <-> gridFull b))
  /\ (variant b = Classic ->
      (isCompleted b = true <->
       gridFull b \/ exists p, In p (_players b) /\ 0 < _score p)).
Proof.
  unfold isCompleted. split; intros ->.
  - rewrite <- available_nil_gridFull.
    destruct (findAvailableCellNumbers b); split; intros; congruence.
  - rewrite <- available_nil_gridFull.
    destruct (findAvailableCellNumbers b) as [| x rest].
    + split; auto.
    + rewrite existsb_exists. split.
      * intros (p & Hp & Hscore). right. exists p. split; [exact Hp |].
        apply Z.gtb_lt in Hscore. lia.
      * intros [Hnil | (p & Hp & Hscore)]; [discriminate |].
        exists p. split; [exact Hp |]. apply Z.gtb_lt. lia.
Qed.

Lemma isCompleted_exact_witness :
  isCompleted (blockBoard Frenzy Human true) = false.
Proof.
  destruct (isCompleted_exact (blockBoard Frenzy Human true)) as [Hfrenzy _].
  specialize (Hfrenzy eq_refl).
  destruct (isCompleted (blockBoard Frenzy Human true)); [| reflexivity].
  exfalso. destruct Hfrenzy as [Hfull _].
  exact (Hfull eq_refl 1 1 EmptyString eq_refl eq_refl).
Defined.

(** ** Reset *)

Lemma grid_at_replicate (n : nat) (r c : Z) :
  0 <= r < Z.of_nat n -> 0 <= c < Z.of_nat n ->
  grid_at (replicate n (replicate n EmptyString)) r c = Some EmptyString.
Proof.
  intros Hr Hc. apply grid_at_lookup. split; [lia |]. split; [lia |].
  exists (replicate n EmptyString).
  split; apply lookup_replicate_2; lia.
Qed.

Lemma lookup_map_Some {A B : Type} (f : A -> B) (l : list A) :
  forall (j : nat) x, l !! j = Some x -> map f l !! j = Some (f x).
Proof.
  induction l as [| a l IH]; intros [| j] x Hx; simpl in *; try discriminate.
  - injection Hx as ->. reflexivity.
  - apply IH. exact Hx.
Qed.

(** X3: [reset], on a board of positive grid size N whose square is an
    [int], leaves a well-formed board with no turn-holder on which every cell
    number of [0, N * N) is available and no other, every player keeps kind, number and marker and has score and
    lastScore 0, and which is not completed; resetting twice is resetting
    once. *)
Theorem reset_clears (b : Board) :
  0 < _gridSize b ->
  _gridSize b * _gridSize b <= INT_MAX ->
  wf_grid (reset b)
  /\ _playerTurn (reset b) = None
  /\ _gridSize (reset b) = _gridSize b
  /\ variant (reset b) = variant b
  /\ (forall x, In x (findAvailableCellNumbers (reset b)) <->
                0 <= x < _gridSize b * _gridSize b)
  /\ length (_players (reset b)) = length (_players b)
  /\ (forall (j : nat) p,
        _players b !! j = Some p ->
        exists p', _players (reset b) !! j = Some p'
                   /\ samePlayer p p' /\ _score p' = 0 /\ _lastScore p' = 0)
  /\ isCompleted (reset b) = false
  /\ reset (reset b) = reset b.
Proof.
  intros Hsize Hfit.
  assert (Hwf : wf_grid (reset b))
    by (apply empty_grid_wf; [exact Hsize | exact Hfit | reflexivity]).
  assert (Hmembers : forall x, In x (findAvailableCellNumbers (reset b)) <->
                               0 <= x < _gridSize b * _gridSize b).
  { intros x. rewrite (available_members (reset b) x Hwf).
    change (_gridSize (reset b)) with (_gridSize b). split; [tauto |].
    intros Hx. split; [exact Hx |].
    destruct (decode_inBounds (reset b) ltac:(simpl; lia) x Hx) as [Hr Hc].
    simpl in Hr, Hc. apply grid_at_replicate; lia. }
  split; [exact Hwf |].
  split; [reflexivity |]. split; [reflexivity |]. split; [reflexivity |].
  split; [exact Hmembers |].
  split; [simpl; apply length_map |].
  split.
  { intros j p Hp. exists (Player_reset p). split.
    - simpl. apply lookup_map_Some. exact Hp.
    - repeat split. }
  split.
  { unfold isCompleted.
    assert (Hzero : In 0 (findAvailableCellNumbers (reset b)))
      by (apply Hmembers; nia).
    destruct (findAvailableCellNumbers (reset b)) as [| x rest]; [contradiction |].
    destruct (variant (reset b)); [| reflexivity].
    simpl. induction (_players b) as [| p ps IH]; [reflexivity | exact IH]. }
  unfold reset. simpl. f_equal.
  rewrite map_map. apply map_ext. intros p. reflexivity.
Qed.

Lemma reset_clears_witness :
  findAvailableCellNumbers (reset (blockBoard Classic Human true))
  = [0; 1; 2; 3; 4; 5; 6; 7; 8]
  /\ isCompleted (reset (blockBoard Classic Human true)) = false.
Proof.
  destruct (reset_clears (blockBoard Classic Human true))
    as (_ & _ & _ & _ & _ & _ & _ & Hopen & _).
  - simpl. lia.
  - simpl. unfold INT_MAX. lia.
  - split; [reflexivity | exact Hopen].
Defined.

(** ** Marking takes the cell off the available ones *)

Lemma StronglySorted_lt_ext (l1 : list Z) :
  forall l2,
    StronglySorted Z.lt l1 -> StronglySorted Z.lt l2 ->
    (forall x, In x l1 <-> In x l2) ->
    l1 = l2.
Proof.
  induction l1 as [| a t IH]; intros l2 H1 H2 Hsame.
  - destruct l2 as [| b t']; [reflexivity |].
    exfalso. apply (Hsame b). left. reflexivity.
  - destruct l2 as [| b t']; [exfalso; apply (Hsame a); left; reflexivity |].
    apply StronglySorted_inv in H1. destruct H1 as [Ht Ha].
    apply StronglySorted_inv in H2. destruct H2 as [Ht' Hb].
    rewrite List.Forall_forall in Ha, Hb.
    assert (Hab : a = b).
    { assert (Hin1 : In a (b :: t')) by (apply Hsame; left; reflexivity).
      assert (Hin2 : In b (a :: t)) by (apply Hsame; left; reflexivity).
      destruct Hin1 as [-> | Hin1]; [reflexivity |].
      destruct Hin2 as [<- | Hin2]; [reflexivity |].
      specialize (Ha _ Hin2). specialize (Hb _ Hin1). lia. }
    subst b. f_equal. apply IH; [exact Ht | exact Ht' |].
    intros x. split; intros Hx.
    + assert (Hin : In x (a :: t')) by (apply Hsame; right; exact Hx).
      destruct Hin as [<- | Hin]; [| exact Hin].
      specialize (Ha _ Hx). lia.
    + assert (Hin : In x (a :: t)) by (apply Hsame; right; exact Hx).
      destruct Hin as [<- | Hin]; [| exact Hin].
      specialize (Hb _ Hx). lia.
Qed.

Lemma filter_StronglySorted (f : Z -> bool) (l : list Z) :
  StronglySorted Z.lt l -> StronglySorted Z.lt (List.filter f l).
Proof.
  induction 1 as [| a t Ht IH Ha]; simpl; [constructor |].
  destruct (f a); [| exact IH].
  constructor; [exact IH |].
  rewrite List.Forall_forall in *. intros x Hx.
  apply filter_In in Hx. apply Ha. tauto.
Qed.

Lemma filter_out_length (c : Z) (l : list Z) :
  StronglySorted Z.lt l -> In c l ->
  S (length (List.filter (fun x => negb (x =? c)) l)) = length l.
Proof.
  induction 1 as [| a t Ht IH Ha]; intros Hin; [contradiction |].
  simpl. destruct (Z.eqb_spec a c) as [-> | Hne]; simpl.
  - f_equal. f_equal. clear IH Hin.
    rewrite List.Forall_forall in Ha.
    induction t as [| x t IHt]; [reflexivity |]. simpl.
    assert (c < x) by (apply Ha; left; reflexivity).
    destruct (Z.eqb_spec x c); [lia |]. simpl. f_equal.
    apply IHt; [apply StronglySorted_inv in Ht; tauto |].
    intros y Hy. apply Ha. right. exact Hy.
  - f_equal. apply IH. destruct Hin as [-> | Hin]; [contradiction | exact Hin].
Qed.

(** What a placement with a non-empty marker does to the available cells. *)
Lemma markCellByNumber_available (b : Board) (cellNumber : Z) (marker : string) :
  wf_board b ->
  _playerTurn b <> None ->
  marker <> EmptyString ->
  In cellNumber (findAvailableCellNumbers b) ->
  exists b',
    markCellByNumber cellNumber marker b = Some (true, b')
    /\ findAvailableCellNumbers b'
       = List.filter (fun x => negb (x =? cellNumber)) (findAvailableCellNumbers b)
    /\ S (length (findAvailableCellNumbers b')) = length (findAvailableCellNumbers b)
    /\ ~ In cellNumber (findAvailableCellNumbers b').
Proof.
  intros Hwf Hturn Hmarker Hin.
  pose proof Hwf as [Hwfg Hwt]. pose proof Hwfg as (Hsize & _).
  apply (available_members b cellNumber Hwfg) in Hin as Hcell.
  destruct Hcell as [Hrange Hcell].
  pose proof (decode_inBounds b ltac:(lia) cellNumber Hrange) as Hpos.
  destruct (_playerTurn b) as [turn |] eqn:Ht; [clear Hturn | congruence].
  destruct (lookup_lt_is_Some_2 (_players b) turn (Hwt turn Ht)) as [p Hp].
  destruct (markCellByNumber_places b cellNumber marker turn p Hwfg Hpos Hcell Ht Hp)
    as (b' & cc & Hmark & _ & Hgrid & _ & _ & Hsize' & _).
  pose proof (markCellByNumber_wf _ _ _ _ _ Hwf Hmark) as [Hwfg' _].
  assert (Hfilter : findAvailableCellNumbers b'
                    = List.filter (fun x => negb (x =? cellNumber))
                        (findAvailableCellNumbers b)).
  { apply StronglySorted_lt_ext.
    - apply findAvailableCellNumbers_sorted.
    - apply filter_StronglySorted, findAvailableCellNumbers_sorted.
    - intros x. rewrite filter_In, negb_true_iff, Z.eqb_neq.
      rewrite (available_members b' x Hwfg'), (available_members b x Hwfg).
      unfold rowByCellNumber, columnByCellNumber. rewrite Hsize', Hgrid.
      fold (rowByCellNumber b x) (columnByCellNumber b x).
      fold (rowByCellNumber b cellNumber) (columnByCellNumber b cellNumber).
      destruct Hpos as [Hy Hx].
      destruct (Z.eq_dec x cellNumber) as [-> | Hne].
      + destruct (wf_grid_row b _ Hwfg Hy) as (line & Hline & Hlen).
        rewrite (grid_at_set_same _ _ _ marker line); [| lia | lia | exact Hline | lia].
        split; [intros [_ Heq]; congruence | tauto].
      + rewrite grid_at_set_other; [tauto | lia | lia |].
        intros Heq. injection Heq as Hr Hc. apply Hne.
        rewrite <- (decode_encode b x), <- (decode_encode b cellNumber).
        rewrite Hr, Hc. reflexivity. }
  exists b'. split; [exact Hmark |]. split; [exact Hfilter |]. split.
  - rewrite Hfilter. apply filter_out_length;
      [apply findAvailableCellNumbers_sorted | exact Hin].
  - rewrite Hfilter, filter_In, negb_true_iff, Z.eqb_neq. tauto.
Qed.

(** X4: on a well-formed board with a turn-holder, marking an available
    cell with a non-empty marker returns true and takes exactly that cell off
    the available cell numbers: the others stay, in their order, and their
    count goes down by one. *)
Theorem mark_takes_cell_off (b : Board) (cellNumber : Z) (marker : string) :
  wf_board b ->
  _playerTurn b <> None ->
  marker <> EmptyString ->
  In cellNumber (findAvailableCellNumbers b) ->
  exists b',
    markCellByNumber cellNumber marker b = Some (true, b')
    /\ findAvailableCellNumbers b'
       = List.filter (fun x => negb (x =? cellNumber)) (findAvailableCellNumbers b)
    /\ S (length (findAvailableCellNumbers b')) = length (findAvailableCellNumbers b)
    /\ ~ In cellNumber (findAvailableCellNumbers b').
Proof. apply markCellByNumber_available. Qed.

Lemma mark_takes_cell_off_witness :
  exists b',
    markCellByNumber 2 "O" (blockBoard Classic Human false) = Some (true, b')
    /\ findAvailableCellNumbers b' = [3; 4; 5; 6; 7; 8].
Proof.
  destruct (mark_takes_cell_off (blockBoard Classic Human false) 2 "O"
              (blockBoard_wf Classic Human false))
    as (b' & Hmark & Havailable & _).
  - discriminate.
  - discriminate.
  - simpl. auto.
  - exists b'. split; [exact Hmark |]. rewrite Havailable. reflexivity.
Defined.

(** ** Players and scores under the moves *)



(** What [markCellByNumber] does to the player vector, when it returns. *)
Lemma markCellByNumber_players b cellNumber marker result b' :
  markCellByNumber cellNumber marker b = Some (result, b') ->
  (result = false /\ _players b' = _players b)
  \/ exists turn p cc,
       result = true
       /\ _playerTurn b = Some turn
       /\ _players b !! turn = Some p
       /\ 0 <= totalConnected cc
       /\ _players b' = <[turn := setScore (_score p + totalConnected cc) p]> (_players b).
Proof.
  intros Hmark. unfold markCellByNumber in Hmark.
  destruct (_ || _); [injection Hmark as <- <-; auto |].
  destruct (grid_at _ _ _) as [cell |]; [| discriminate]. simpl in Hmark.
  destruct (negb (empty cell)); [injection Hmark as <- <-; auto |].
  destruct (_playerTurn b) as [turn |] eqn:Ht; [| injection Hmark as <- <-; auto].
  destruct (findConnectedCell _ _ _ marker INT_MAX) as [cc |] eqn:Hcc;
    [| discriminate].
  simpl in Hmark.
  destruct (_players b !! turn) as [p |] eqn:Hp; [| discriminate]. simpl in Hmark.
  injection Hmark as <- <-. simpl. right.
  exists turn, p, cc. split; [reflexivity |]. split; [reflexivity |].
  split; [exact Hp |]. split; [| reflexivity].
  eapply findConnectedCell_total_nonneg. exact Hcc.
Qed.



Lemma markCellByNumber_keeps b cellNumber marker result b' :
  markCellByNumber cellNumber marker b = Some (result, b') ->
  variant b' = variant b /\ _gridSize b' = _gridSize b
  /\ _playerTurn b' = _playerTurn b.
Proof.
  intros Hmark. unfold markCellByNumber in Hmark.
  destruct (_ || _); [injection Hmark as <- <-; auto |].
  destruct (grid_at _ _ _) as [cell |]; [| discriminate]. simpl in Hmark.
  destruct (negb (empty cell)); [injection Hmark as <- <-; auto |].
  destruct (_playerTurn b) as [turn |] eqn:Ht; [| injection Hmark as <- <-; auto].
  destruct (findConnectedCell _ _ _ marker INT_MAX) as [cc |]; [| discriminate].
  simpl in Hmark.
  destruct (_players b !! turn) as [p |]; [| discriminate]. simpl in Hmark.
  injection Hmark as <- <-. simpl. auto.
Qed.

(** The scores as every method leaves them: not negative, the last score
    not above the score. *)
Local Abbreviation scoresSound :=
  (List.Forall (fun p : Player => 0 <= _lastScore p <= _score p)).




(** X7: on a ClassicBoard whose scores are not negative, a call of
    [markCellByNumber] that returns true and earns the turn-holder points
    (the score it leaves is above the last score, what [main] reports as
    gained) leaves the game completed. *)
Theorem classic_completed_by_scoring (b : Board) (cellNumber : Z) (marker : string)
    (b' : Board) (turn : nat) (p' : Player) :
  variant b = Classic ->
  List.Forall (fun p : Player => 0 <= _score p) (_players b) ->
  markCellByNumber cellNumber marker b = Some (true, b') ->
  _playerTurn b = Some turn ->
  _players b' !! turn = Some p' ->
  _lastScore p' < _score p' ->
  isCompleted b' = true.
Proof.
  intros Hvariant Hscores Hmark Hturn Hp' Hgain.
  destruct (markCellByNumber_keeps _ _ _ _ _ Hmark) as (Hv & _ & _).
  unfold isCompleted. rewrite Hv, Hvariant.
  destruct (findAvailableCellNumbers b'); [reflexivity |].
  apply existsb_exists. exists p'.
  split; [apply list_elem_of_In; eapply list_elem_of_lookup_2; exact Hp' |].
  apply Z.gtb_lt.
  destruct (markCellByNumber_players _ _ _ _ _ Hmark)
    as [[Hfalse _] | (turn' & q & cc & _ & Hturn' & Hq & Hcc & Hplayers)];
    [discriminate |].
  assert (turn' = turn) as -> by congruence.
  rewrite Hplayers in Hp'.
  rewrite list_lookup_insert_eq in Hp' by (eapply lookup_lt_Some; exact Hq).
  injection Hp' as <-. simpl in *.
  rewrite List.Forall_forall in Hscores.
  assert (0 <= _score q)
    by (apply Hscores, list_elem_of_In; eapply list_elem_of_lookup_2; exact Hq).
  lia.
Qed.

Lemma classic_completed_by_scoring_witness :
  exists b',
    markCellByNumber 2 "X" (blockBoard Classic Human true) = Some (true, b')
    /\ isCompleted b' = true.
Proof.
  eexists. split; [vm_compute; reflexivity |].
  eapply (classic_completed_by_scoring (blockBoard Classic Human true) 2 "X" _ 0%nat).
  - reflexivity.
  - repeat constructor; simpl; lia.
  - vm_compute. reflexivity.
  - reflexivity.
  - reflexivity.
  - simpl. lia.
Defined.

(** ** Caps and bounds of the scan *)

Lemma isRun_min b r c deltaRow deltaColumn m limit limit' n' :
  0 <= limit <= limit' ->
  isRun b r c deltaRow deltaColumn m limit' n' ->
  isRun b r c deltaRow deltaColumn m limit (Z.min n' limit).
Proof.
  intros Hlimit (Hn' & Hrun & Hstop). unfold isRun.
  split; [lia |]. split.
  - intros k Hk. apply Hrun. lia.
  - intros Hlt. replace (Z.min n' limit) with n' by lia. apply Hstop. lia.
Qed.

(** X8: on a well-formed grid, for caps 1 <= maxChain <= maxChain', the count
    under the smaller cap is the count under the larger one cut off at the
    smaller cap. *)
Theorem countChain_cap_cuts (b : Board) (r c deltaRow deltaColumn : Z) (m : string)
    (maxChain maxChain' : Z) :
  wf_grid b ->
  1 <= maxChain <= maxChain' ->
  exists n n',
    _countChainByDirection b r c deltaRow deltaColumn m maxChain = Some n
    /\ _countChainByDirection b r c deltaRow deltaColumn m maxChain' = Some n'
    /\ n = Z.min n' maxChain.
Proof.
  intros Hwf Hcaps.
  destruct (countChain_returns_run b r c deltaRow deltaColumn m maxChain Hwf)
    as (n & Hn & Hrun).
  destruct (countChain_returns_run b r c deltaRow deltaColumn m maxChain' Hwf)
    as (n' & Hn' & Hrun').
  exists n, n'. split; [exact Hn |]. split; [exact Hn' |].
  apply (isRun_unique b r c deltaRow deltaColumn m (Z.max 1 maxChain)); [exact Hrun |].
  replace (Z.max 1 maxChain) with maxChain by lia.
  apply (isRun_min _ _ _ _ _ _ _ (Z.max 1 maxChain')); [lia | exact Hrun'].
Qed.

Lemma countChain_cap_cuts_witness :
  _countChainByDirection (blockBoard Classic Human true) 0 2 0 (-1) "X" 1 = Some 1.
Proof.
  destruct (countChain_cap_cuts (blockBoard Classic Human true) 0 2 0 (-1) "X" 1 INT_MAX
              (blockBoard_wf_grid Classic Human true))
    as (n & n' & Hn & Hn' & Heq).
  - unfold INT_MAX. lia.
  - rewrite Hn. f_equal. vm_compute in Hn'. injection Hn' as <-. exact Heq.
Defined.

(** The two runs of an axis, as [findConnectedCell] adds them up. *)
Lemma axis_cap_same_verdict (a a' c c' cap : Z) :
  2 <= cap -> 0 <= a' -> 0 <= c' ->
  a = Z.min a' cap -> c = Z.min c' cap ->
  (axisTotal (a + c) = 0 <-> axisTotal (a' + c') = 0)
  /\ 0 <= axisTotal (a + c) /\ 0 <= axisTotal (a' + c').
Proof.
  intros Hcap Ha Hc -> ->. unfold axisTotal.
  destruct (Z.geb_spec (Z.min a' cap + Z.min c' cap) 2);
    destruct (Z.geb_spec (a' + c') 2); lia.
Qed.

(** What [findConnectedCell] returns, given what the eight scans return. *)
Lemma findConnectedCell_of_runs b r c m maxChain
    top bottom left right topLeft bottomRight topRight bottomLeft :
  _countChainByDirection b r c (-1) 0 m maxChain = Some top ->
  _countChainByDirection b r c 1 0 m maxChain = Some bottom ->
  _countChainByDirection b r c 0 (-1) m maxChain = Some left ->
  _countChainByDirection b r c 0 1 m maxChain = Some right ->
  _countChainByDirection b r c (-1) (-1) m maxChain = Some topLeft ->
  _countChainByDirection b r c 1 1 m maxChain = Some bottomRight ->
  _countChainByDirection b r c (-1) 1 m maxChain = Some topRight ->
  _countChainByDirection b r c 1 (-1) m maxChain = Some bottomLeft ->
  findConnectedCell b r c m maxChain
  = Some {| row := r; column := c;
            verticalChain := top + bottom;
            horizontalChain := left + right;
            diagonalLeftChain := topLeft + bottomRight;
            diagonalRightChain := topRight + bottomLeft;
            totalConnected :=
              0 + axisTotal (top + bottom) + axisTotal (left + right)
              + axisTotal (topLeft + bottomRight)
              + axisTotal (topRight + bottomLeft) |}.
Proof.
  intros H1 H2 H3 H4 H5 H6 H7 H8.
  unfold findConnectedCell, _countCurrentTopChain, _countCurrentBottomChain,
    _countCurrentLeftChain, _countCurrentRightChain, _countTopLeftChain,
    _countBottomRightChain, _countTopRightChain, _countBottomLeftChain.
  rewrite H1, H2, H3, H4, H5, H6, H7, H8. reflexivity.
Qed.

(** X9: the cap of 3 that [gridLayoutText] scans with decides the same as
    any larger cap, [INT_MAX] included: on a well-formed grid the cell at
    (r, c) reaches a total of at least 3 for a marker under cap 3 exactly when
    it does under the larger cap. *)
Theorem colouring_cap_suffices (b : Board) (r c : Z) (m : string) (maxChain : Z) :
  wf_grid b ->
  3 <= maxChain ->
  exists shortScan fullScan,
    findConnectedCell b r c m 3 = Some shortScan
    /\ findConnectedCell b r c m maxChain = Some fullScan
    /\ (totalConnected shortScan >=? 3) = (totalConnected fullScan >=? 3).
Proof.
  intros Hwf Hcap.
  assert (Hscan : forall deltaRow deltaColumn,
             exists n n',
               _countChainByDirection b r c deltaRow deltaColumn m 3 = Some n
               /\ _countChainByDirection b r c deltaRow deltaColumn m maxChain = Some n'
               /\ n = Z.min n' 3 /\ 0 <= n').
  { intros deltaRow deltaColumn.
    destruct (countChain_returns_run b r c deltaRow deltaColumn m 3 Hwf)
      as (n & Hn & Hrun).
    destruct (countChain_returns_run b r c deltaRow deltaColumn m maxChain Hwf)
      as (n' & Hn' & Hrun').
    exists n, n'. split; [exact Hn |]. split; [exact Hn' |]. split.
    - apply (isRun_unique b r c deltaRow deltaColumn m (Z.max 1 3)); [exact Hrun |].
      apply (isRun_min _ _ _ _ _ _ _ (Z.max 1 maxChain)); [lia | exact Hrun'].
    - destruct Hrun' as [Hrange _]. lia. }
  destruct (Hscan (-1) 0) as (t & t' & Ht & Ht' & Et & Pt).
  destruct (Hscan 1 0) as (d & d' & Hd & Hd' & Ed & Pd).
  destruct (Hscan 0 (-1)) as (l & l' & Hl & Hl' & El & Pl).
  destruct (Hscan 0 1) as (g & g' & Hg & Hg' & Eg & Pg).
  destruct (Hscan (-1) (-1)) as (tl & tl' & Htl & Htl' & Etl & Ptl).
  destruct (Hscan 1 1) as (br & br' & Hbr & Hbr' & Ebr & Pbr).
  destruct (Hscan (-1) 1) as (tr & tr' & Htr & Htr' & Etr & Ptr).
  destruct (Hscan 1 (-1)) as (bl & bl' & Hbl & Hbl' & Ebl & Pbl).
  rewrite (findConnectedCell_of_runs b r c m 3 _ _ _ _ _ _ _ _
             Ht Hd Hl Hg Htl Hbr Htr Hbl).
  rewrite (findConnectedCell_of_runs b r c m maxChain _ _ _ _ _ _ _ _
             Ht' Hd' Hl' Hg' Htl' Hbr' Htr' Hbl').
  eexists. eexists. split; [reflexivity |]. split; [reflexivity |]. simpl.
  destruct (axis_cap_same_verdict t t' d d' 3 ltac:(lia) Pt Pd Et Ed) as (V & V1 & V2).
  destruct (axis_cap_same_verdict l l' g g' 3 ltac:(lia) Pl Pg El Eg) as (H & H1 & H2).
  destruct (axis_cap_same_verdict tl tl' br br' 3 ltac:(lia) Ptl Pbr Etl Ebr)
    as (L & L1 & L2).
  destruct (axis_cap_same_verdict tr tr' bl bl' 3 ltac:(lia) Ptr Pbl Etr Ebl)
    as (R & R1 & R2).
  assert (Hthree : forall x, 0 <= axisTotal x -> axisTotal x = 0 \/ 3 <= axisTotal x).
  { intros x _. unfold axisTotal. destruct (Z.geb_spec x 2); lia. }
  pose proof (Hthree (t + d) V1). pose proof (Hthree (t' + d') V2).
  pose proof (Hthree (l + g) H1). pose proof (Hthree (l' + g') H2).
  pose proof (Hthree (tl + br) L1). pose proof (Hthree (tl' + br') L2).
  pose proof (Hthree (tr + bl) R1). pose proof (Hthree (tr' + bl') R2).
  destruct (Z.geb_spec (axisTotal (t + d) + axisTotal (l + g)
                        + axisTotal (tl + br) + axisTotal (tr + bl)) 3);
    destruct (Z.geb_spec (axisTotal (t' + d') + axisTotal (l' + g')
                          + axisTotal (tl' + br') + axisTotal (tr' + bl')) 3);
    first [reflexivity | lia].
Qed.

Lemma colouring_cap_suffices_witness :
  exists shortScan,
    findConnectedCell (blockBoard Classic Human true) 0 2 "X" 3 = Some shortScan
    /\ (totalConnected shortScan >=? 3) = true.
Proof.
  destruct (colouring_cap_suffices (blockBoard Classic Human true) 0 2 "X" INT_MAX
              (blockBoard_wf_grid Classic Human true))
    as (shortScan & fullScan & Hshort & Hfull & Hsame).
  - unfold INT_MAX. lia.
  - exists shortScan. split; [exact Hshort |]. rewrite Hsame.
    vm_compute in Hfull. injection Hfull as <-. reflexivity.
Defined.

Lemma findConnectedCell_inv b r c m maxChain cc :
  findConnectedCell b r c m maxChain = Some cc ->
  exists top bottom left right topLeft bottomRight topRight bottomLeft,
    _countChainByDirection b r c (-1) 0 m maxChain = Some top
    /\ _countChainByDirection b r c 1 0 m maxChain = Some bottom
    /\ _countChainByDirection b r c 0 (-1) m maxChain = Some left
    /\ _countChainByDirection b r c 0 1 m maxChain = Some right
    /\ _countChainByDirection b r c (-1) (-1) m maxChain = Some topLeft
    /\ _countChainByDirection b r c 1 1 m maxChain = Some bottomRight
    /\ _countChainByDirection b r c (-1) 1 m maxChain = Some topRight
    /\ _countChainByDirection b r c 1 (-1) m maxChain = Some bottomLeft
    /\ cc = {| row := r; column := c;
               verticalChain := top + bottom;
               horizontalChain := left + right;
               diagonalLeftChain := topLeft + bottomRight;
               diagonalRightChain := topRight + bottomLeft;
               totalConnected :=
                 0 + axisTotal (top + bottom) + axisTotal (left + right)
                 + axisTotal (topLeft + bottomRight)
                 + axisTotal (topRight + bottomLeft) |}.
Proof.
  unfold findConnectedCell, _countCurrentTopChain, _countCurrentBottomChain,
    _countCurrentLeftChain, _countCurrentRightChain, _countTopLeftChain,
    _countBottomRightChain, _countTopRightChain, _countBottomLeftChain.
  intros Hcc.
  destruct (_countChainByDirection b r c (-1) 0 m maxChain) as [top |];
    [| discriminate].
  destruct (_countChainByDirection b r c 1 0 m maxChain) as [bottom |];
    [| discriminate].
  destruct (_countChainByDirection b r c 0 (-1) m maxChain) as [left |];
    [| discriminate].
  destruct (_countChainByDirection b r c 0 1 m maxChain) as [right |];
    [| discriminate].
  destruct (_countChainByDirection b r c (-1) (-1) m maxChain) as [topLeft |];
    [| discriminate].
  destruct (_countChainByDirection b r c 1 1 m maxChain) as [bottomRight |];
    [| discriminate].
  destruct (_countChainByDirection b r c (-1) 1 m maxChain) as [topRight |];
    [| discriminate].
  destruct (_countChainByDirection b r c 1 (-1) m maxChain) as [bottomLeft |];
    [| discriminate].
  simpl in Hcc. injection Hcc as <-.
  exists top, bottom, left, right, topLeft, bottomRight, topRight, bottomLeft.
  repeat (split; [reflexivity |]). reflexivity.
Qed.

(** A scan from a cell of the grid ends on a cell of the grid. *)
Lemma countChain_reach b r c deltaRow deltaColumn m maxChain n :
  inBounds b r c ->
  _countChainByDirection b r c deltaRow deltaColumn m maxChain = Some n ->
  0 <= n /\ inBounds b (r + n * deltaRow) (c + n * deltaColumn).
Proof.
  intros Hin Hn. apply countChain_isRun in Hn. destruct Hn as (Hrange & Hrun & _).
  split; [lia |].
  destruct (Z.eq_dec n 0) as [-> | Hnz].
  - replace (r + 0 * deltaRow) with r by lia.
    replace (c + 0 * deltaColumn) with c by lia. exact Hin.
  - destruct (Hrun n ltac:(lia)) as [Hin' _]. exact Hin'.
Qed.

(** X10: for a cell of a grid of size N, whatever the marker and the cap,
    each axis sum that [findConnectedCell] returns lies in [0, N - 1] and the
    total is 0 or lies in [3, 4 * N]: a total of 1 or 2 does not occur. *)
Theorem findConnectedCell_total_range (b : Board) (r c : Z) (m : string)
    (maxChain : Z) (cc : ConnectedCell) :
  inBounds b r c ->
  findConnectedCell b r c m maxChain = Some cc ->
  0 <= verticalChain cc <= _gridSize b - 1
  /\ 0 <= horizontalChain cc <= _gridSize b - 1
  /\ 0 <= diagonalLeftChain cc <= _gridSize b - 1
  /\ 0 <= diagonalRightChain cc <= _gridSize b - 1
  /\ (totalConnected cc = 0 \/ 3 <= totalConnected cc <= 4 * _gridSize b).
Proof.
  intros Hin Hcc.
  destruct (findConnectedCell_inv _ _ _ _ _ _ Hcc)
    as (t & d & l & g & tl & br & tr & bl
        & Ht & Hd & Hl & Hg & Htl & Hbr & Htr & Hbl & ->).
  apply (countChain_reach _ _ _ _ _ _ _ _ Hin) in Ht, Hd, Hl, Hg, Htl, Hbr, Htr, Hbl.
  unfold inBounds in *. simpl.
  assert (Haxis : forall x, 0 <= x <= _gridSize b - 1 ->
                            axisTotal x = 0 \/ 3 <= axisTotal x <= _gridSize b).
  { intros x Hx. unfold axisTotal. destruct (Z.geb_spec x 2); lia. }
  assert (Hv : 0 <= t + d <= _gridSize b - 1) by lia.
  assert (Hh : 0 <= l + g <= _gridSize b - 1) by lia.
  assert (Hdl : 0 <= tl + br <= _gridSize b - 1) by lia.
  assert (Hdr : 0 <= tr + bl <= _gridSize b - 1) by lia.
  pose proof (Haxis _ Hv). pose proof (Haxis _ Hh).
  pose proof (Haxis _ Hdl). pose proof (Haxis _ Hdr).
  repeat (split; [lia |]). lia.
Qed.

Lemma findConnectedCell_total_range_witness :
  exists cc,
    findConnectedCell (blockBoard Classic Human true) 0 2 "X" INT_MAX = Some cc
    /\ 3 <= totalConnected cc <= 12.
Proof.
  destruct (findConnectedCell (blockBoard Classic Human true) 0 2 "X" INT_MAX)
    as [cc |] eqn:Hcc; [| vm_compute in Hcc; discriminate].
  exists cc. split; [reflexivity |].
  assert (Hin : inBounds (blockBoard Classic Human true) 0 2)
    by (unfold inBounds; simpl; lia).
  destruct (findConnectedCell_total_range (blockBoard Classic Human true)
              0 2 "X" INT_MAX cc Hin Hcc) as (_ & _ & _ & _ & [Hzero | Hrange]).
  - vm_compute in Hcc. injection Hcc as <-. discriminate.
  - simpl in Hrange. lia.
Defined.

(** ** The result, exactly *)

(** Where a winner found by the loop of [resultText] comes from: it is the
    candidate held on entry, with every score still to come below
    [topScore], or a player still to come whose score is above [topScore]
    and above every other score still to come. *)
Lemma resultLoop_sound (players : list Player) :
  forall i topPlayer topScore w,
    resultLoop players i topPlayer topScore = Some w ->
    (topPlayer = Some w /\ List.Forall (fun q => _score q < topScore) players)
    \/ exists (k : nat) p,
         w = (i + k)%nat /\ players !! k = Some p /\ topScore < _score p
         /\ forall (j : nat) q, j <> k -> players !! j = Some q -> _score q < _score p.
Proof.
  induction players as [| x rest IH]; intros i topPlayer topScore w Hloop;
    simpl in Hloop.
  - left. split; [exact Hloop | constructor].
  - destruct (Z.gtb_spec (_score x) topScore) as [Hgt | Hle].
    + right. destruct (IH _ _ _ _ Hloop) as [[Htop Hall] | (k & p & -> & Hk & Hp & Hmax)].
      * injection Htop as <-. exists 0%nat, x.
        split; [lia |]. split; [reflexivity |]. split; [lia |].
        intros [| j] q Hj Hq; [contradiction |]. simpl in Hq.
        rewrite List.Forall_forall in Hall. apply Hall.
        apply list_elem_of_In. eapply list_elem_of_lookup_2. exact Hq.
      * exists (S k), p. split; [lia |]. split; [exact Hk |]. split; [lia |].
        intros [| j] q Hj Hq; simpl in Hq.
        -- injection Hq as <-. exact Hp.
        -- apply (Hmax j); [lia | exact Hq].
    + destruct (Z.eqb_spec (_score x) topScore) as [Heq | Hne].
      * right. destruct (IH _ _ _ _ Hloop) as [[Htop _] | (k & p & -> & Hk & Hp & Hmax)];
          [discriminate |].
        exists (S k), p. split; [lia |]. split; [exact Hk |]. split; [lia |].
        intros [| j] q Hj Hq; simpl in Hq.
        -- injection Hq as <-. lia.
        -- apply (Hmax j); [lia | exact Hq].
      * destruct (IH _ _ _ _ Hloop) as [[Htop Hall] | (k & p & -> & Hk & Hp & Hmax)].
        -- left. split; [exact Htop |]. constructor; [lia | exact Hall].
        -- right. exists (S k), p. split; [lia |]. split; [exact Hk |].
           split; [lia |].
           intros [| j] q Hj Hq; simpl in Hq.
           ++ injection Hq as <-. lia.
           ++ apply (Hmax j); [lia | exact Hq].
Qed.

(** X11: [resultText] never throws, and its text tells the outcome.  For
    players that differ pairwise in kind, number or marker, whatever the
    scores: the text is the winner text of a player exactly when that
    player's score is positive and strictly above the score of every other
    player, and it is the draw text exactly when there is no such player, a
    lone player with score 0 and scores that are all negative included. *)
Theorem resultText_exact (b : Board) :
  (forall (i j : nat) p q,
     _players b !! i = Some p -> _players b !! j = Some q ->
     samePlayer p q -> i = j) ->
  (forall (w : nat) p,
     _players b !! w = Some p ->
     (resultText b = Some (winText p)
      <-> 0 < _score p
          /\ forall (j : nat) q,
               j <> w -> _players b !! j = Some q -> _score q < _score p))
  /\ (resultText b = Some drawText
      <-> forall (w : nat) p,
            _players b !! w = Some p -> 0 < _score p ->
            exists (j : nat) q,
              j <> w /\ _players b !! j = Some q /\ _score p <= _score q)
  /\ (resultText b = Some drawText
      \/ exists (w : nat) p,
           _players b !! w = Some p /\ resultText b = Some (winText p)).
Proof.
  intros Hdistinct.
  assert (Hwin : forall (w : nat) p,
             _players b !! w = Some p -> 0 < _score p ->
             (forall (j : nat) q,
                j <> w -> _players b !! j = Some q -> _score q < _score p) ->
             resultText b = Some (winText p)).
  { intros w p Hw Hpos Hothers. unfold resultText.
    rewrite (resultLoop_winner _ 0%nat None 0 w p Hw Hpos Hothers).
    simpl. rewrite Hw. reflexivity. }
  assert (Hcases :
    (resultText b = Some drawText /\ resultLoop (_players b) 0 None 0 = None)
    \/ exists (k : nat) p,
         _players b !! k = Some p /\ resultText b = Some (winText p)
         /\ 0 < _score p
         /\ forall (j : nat) q,
              j <> k -> _players b !! j = Some q -> _score q < _score p).
  { unfold resultText.
    destruct (resultLoop (_players b) 0 None 0) as [w |] eqn:Hloop; [| auto].
    right. destruct (resultLoop_sound _ _ _ _ _ Hloop)
      as [[Htop _] | (k & p & -> & Hk & Hp & Hmax)]; [discriminate |].
    exists k, p. simpl. rewrite Hk. auto. }
  split; [| split].
  - intros w p Hw. split.
    + intros Htext.
      destruct Hcases as [[Hdraw _] | (k & p' & Hk & Hwon & Hpos & Hmax)].
      * rewrite Hdraw in Htext.
        exfalso. apply (winText_not_drawText p). congruence.
      * rewrite Hwon in Htext.
        assert (Hsame : winText p' = winText p) by congruence.
        assert (k = w) as -> by (apply (Hdistinct k w p' p Hk Hw), winText_inj, Hsame).
        assert (p' = p) as -> by congruence.
        split; [exact Hpos | exact Hmax].
    + intros [Hpos Hmax]. apply (Hwin w p Hw Hpos Hmax).
  - split.
    + intros Htext w p Hw Hpos.
      destruct (decide (Exists (fun jq : nat * Player =>
                                  jq.1 <> w /\ _score p <= _score jq.2)
                          (imap (fun j q => (j, q)) (_players b)))) as [Hex | Hnone].
      * apply Exists_exists in Hex. destruct Hex as ([j q] & Hin & Hj & Hq).
        apply list_elem_of_lookup in Hin. destruct Hin as [i Hi].
        rewrite list_lookup_imap in Hi.
        destruct (_players b !! i) as [q' |] eqn:Hq'; [| discriminate].
        simpl in Hi. injection Hi as <- <-. simpl in *. eauto.
      * exfalso.
        rewrite (Hwin w p Hw Hpos) in Htext.
        -- apply (winText_not_drawText p). congruence.
        -- intros j q Hj Hq.
           destruct (Z.lt_ge_cases (_score q) (_score p)) as [Hlt | Hge]; [exact Hlt |].
           exfalso. apply Hnone. apply Exists_exists. exists (j, q).
           split; [| simpl; split; [exact Hj | lia]].
           apply list_elem_of_lookup. exists j.
           rewrite list_lookup_imap, Hq. reflexivity.
    + intros Hnone.
      destruct Hcases as [[Hdraw _] | (k & p' & Hk & _ & Hpos & Hmax)];
        [exact Hdraw |].
      destruct (Hnone k p' Hk Hpos) as (j & q & Hj & Hq & Hle).
      specialize (Hmax j q Hj Hq). lia.
  - destruct Hcases as [[Hdraw _] | (k & p' & Hk & Hwon & _)];
      [left; exact Hdraw | right; eauto].
Qed.

Lemma resultText_exact_witness :
  resultText (mkBoard Frenzy
                [mkPlayer Human 1 "X" 5 2; mkPlayer Robot 2 "O" 7 3] 3 [] None)
  <> Some (winText (mkPlayer Human 1 "X" 5 2)).
Proof.
  destruct (resultText_exact
              (mkBoard Frenzy
                 [mkPlayer Human 1 "X" 5 2; mkPlayer Robot 2 "O" 7 3] 3 [] None))
    as (Hwinner & _ & _).
  - intros [| [| i]] [| [| j]] p q Hp Hq [Hkind _]; simpl in Hp, Hq;
      try discriminate; try reflexivity;
      injection Hp as <-; injection Hq as <-; discriminate.
  - intros Htext.
    apply (Hwinner 0%nat (mkPlayer Human 1 "X" 5 2) eq_refl) in Htext.
    destruct Htext as [_ Hmax].
    specialize (Hmax 1%nat (mkPlayer Robot 2 "O" 7 3) ltac:(lia) eq_refl).
    simpl in Hmax. lia.
Defined.

(** ** Turn distance, again *)

(** X12: for three distinct numbers, which candidate [_compareNextTurn]
    returns does not depend on the order the two are passed in, and it is
    one of the two; and the preference is transitive. *)
Theorem compareNextTurn_order_free (this player1 player2 player3 : Player) :
  _number player1 <> _number player2 ->
  _number player1 <> _number this ->
  _number player2 <> _number this ->
  _compareNextTurn this player1 player2 = _compareNextTurn this player2 player1
  /\ (_compareNextTurn this player1 player2 = player1
      \/ _compareNextTurn this player1 player2 = player2)
  /\ (_number player3 <> _number this ->
      _number player3 <> _number player1 ->
      _number player3 <> _number player2 ->
      _compareNextTurn this player1 player2 = player1 ->
      _compareNextTurn this player2 player3 = player2 ->
      _compareNextTurn this player1 player3 = player1).
Proof.
  intros H12 H1 H2. unfold _compareNextTurn, nextTurnIsFirst.
  split; [| split].
  - destruct (Z.ltb_spec (_number player1) (_number player2));
      destruct (Z.ltb_spec (_number player2) (_number player1));
      destruct (Z.ltb_spec (_number player1) (_number this));
      destruct (Z.ltb_spec (_number player2) (_number this));
      destruct (Z.ltb_spec (_number this) (_number player1));
      destruct (Z.ltb_spec (_number this) (_number player2));
      destruct (Z.eqb_spec (_number this) (_number player1));
      destruct (Z.eqb_spec (_number this) (_number player2));
      simpl; first [reflexivity | lia].
  - destruct (_ || _); auto.
  - intros H3 H31 H32.
    assert (Hdistinct : player1 <> player2 /\ player2 <> player3)
      by (split; congruence).
    destruct Hdistinct as [Hp12 Hp23].
    destruct (Z.ltb_spec (_number player1) (_number player2));
      destruct (Z.ltb_spec (_number player2) (_number player3));
      destruct (Z.ltb_spec (_number player1) (_number player3));
      destruct (Z.ltb_spec (_number player1) (_number this));
      destruct (Z.ltb_spec (_number player2) (_number this));
      destruct (Z.ltb_spec (_number player3) (_number this));
      destruct (Z.ltb_spec (_number this) (_number player1));
      destruct (Z.ltb_spec (_number this) (_number player2));
      destruct (Z.ltb_spec (_number this) (_number player3));
      destruct (Z.eqb_spec (_number this) (_number player2));
      destruct (Z.eqb_spec (_number this) (_number player3));
      simpl; intros; first [reflexivity | lia | congruence].
Qed.

Lemma compareNextTurn_order_free_witness :
  _compareNextTurn (botO 3) (opponentX Human 4) (opponentX Human 2)
  = opponentX Human 4.
Proof.
  destruct (compareNextTurn_order_free (botO 3) (opponentX Human 4)
              (opponentX Human 2) (opponentX Human 1)) as (Hswap & _ & _).
  - simpl. lia.
  - simpl. lia.
  - simpl. lia.
  - rewrite Hswap. reflexivity.
Defined.

(** ** The next turn goes by the number *)

(** X13: with a turn-holder, [togglePlayerTurn] finds the next player from
    the turn-holder's number, not from its seat: for a number k of
    [1, N - 1] the turn goes to seat k, for any other number except 0 to
    seat 0, and for the number 0 the random index is drawn as on the first
    call.  With no turn-holder and no player the call throws. *)
Theorem togglePlayerTurn_by_number (rnd : Z) (b : Board) :
  (forall (turn : nat) p,
     _playerTurn b = Some turn -> _players b !! turn = Some p ->
     (1 <= _number p < Z.of_nat (length (_players b)) ->
      exists b', togglePlayerTurn rnd b = Some b'
                 /\ _playerTurn b' = Some (Z.to_nat (_number p))
                 /\ _players b' = _players b)
     /\ (_number p < 0 \/ Z.of_nat (length (_players b)) <= _number p ->
         exists b', togglePlayerTurn rnd b = Some b'
                    /\ _playerTurn b' = Some 0%nat
                    /\ _players b' = _players b)
     /\ (_number p = 0 -> randomIndexRange (length (_players b)) rnd ->
         exists b', togglePlayerTurn rnd b = Some b'
                    /\ _playerTurn b' = Some (Z.to_nat rnd)
                    /\ _players b' = _players b))
  /\ (_playerTurn b = None -> _players b = [] -> togglePlayerTurn rnd b = None).
Proof.
  split.
  - intros turn p Hturn Hp.
    pose proof (lookup_lt_Some _ _ _ Hp) as Hlt.
    unfold togglePlayerTurn. rewrite Hturn, Hp. simpl.
    split; [| split].
    + intros Hk.
      destruct (Z.eqb_spec (_number p - 1) (-1)); [lia |].
      replace (_number p - 1 + 1) with (_number p) by lia.
      destruct (Z.ltb_spec (_number p) 0); [lia |].
      destruct (Z.geb_spec (_number p) (Z.of_nat (length (_players b)))); [lia |].
      simpl.
      destruct (vec_at_Some (_players b) (_number p)) as [q Hq]; [lia |].
      rewrite Hq. simpl. eexists. split; [reflexivity |]. simpl. auto.
    + intros Hk.
      destruct (Z.eqb_spec (_number p - 1) (-1)); [lia |].
      replace (_number p - 1 + 1) with (_number p) by lia.
      replace ((_number p <? 0) || (_number p >=? Z.of_nat (length (_players b))))
        with true.
      2: { symmetry. apply orb_true_iff.
           destruct Hk; [left; apply Z.ltb_lt | right; apply Z.geb_le]; lia. }
      destruct (vec_at_Some (_players b) 0) as [q Hq]; [lia |].
      rewrite Hq. simpl. eexists. split; [reflexivity |]. simpl. auto.
    + intros Hk Hrnd. unfold randomIndexRange in Hrnd. rewrite Hk. simpl.
      destruct (vec_at_Some (_players b) rnd) as [q Hq]; [lia |].
      rewrite Hq. simpl. eexists. split; [reflexivity |]. simpl. auto.
  - intros Hturn Hplayers. unfold togglePlayerTurn. rewrite Hturn, Hplayers. simpl.
    unfold vec_at. destruct (rnd <? 0); reflexivity.
Qed.

Lemma togglePlayerTurn_by_number_witness :
  exists b',
    togglePlayerTurn 0
      (mkBoard Frenzy [opponentX Human 2; botO 7; opponentX Robot 1] 3
         (_grid (blockBoard Frenzy Human true)) (Some 0%nat)) = Some b'
    /\ _playerTurn b' = Some 2%nat.
Proof.
  destruct (togglePlayerTurn_by_number 0
              (mkBoard Frenzy [opponentX Human 2; botO 7; opponentX Robot 1] 3
                 (_grid (blockBoard Frenzy Human true)) (Some 0%nat)))
    as [Hnext _].
  destruct (Hnext 0%nat (opponentX Human 2) eq_refl eq_refl) as (Hseat & _ & _).
  destruct Hseat as (b' & Htoggle & Hturn & _); [simpl; lia |].
  exists b'. split; [exact Htoggle | exact Hturn].
Defined.

(** ** The selection test *)

(** X14: on a well-formed board, whose grid size has a square within
    [int], the test of [requireGridSelection] accepts a number exactly when
    it is one of the available cell numbers, and an accepted number is one
    [markCellByNumber] places, with any marker, when there is a
    turn-holder. *)
Theorem selection_accepted_iff_available (b : Board) (selectedCell : Z) :
  wf_board b ->
  exists accepted,
    selectionAccepted b selectedCell = Some accepted
    /\ (accepted = true <-> In selectedCell (findAvailableCellNumbers b))
    /\ (accepted = true -> _playerTurn b <> None ->
        forall marker, exists b',
          markCellByNumber selectedCell marker b = Some (true, b')).
Proof.
  intros Hwf. pose proof Hwf as [Hwfg Hwt]. pose proof Hwfg as (Hsize & _).
  unfold selectionAccepted.
  set (x := columnByCellNumber b selectedCell).
  set (y := rowByCellNumber b selectedCell).
  destruct (Z_le_dec 0 selectedCell) as [Hlo | Hlo];
    [destruct (Z_lt_dec selectedCell (_gridSize b * _gridSize b)) as [Hhi | Hhi] |].
  - pose proof (decode_inBounds b ltac:(lia) selectedCell ltac:(lia)) as Hin.
    fold x y in Hin. pose proof Hin as [Hy Hx].
    destruct (grid_at_inBounds b y x Hwfg Hin) as [cell Hcell].
    replace ((selectedCell >=? 0)
             && (selectedCell <=? Z.max 0 (_gridSize b * _gridSize b - 1))
             && (x >=? 0) && (x <=? Z.max 0 (_gridSize b - 1))
             && (y >=? 0) && (y <=? Z.max 0 (_gridSize b - 1))) with true.
    2: { symmetry. repeat (apply andb_true_iff; split);
           first [apply Z.geb_le | apply Z.leb_le]; lia. }
    rewrite Hcell. simpl. exists (empty cell). split; [reflexivity |].
    rewrite empty_true, (available_members b selectedCell Hwfg).
    fold x y. rewrite Hcell. split.
    + split; [intros ->; split; [lia | reflexivity] | intros [_ Heq]; congruence].
    + intros -> Hturn marker.
      destruct (_playerTurn b) as [turn |] eqn:Ht; [| congruence].
      destruct (lookup_lt_is_Some_2 (_players b) turn (Hwt turn Ht)) as [p Hp].
      destruct (markCellByNumber_places b selectedCell marker turn p Hwfg Hin Hcell Ht Hp)
        as (b' & _ & Hmark & _).
      exists b'. exact Hmark.
  - replace ((selectedCell >=? 0)
             && (selectedCell <=? Z.max 0 (_gridSize b * _gridSize b - 1))) with false.
    2: { symmetry. apply andb_false_iff. right. apply Z.leb_gt. nia. }
    simpl. exists false. split; [reflexivity |]. split; [| discriminate].
    rewrite (available_members b selectedCell Hwfg).
    split; [discriminate | intros [? _]; lia].
  - replace (selectedCell >=? 0) with false
      by (destruct (Z.geb_spec selectedCell 0); [lia | reflexivity]).
    simpl. exists false. split; [reflexivity |]. split; [| discriminate].
    rewrite (available_members b selectedCell Hwfg).
    split; [discriminate | intros [? _]; lia].
Qed.

Lemma selection_accepted_iff_available_witness :
  selectionAccepted (blockBoard Classic Human true) 1 = Some false
  /\ selectionAccepted (blockBoard Classic Human true) 9 = Some false
  /\ selectionAccepted (blockBoard Classic Human true) 4 = Some true.
Proof.
  destruct (selection_accepted_iff_available (blockBoard Classic Human true) 4
              (blockBoard_wf Classic Human true)) as (accepted & Htest & Hiff & _).
  split; [reflexivity |]. split; [reflexivity |].
  rewrite Htest. f_equal. apply Hiff. simpl. auto 10.
Defined.

(** ** The bot always picks an available cell *)

(** The cell a record stands for is one of the given cell numbers. *)
Local Abbreviation onCells b cells :=
  (fun cc : ConnectedCell => In (cellNumberByPosition b (row cc) (column cc)) cells).

Lemma findConnectedCell_position b r c m maxChain cc :
  findConnectedCell b r c m maxChain = Some cc -> row cc = r /\ column cc = c.
Proof.
  intros Hcc. apply findConnectedCell_inv in Hcc.
  destruct Hcc as (? & ? & ? & ? & ? & ? & ? & ? & _ & _ & _ & _ & _ & _ & _ & _ & ->).
  split; reflexivity.
Qed.

(** The first loop of [_rankAvailableCells] yields one record per cell
    number, in order, each the result of [findConnectedCell] at the position
    of its cell number. *)
Lemma connectedCells_each b m (cells : list Z) :
  wf_grid b ->
  exists l,
    connectedCells b m cells = Some l
    /\ Forall2 (fun cell cc =>
                  findConnectedCell b (rowByCellNumber b cell)
                    (columnByCellNumber b cell) m INT_MAX = Some cc)
         cells l.
Proof.
  intros Hwf. induction cells as [| cell rest IH]; simpl.
  - exists []. split; [reflexivity | constructor].
  - destruct (findConnectedCell_returns b (rowByCellNumber b cell)
                (columnByCellNumber b cell) m INT_MAX Hwf) as [cc Hcc].
    destruct IH as (l & Hl & Hall).
    rewrite Hcc, Hl. simpl. exists (cc :: l).
    split; [reflexivity | constructor; assumption].
Qed.

Lemma Forall2_onCells b m (cells : list Z) (l : list ConnectedCell) :
  Forall2 (fun cell cc =>
             findConnectedCell b (rowByCellNumber b cell)
               (columnByCellNumber b cell) m INT_MAX = Some cc)
    cells l ->
  length l = length cells /\ List.Forall (onCells b cells) l.
Proof.
  induction 1 as [| cell cc cells l Hcc Hrest [IHlen IHall]]; simpl.
  - split; [reflexivity | constructor].
  - split; [congruence |]. constructor.
    + left. apply findConnectedCell_position in Hcc. destruct Hcc as [-> ->].
      symmetry. apply decode_encode.
    + eapply List.Forall_impl; [| exact IHall]. simpl. auto.
Qed.

Section BotSelection.

Variable std_sort :
  (ConnectedCell -> ConnectedCell -> bool) -> list ConnectedCell -> list ConnectedCell.
Hypothesis std_sort_spec : SortSpec std_sort.

Variable b : Board.
Hypothesis b_wf : wf_grid b.

Local Abbreviation available := (findAvailableCellNumbers b).

(** A ranked list has one record per available cell, each standing for an
    available cell. *)
Lemma rankAvailableCells_onCells (player : Player) (cells : list Z) :
  exists ranked,
    _rankAvailableCells std_sort b player cells = Some ranked
    /\ length ranked = length cells
    /\ List.Forall (onCells b cells) ranked.
Proof.
  unfold _rankAvailableCells.
  destruct (connectedCells_each b (_marker player) cells b_wf) as (l & -> & Hall).
  simpl. eexists. split; [reflexivity |].
  destruct (Forall2_onCells _ _ _ _ Hall) as [Hlen Hon].
  destruct (std_sort_spec l) as [Hperm _].
  split.
  - rewrite <- Hlen. symmetry. apply Permutation_length. exact Hperm.
  - eapply Permutation_Forall; eassumption.
Qed.

Local Abbreviation searchInv := (searchInv b).

Lemma blockSearch_returns (this : Player) (ns : list Z) :
  available <> [] ->
  forall i st,
    searchInv st ->
    0 <= i < Z.of_nat (length (_players b)) ->
    List.Forall (fun n => 0 <= n) ns ->
    exists st',
      blockSearch std_sort b this available (Z.of_nat (length (_players b))) ns i st
      = Some st'
      /\ searchInv st'.
Proof.
  intros Hav. induction ns as [| n rest IH]; intros i st Hinv Hi Hns; simpl.
  - eauto.
  - destruct (i =? _number this - 1); [eauto |].
    destruct st as [playerToBlockCells playerToBlock].
    destruct (vec_at_Some (_players b) i Hi) as [player Hplayer].
    rewrite Hplayer. simpl.
    destruct (rankAvailableCells_onCells player available)
      as (playerCells & Hrank & Hlen & Hon).
    rewrite Hrank. simpl.
    destruct Hinv as [Hptr Hcells]. simpl in Hptr, Hcells.
    assert (Hshort : exists shortest,
               match playerToBlock with
               | Some j =>
                   blocked ← _players b !! j;
                   Some (negb (nextTurnIsFirst (_number this) (_number blocked)
                                 (_number player)))
               | None => Some true
               end = Some shortest).
    { destruct playerToBlock as [j |]; [| eauto].
      destruct (lookup_lt_is_Some_2 (_players b) j (Hptr j eq_refl)) as [q ->].
      simpl. eauto. }
    destruct Hshort as [shortest ->]. simpl.
    assert (Hcell0 : exists playerTop, vec_at playerCells 0 = Some playerTop).
    { apply vec_at_Some. destruct available; [congruence | simpl in Hlen; lia]. }
    destruct Hcell0 as [playerTop HplayerTop].
    assert (Hnext : 0 <= Z.rem (n + 1) (Z.of_nat (length (_players b)))
                    < Z.of_nat (length (_players b))).
    { inversion Hns; subst. apply Z.rem_bound_pos; lia. }
    assert (Hrest : List.Forall (fun n => 0 <= n) rest) by (inversion Hns; assumption).
    assert (Hnew : searchInv (playerCells, Some (Z.to_nat i))).
    { split; simpl; [| right; split; assumption].
      intros j Hj. injection Hj as <-. lia. }
    assert (Hold : searchInv (playerToBlockCells, playerToBlock))
      by (split; assumption).
    destruct playerToBlockCells as [| blockTop others]; simpl.
    + apply IH; assumption.
    + rewrite HplayerTop. simpl.
      change (vec_at (blockTop :: others) 0) with (Some blockTop). simpl.
      destruct (_ || _); apply IH; assumption.
Qed.

Lemma ownScan_result playerCell rankedTop rankedCells bestCell :
  (ownScan playerCell rankedTop rankedCells bestCell).1 = bestCell
  \/ (ownScan playerCell rankedTop rankedCells bestCell).1 = Some playerCell.
Proof.
  revert bestCell. induction rankedCells as [| rankedCell rest IH];
    intros bestCell; simpl; [auto |].
  destruct (_ && _); [| auto].
  destruct (_ && _); simpl; [auto |].
  destruct (IH (Some playerCell)); auto.
Qed.

(** The blocking decision returns the cell it was given or one of the cells
    of the player to block. *)
Lemma blockScan_result playerToBlockCells rankedTop rankedCells :
  forall bestCell,
    blockScan playerToBlockCells rankedTop rankedCells bestCell = bestCell
    \/ exists playerCell,
         In playerCell playerToBlockCells
         /\ blockScan playerToBlockCells rankedTop rankedCells bestCell
            = Some playerCell.
Proof.
  induction playerToBlockCells as [| playerCell rest IH]; intros bestCell; simpl;
    [auto |].
  destruct (totalConnected playerCell =? 0); [auto |].
  destruct (totalConnected playerCell >? rankedTop);
    [right; exists playerCell; auto |].
  pose proof (ownScan_result playerCell rankedTop rankedCells bestCell) as Hown.
  destruct (ownScan playerCell rankedTop rankedCells bestCell)
    as [bestCell' isBestCellFound]. simpl in Hown.
  destruct isBestCellFound.
  - destruct Hown as [-> | ->]; [auto | right; exists playerCell; auto].
  - destruct (IH bestCell') as [Hsame | (pc & Hin & Hpc)].
    + rewrite Hsame.
      destruct Hown as [-> | ->]; [auto | right; exists playerCell; auto].
    + right. exists pc. auto.
Qed.

(** The selection returns, and returns an available cell number. *)
Lemma bot_selects_cell_helper (rnd : Z) (this : Player) :
  0 <= _number this ->
  _players b <> [] ->
  available <> [] ->
  randomIndexRange (length available) rnd ->
  exists selected,
    requireCellSelection std_sort rnd this b = Some selected
    /\ In selected available.
Proof.
  intros Hnumber Hplayers Hav Hrnd. unfold requireCellSelection.
  assert (Hcount : 0 < Z.of_nat (length (_players b)))
    by (destruct (_players b); [congruence | simpl; lia]).
  destruct (rankAvailableCells_onCells this available)
    as (rankedCells & -> & Hlen & Hon).
  simpl.
  destruct (blockSearch_returns this
              (map (fun k => Z.rem (_number this) (Z.of_nat (length (_players b)))
                             + Z.of_nat k)
                 (seq 0 (length (_players b))))
              Hav
              (Z.rem (_number this) (Z.of_nat (length (_players b))))
              ([], None))
    as ([playerToBlockCells playerToBlock] & -> & Hinv).
  { split; simpl; [discriminate | auto]. }
  { apply Z.rem_bound_pos; lia. }
  { apply List.Forall_forall. intros n Hn. apply in_map_iff in Hn.
    destruct Hn as (k & <- & _).
    pose proof (Z.rem_bound_pos (_number this) (Z.of_nat (length (_players b)))
                  Hnumber Hcount). lia. }
  simpl.
  destruct rankedCells as [| ranked0 rankedRest];
    [destruct available; [congruence | discriminate] |].
  change (vec_at (ranked0 :: rankedRest) 0) with (Some ranked0). simpl.
  assert (Hranked0 : onCells b available ranked0)
    by (inversion Hon; assumption).
  assert (Hblock : List.Forall (onCells b available) playerToBlockCells).
  { destruct Hinv as [_ [Hnil | [_ Hall]]]; simpl in *; [| exact Hall].
    rewrite Hnil. constructor. }
  set (bestCell := if totalConnected ranked0 >=? 3 then Some ranked0 else None).
  assert (Hbest : forall best, bestCell = Some best -> onCells b available best).
  { unfold bestCell. intros best Hsome.
    destruct (totalConnected ranked0 >=? 3); [| discriminate].
    injection Hsome as <-. exact Hranked0. }
  destruct (blockScan_result playerToBlockCells (totalConnected ranked0)
              (ranked0 :: rankedRest) bestCell) as [-> | (pc & Hpc & ->)].
  - destruct bestCell as [best |] eqn:Hb.
    + eexists. split; [reflexivity |]. apply Hbest. reflexivity.
    + destruct (_ || _).
      * eexists. split; [reflexivity | exact Hranked0].
      * unfold randomIndexRange in Hrnd.
        destruct (vec_at_Some available rnd) as [selected Hselected].
        { destruct available; [congruence | simpl in *; lia]. }
        exists selected. split; [exact Hselected |].
        apply vec_at_lookup in Hselected. destruct Hselected as [_ Hselected].
        apply list_elem_of_In. eapply list_elem_of_lookup_2. exact Hselected.
  - eexists. split; [reflexivity |].
    rewrite List.Forall_forall in Hblock. apply Hblock. exact Hpc.
Qed.

(** X15: for every sorting algorithm the C++ standard allows, on a
    well-formed grid with at least one available cell, a bot whose number is
    not negative, among at least one player, selects a cell number without
    throwing, and the number is one of the available cell numbers, whatever
    the random index yields within its bounds. *)
Theorem bot_selects_available_cell (rnd : Z) (this : Player) :
  0 <= _number this ->
  _players b <> [] ->
  available <> [] ->
  randomIndexRange (length available) rnd ->
  exists selected,
    requireCellSelection std_sort rnd this b = Some selected
    /\ In selected available.
Proof. apply bot_selects_cell_helper. Qed.

(** X16: with no available cell the bot's selection throws, for every
    sorting algorithm the C++ standard allows: there is no first ranked cell
    to read. *)
Theorem bot_throws_on_full_grid (rnd : Z) (this : Player) :
  available = [] ->
  requireCellSelection std_sort rnd this b = None.
Proof.
  intros Hav. unfold requireCellSelection, _rankAvailableCells at 1.
  rewrite Hav. simpl.
  destruct (std_sort_spec []) as [Hperm _].
  apply Permutation_nil in Hperm. rewrite Hperm. simpl.
  destruct (blockSearch _ _ _ _ _ _ _ _) as [[cells ptr] |]; reflexivity.
Qed.

End BotSelection.

Lemma bot_selects_available_cell_witness :
  exists selected,
    requireCellSelection (@insertion_sort ConnectedCell) 0 (blockBot false)
      (blockBoard Frenzy Robot false) = Some selected
    /\ In selected [2; 3; 4; 5; 6; 7; 8].
Proof.
  apply (bot_selects_available_cell (@insertion_sort ConnectedCell)
           insertion_sort_SortSpec (blockBoard Frenzy Robot false)
           (blockBoard_wf_grid Frenzy Robot false) 0 (blockBot false)).
  - simpl. lia.
  - discriminate.
  - discriminate.
  - unfold randomIndexRange. simpl. lia.
Defined.

Lemma bot_throws_on_full_grid_witness :
  requireCellSelection (@insertion_sort ConnectedCell) 0 (botO 2)
    (mkBoard Frenzy [opponentX Human 1; botO 2] 3
       [ ["X"; "O"; "X"]; ["X"; "O"; "O"]; ["O"; "X"; "X"] ]%string (Some 1%nat))
  = None.
Proof.
  apply (bot_throws_on_full_grid (@insertion_sort ConnectedCell)
           insertion_sort_SortSpec). reflexivity.
Defined.

(** ** What the bot ranks and whom it blocks *)

(** The cells the search ends with are the ones it started with or the
    ranked cells of a player at an index other than the bot's own. *)
Lemma blockSearch_cells_from std_sort b this availableCells totalPlayers (ns : list Z) :
  forall i st st',
    blockSearch std_sort b this availableCells totalPlayers ns i st = Some st' ->
    st'.1 = st.1
    \/ exists idx player,
         vec_at (_players b) idx = Some player
         /\ idx <> _number this - 1
         /\ _rankAvailableCells std_sort b player availableCells = Some st'.1.
Proof.
  induction ns as [| n rest IH]; intros i st st' Hsearch; simpl in Hsearch.
  - injection Hsearch as <-. auto.
  - destruct (Z.eqb_spec i (_number this - 1)) as [Hi | Hi];
      [injection Hsearch as <-; auto |].
    destruct st as [playerToBlockCells playerToBlock].
    destruct (vec_at (_players b) i) as [player |] eqn:Hplayer; [| discriminate].
    simpl in Hsearch.
    destruct (_rankAvailableCells std_sort b player availableCells)
      as [playerCells |] eqn:Hrank; [| discriminate].
    simpl in Hsearch.
    destruct (match playerToBlock with Some j => _ | None => _ end)
      as [shortest |]; [| discriminate].
    simpl in Hsearch.
    destruct (match playerToBlockCells with [] => _ | _ :: _ => _ end)
      as [replace |]; [| discriminate].
    simpl in Hsearch.
    destruct (IH _ _ _ Hsearch) as [Hsame | Hfrom]; [| right; exact Hfrom].
    destruct replace; simpl in Hsame; [| left; exact Hsame].
    right. exists i, player. rewrite Hsame. auto.
Qed.

Section BotRanking.

Variable std_sort :
  (ConnectedCell -> ConnectedCell -> bool) -> list ConnectedCell -> list ConnectedCell.
Hypothesis std_sort_spec : SortSpec std_sort.

Variable b : Board.
Hypothesis b_wf : wf_grid b.

(** X17: for every sorting algorithm the C++ standard allows, on a
    well-formed grid, [_rankAvailableCells] returns one record per cell
    number given: the record of every given cell is in the list, every record
    of the list is the one [findConnectedCell] returns for a given cell and
    the player's marker, and along the list [totalConnected] never grows,
    nor does the sum of the four chains among records of equal total. *)
Theorem rankAvailableCells_ranked (player : Player) (cells : list Z) :
  exists ranked,
    _rankAvailableCells std_sort b player cells = Some ranked
    /\ length ranked = length cells
    /\ (forall cell, In cell cells ->
          exists cc, In cc ranked
                     /\ findConnectedCell b (rowByCellNumber b cell)
                          (columnByCellNumber b cell) (_marker player) INT_MAX
                        = Some cc)
    /\ (forall cc, In cc ranked ->
          exists cell, In cell cells
                       /\ findConnectedCell b (rowByCellNumber b cell)
                            (columnByCellNumber b cell) (_marker player) INT_MAX
                          = Some cc)
    /\ (forall (i j : nat) x y,
          (i < j)%nat -> ranked !! i = Some x -> ranked !! j = Some y ->
          totalConnected y <= totalConnected x
          /\ (totalConnected y = totalConnected x ->
              verticalChain y + horizontalChain y
              + diagonalLeftChain y + diagonalRightChain y
              <= verticalChain x + horizontalChain x
                 + diagonalLeftChain x + diagonalRightChain x)).
Proof.
  unfold _rankAvailableCells.
  destruct (connectedCells_each b (_marker player) cells b_wf) as (l & -> & Hall).
  simpl. eexists. split; [reflexivity |].
  destruct (std_sort_spec l) as [Hperm Hsorted].
  split; [| split; [| split]].
  - rewrite <- (Permutation_length Hperm). symmetry.
    eapply Forall2_length. exact Hall.
  - intros cell Hcell. apply list_elem_of_In in Hcell.
    apply list_elem_of_lookup in Hcell. destruct Hcell as [k Hk].
    destruct (Forall2_lookup_l _ _ _ k cell Hall Hk) as (cc & Hcc & Hrec).
    exists cc. split; [| exact Hrec].
    eapply Permutation_in; [exact Hperm |].
    apply list_elem_of_In. eapply list_elem_of_lookup_2. exact Hcc.
  - intros cc Hcc.
    apply (Permutation_in _ (Permutation_sym Hperm)) in Hcc.
    apply list_elem_of_In, list_elem_of_lookup in Hcc. destruct Hcc as [k Hk].
    destruct (Forall2_lookup_r _ _ _ k cc Hall Hk) as (cell & Hcell & Hrec).
    exists cell. split; [| exact Hrec].
    apply list_elem_of_In. eapply list_elem_of_lookup_2. exact Hcell.
  - intros i j x y Hlt Hi Hj.
    pose proof (Hsorted i j x y Hlt Hi Hj) as Hrank.
    unfold rankBefore in Hrank.
    apply orb_false_iff in Hrank. destruct Hrank as [Htotal Hchains].
    rewrite Z.gtb_ltb, Z.ltb_ge in Htotal. split; [exact Htotal |].
    intros Heq. rewrite Heq, Z.eqb_refl in Hchains. simpl in Hchains.
    rewrite Z.gtb_ltb, Z.ltb_ge in Hchains. exact Hchains.
Qed.

End BotRanking.

Lemma rankAvailableCells_ranked_witness :
  exists ranked first rest,
    _rankAvailableCells (@insertion_sort ConnectedCell)
      (blockBoard Classic Human true) (opponentX Human 2) [2; 3; 4; 5; 6; 7; 8]
    = Some ranked
    /\ ranked = first :: rest
    /\ totalConnected first = 3
    /\ length ranked = 7%nat.
Proof.
  destruct (rankAvailableCells_ranked (@insertion_sort ConnectedCell)
              insertion_sort_SortSpec (blockBoard Classic Human true)
              (blockBoard_wf_grid Classic Human true)
              (opponentX Human 2) [2; 3; 4; 5; 6; 7; 8])
    as (ranked & Hrank & Hlen & _).
  exists ranked. vm_compute in Hrank. injection Hrank as <-.
  eexists. eexists. split; [reflexivity |]. split; [reflexivity |].
  split; [reflexivity | exact Hlen].
Defined.

(** ** When the bot falls back on chance, and when it completes its own line *)

(** With the marker nowhere on the grid, [findConnectedCell] finds nothing. *)
Lemma findConnectedCell_nothing b r c m maxChain cc :
  (forall r' c', ~ holdsAt b r' c' m) ->
  findConnectedCell b r c m maxChain = Some cc ->
  verticalChain cc = 0 /\ horizontalChain cc = 0
  /\ diagonalLeftChain cc = 0 /\ diagonalRightChain cc = 0
  /\ totalConnected cc = 0.
Proof.
  intros Hnone Hcc.
  assert (Hiso : isolated b r c m) by (intros dr dc _ _ _; apply Hnone).
  destruct (findConnectedCell_inv _ _ _ _ _ _ Hcc)
    as (t & d & l & g & tl & br & tr & bl
        & Ht & Hd & Hl & Hg & Htl & Hbr & Htr & Hbl & ->).
  apply (countChain_isolated _ _ _ _ _ _ _ _ Hiso) in Ht, Hd, Hl, Hg, Htl, Hbr, Htr, Hbl;
    try lia; try congruence.
  subst. simpl. repeat split.
Qed.

Lemma blockScan_nothing_to_block playerToBlockCells rankedTop rankedCells bestCell :
  List.Forall (fun cc => totalConnected cc = 0) playerToBlockCells ->
  blockScan playerToBlockCells rankedTop rankedCells bestCell = bestCell.
Proof.
  intros Hall. destruct Hall as [| playerCell rest Hzero _]; simpl; [reflexivity |].
  rewrite Hzero. reflexivity.
Qed.

Lemma ownScan_other_total playerCell rankedTop rankedCells bestCell :
  totalConnected playerCell <> rankedTop ->
  ownScan playerCell rankedTop rankedCells bestCell = (bestCell, false).
Proof.
  intros Hne. destruct rankedCells as [| rankedCell rest]; simpl; [reflexivity |].
  destruct (Z.eqb_spec (totalConnected playerCell) rankedTop); [contradiction |].
  reflexivity.
Qed.

Lemma blockScan_weaker_opponent playerToBlockCells rankedTop rankedCells :
  List.Forall (fun cc => totalConnected cc < rankedTop) playerToBlockCells ->
  forall bestCell,
    blockScan playerToBlockCells rankedTop rankedCells bestCell = bestCell.
Proof.
  induction 1 as [| playerCell rest Hlt _ IH]; intros bestCell; simpl; [reflexivity |].
  destruct (totalConnected playerCell =? 0); [reflexivity |].
  destruct (Z.gtb_spec (totalConnected playerCell) rankedTop); [lia |].
  rewrite ownScan_other_total by lia. apply IH.
Qed.

Section BotDecision.

Variable std_sort :
  (ConnectedCell -> ConnectedCell -> bool) -> list ConnectedCell -> list ConnectedCell.
Hypothesis std_sort_spec : SortSpec std_sort.

Variable b : Board.
Hypothesis b_wf : wf_grid b.

Local Abbreviation available := (findAvailableCellNumbers b).

(** The records of a ranked list are those of the given cells, and the first
    one has the highest total. *)
Lemma rankAvailableCells_records (player : Player) (cells : list Z) :
  exists ranked,
    _rankAvailableCells std_sort b player cells = Some ranked
    /\ length ranked = length cells
    /\ List.Forall
         (fun cc => exists cell,
              In cell cells
              /\ findConnectedCell b (rowByCellNumber b cell)
                   (columnByCellNumber b cell) (_marker player) INT_MAX
                 = Some cc)
         ranked
    /\ (forall cell cc,
          In cell cells ->
          findConnectedCell b (rowByCellNumber b cell)
            (columnByCellNumber b cell) (_marker player) INT_MAX = Some cc ->
          forall first rest, ranked = first :: rest ->
                             totalConnected cc <= totalConnected first).
Proof.
  unfold _rankAvailableCells.
  destruct (connectedCells_each b (_marker player) cells b_wf) as (l & -> & Hall).
  simpl. eexists. split; [reflexivity |].
  destruct (std_sort_spec l) as [Hperm Hsorted].
  split; [| split].
  - rewrite <- (Permutation_length Hperm). symmetry.
    eapply Forall2_length. exact Hall.
  - apply List.Forall_forall. intros cc Hcc.
    apply (Permutation_in _ (Permutation_sym Hperm)) in Hcc.
    apply list_elem_of_In, list_elem_of_lookup in Hcc. destruct Hcc as [k Hk].
    destruct (Forall2_lookup_r _ _ _ k cc Hall Hk) as (cell & Hcell & Hrec).
    exists cell. split; [| exact Hrec].
    apply list_elem_of_In. eapply list_elem_of_lookup_2. exact Hcell.
  - intros cell cc Hcell Hrec first rest Hranked.
    apply list_elem_of_In, list_elem_of_lookup in Hcell. destruct Hcell as [k Hk].
    destruct (Forall2_lookup_l _ _ _ k cell Hall Hk) as (cc' & Hcc' & Hrec').
    assert (cc' = cc) as -> by congruence.
    assert (Hin : In cc (std_sort rankBefore l)).
    { eapply Permutation_in; [exact Hperm |].
      apply list_elem_of_In. eapply list_elem_of_lookup_2. exact Hcc'. }
    rewrite Hranked in Hin, Hsorted. destruct Hin as [<- | Hin]; [lia |].
    apply list_elem_of_In, list_elem_of_lookup in Hin. destruct Hin as [j Hj].
    pose proof (Hsorted 0%nat (S j) first cc ltac:(lia) eq_refl Hj) as Hrank.
    unfold rankBefore in Hrank. apply orb_false_iff in Hrank.
    destruct Hrank as [Htotal _]. rewrite Z.gtb_ltb, Z.ltb_ge in Htotal. exact Htotal.
Qed.

(** X18: when no cell of the grid holds the marker of the bot or of any
    player, as on a board just built or reset and players with non-empty
    markers, the bot leaves the choice to chance: its selection is the
    available cell number the random index points at. *)
Theorem bot_random_on_unmarked_grid (rnd : Z) (this : Player) :
  0 <= _number this ->
  _players b <> [] ->
  available <> [] ->
  (forall p, p = this \/ In p (_players b) ->
             forall r c, ~ holdsAt b r c (_marker p)) ->
  requireCellSelection std_sort rnd this b = vec_at available rnd.
Proof.
  intros Hnumber Hplayers Hav Hnone. unfold requireCellSelection.
  assert (Hcount : 0 < Z.of_nat (length (_players b)))
    by (destruct (_players b); [congruence | simpl; lia]).
  assert (Hzero : forall p ranked,
             p = this \/ In p (_players b) ->
             _rankAvailableCells std_sort b p available = Some ranked ->
             List.Forall (fun cc => verticalChain cc = 0 /\ horizontalChain cc = 0
                                    /\ diagonalLeftChain cc = 0
                                    /\ diagonalRightChain cc = 0
                                    /\ totalConnected cc = 0) ranked).
  { intros p ranked Hp Hrank.
    destruct (rankAvailableCells_records p available) as (ranked' & Hrank' & _ & Hrec & _).
    assert (ranked' = ranked) as -> by congruence.
    eapply List.Forall_impl; [| exact Hrec]. simpl.
    intros cc (cell & _ & Hcc).
    eapply findConnectedCell_nothing; [apply Hnone; exact Hp | exact Hcc]. }
  destruct (rankAvailableCells_records this available)
    as (rankedCells & Hranked & Hlen & _).
  pose proof (Hzero this rankedCells (or_introl eq_refl) Hranked) as Hown.
  rewrite Hranked. simpl.
  destruct (blockSearch_returns std_sort std_sort_spec b b_wf this
              (map (fun k => Z.rem (_number this) (Z.of_nat (length (_players b)))
                             + Z.of_nat k)
                 (seq 0 (length (_players b))))
              Hav
              (Z.rem (_number this) (Z.of_nat (length (_players b))))
              ([], None))
    as ([playerToBlockCells playerToBlock] & Hsearch & _).
  { split; simpl; [discriminate | auto]. }
  { apply Z.rem_bound_pos; lia. }
  { apply List.Forall_forall. intros n Hn. apply in_map_iff in Hn.
    destruct Hn as (k & <- & _).
    pose proof (Z.rem_bound_pos (_number this) (Z.of_nat (length (_players b)))
                  Hnumber Hcount). lia. }
  rewrite Hsearch. simpl.
  assert (Hblock : List.Forall (fun cc => totalConnected cc = 0) playerToBlockCells).
  { destruct (blockSearch_cells_from _ _ _ _ _ _ _ _ _ Hsearch)
      as [Hnil | (idx & player & Hplayer & _ & Hrank)]; simpl in *.
    - rewrite Hnil. constructor.
    - apply vec_at_lookup in Hplayer. destruct Hplayer as [_ Hplayer].
      assert (Hin : In player (_players b))
        by (apply list_elem_of_In; eapply list_elem_of_lookup_2; exact Hplayer).
      eapply List.Forall_impl; [| exact (Hzero player _ (or_intror Hin) Hrank)].
      simpl. tauto. }
  destruct rankedCells as [| ranked0 rankedRest];
    [destruct available; [congruence | discriminate] |].
  change (vec_at (ranked0 :: rankedRest) 0) with (Some ranked0). simpl.
  inversion Hown as [| ? ? (Hv & Hh & Hl & Hr & Ht) _]; subst.
  rewrite blockScan_nothing_to_block by exact Hblock.
  rewrite Ht, Hv, Hh, Hl, Hr. reflexivity.
Qed.

(** X19: when some available cell gives the bot a total of at least 3 and
    every available cell gives every player at another index than the bot's
    a smaller total than that, the bot selects an available cell that is
    best for itself: its total for the bot's marker is at least that of
    every available cell. *)
Theorem bot_completes_own_line (rnd : Z) (this : Player) (goodCell : Z)
    (good : ConnectedCell) :
  0 <= _number this ->
  _players b <> [] ->
  In goodCell available ->
  findConnectedCell b (rowByCellNumber b goodCell) (columnByCellNumber b goodCell)
    (_marker this) INT_MAX = Some good ->
  3 <= totalConnected good ->
  (forall idx player cell cc,
     vec_at (_players b) idx = Some player -> idx <> _number this - 1 ->
     In cell available ->
     findConnectedCell b (rowByCellNumber b cell) (columnByCellNumber b cell)
       (_marker player) INT_MAX = Some cc ->
     totalConnected cc < totalConnected good) ->
  exists selected best,
    requireCellSelection std_sort rnd this b = Some selected
    /\ In selected available
    /\ findConnectedCell b (rowByCellNumber b selected) (columnByCellNumber b selected)
         (_marker this) INT_MAX = Some best
    /\ forall cell cc,
         In cell available ->
         findConnectedCell b (rowByCellNumber b cell) (columnByCellNumber b cell)
           (_marker this) INT_MAX = Some cc ->
         totalConnected cc <= totalConnected best.
Proof.
  intros Hnumber Hplayers Hgood Hrec Hthree Hweaker. unfold requireCellSelection.
  assert (Hav : available <> [])
    by (intros Hnil; rewrite Hnil in Hgood; contradiction).
  assert (Hcount : 0 < Z.of_nat (length (_players b)))
    by (destruct (_players b); [congruence | simpl; lia]).
  destruct (rankAvailableCells_records this available)
    as (rankedCells & Hranked & Hlen & Hown & Hfirst).
  rewrite Hranked. simpl.
  destruct (blockSearch_returns std_sort std_sort_spec b b_wf this
              (map (fun k => Z.rem (_number this) (Z.of_nat (length (_players b)))
                             + Z.of_nat k)
                 (seq 0 (length (_players b))))
              Hav
              (Z.rem (_number this) (Z.of_nat (length (_players b))))
              ([], None))
    as ([playerToBlockCells playerToBlock] & Hsearch & _).
  { split; simpl; [discriminate | auto]. }
  { apply Z.rem_bound_pos; lia. }
  { apply List.Forall_forall. intros n Hn. apply in_map_iff in Hn.
    destruct Hn as (k & <- & _).
    pose proof (Z.rem_bound_pos (_number this) (Z.of_nat (length (_players b)))
                  Hnumber Hcount). lia. }
  rewrite Hsearch. simpl.
  destruct rankedCells as [| ranked0 rankedRest];
    [destruct available; [congruence | discriminate] |].
  change (vec_at (ranked0 :: rankedRest) 0) with (Some ranked0). simpl.
  pose proof (Hfirst goodCell good Hgood Hrec ranked0 rankedRest eq_refl) as Htop.
  assert (Hblock : List.Forall (fun cc => totalConnected cc < totalConnected ranked0)
                     playerToBlockCells).
  { destruct (blockSearch_cells_from _ _ _ _ _ _ _ _ _ Hsearch)
      as [Hnil | (idx & player & Hplayer & Hidx & Hrank)]; simpl in *.
    - rewrite Hnil. constructor.
    - destruct (rankAvailableCells_records player available)
        as (ranked' & Hrank' & _ & Hrecs & _).
      assert (ranked' = playerToBlockCells) as -> by congruence.
      eapply List.Forall_impl; [| exact Hrecs]. simpl.
      intros cc (cell & Hcell & Hcc).
      pose proof (Hweaker idx player cell cc Hplayer Hidx Hcell Hcc). lia. }
  rewrite blockScan_weaker_opponent by exact Hblock.
  destruct (Z.geb_spec (totalConnected ranked0) 3); [| lia].
  inversion Hown as [| ? ? (cell0 & Hcell0 & Hrec0) _]; subst.
  pose proof (findConnectedCell_position _ _ _ _ _ _ Hrec0) as [Hrow Hcol].
  assert (Hselected : cellNumberByPosition b (row ranked0) (column ranked0) = cell0)
    by (rewrite Hrow, Hcol; apply decode_encode).
  exists cell0, ranked0.
  split; [rewrite Hselected; reflexivity |]. split; [exact Hcell0 |].
  split; [exact Hrec0 |].
  intros cell cc Hcell Hcc. exact (Hfirst cell cc Hcell Hcc ranked0 rankedRest eq_refl).
Qed.

End BotDecision.

Lemma fresh_grid_holds_nothing (n : nat) (r c : Z) (m : string) :
  m <> EmptyString ->
  grid_at (replicate n (replicate n EmptyString)) r c <> Some m.
Proof.
  intros Hm Hat. apply grid_at_lookup in Hat.
  destruct Hat as (_ & _ & line & Hline & Hcell).
  apply lookup_replicate in Hline. destruct Hline as [-> _].
  apply lookup_replicate in Hcell. destruct Hcell as [Heq _]. congruence.
Qed.

Lemma bot_random_on_unmarked_grid_witness :
  exists b,
    ClassicBoard [botO 1; opponentX Human 2] = Some b
    /\ requireCellSelection (@insertion_sort ConnectedCell) 4 (botO 1) b = Some 4.
Proof.
  exists (mkBoard Classic [botO 1; opponentX Human 2] 3
            (replicate 3 (replicate 3 EmptyString)) None).
  split; [reflexivity |].
  rewrite (bot_random_on_unmarked_grid (@insertion_sort ConnectedCell)
             insertion_sort_SortSpec
             (mkBoard Classic [botO 1; opponentX Human 2] 3
                (replicate 3 (replicate 3 EmptyString)) None)).
  - reflexivity.
  - apply (ClassicBoard_wf [botO 1; opponentX Human 2]);
      [simpl; unfold INT_MAX; lia | reflexivity].
  - simpl. lia.
  - discriminate.
  - discriminate.
  - intros p Hp r c [_ Hat].
    apply (fresh_grid_holds_nothing 3 r c (_marker p)); [| exact Hat].
    destruct Hp as [-> | [<- | [<- | []]]]; discriminate.
Defined.

Lemma ownLineBoard_wf : wf_board ownLineBoard.
Proof.
  split.
  - unfold wf_grid. simpl. split; [unfold INT_MAX; lia |].
    split; [reflexivity | repeat constructor].
  - intros turn Hturn. injection Hturn as <-. simpl. lia.
Qed.

Lemma ownLineBoard_opponent (idx : Z) (player : Player) :
  vec_at (_players ownLineBoard) idx = Some player -> idx <> 1 ->
  player = opponentX Human 1.
Proof.
  intros Hat Hidx. apply vec_at_lookup in Hat. destruct Hat as [Hpos Hat].
  destruct (Z.to_nat idx) as [| [| k]] eqn:Hi; simpl in Hat.
  - injection Hat as <-. reflexivity.
  - exfalso. apply Hidx. lia.
  - discriminate.
Qed.

Lemma bot_completes_own_line_witness :
  exists selected,
    requireCellSelection (@insertion_sort ConnectedCell) 0 (botO 2) ownLineBoard
    = Some selected
    /\ In selected (findAvailableCellNumbers ownLineBoard).
Proof.
  destruct (bot_completes_own_line (@insertion_sort ConnectedCell)
              insertion_sort_SortSpec ownLineBoard (proj1 ownLineBoard_wf)
              0 (botO 2) 2
              {| row := 0; column := 2; verticalChain := 0; horizontalChain := 2;
                 diagonalLeftChain := 0; diagonalRightChain := 0;
                 totalConnected := 3 |})
    as (selected & best & Hselected & Havailable & _).
  - simpl. lia.
  - discriminate.
  - simpl. auto.
  - reflexivity.
  - simpl. lia.
  - intros idx player cell cc Hplayer Hidx Hcell Hcc.
    apply ownLineBoard_opponent in Hplayer; [| exact Hidx]. subst player.
    simpl in Hcell.
    repeat (destruct Hcell as [<- | Hcell];
            [vm_compute in Hcc; injection Hcc as <-; simpl; lia |]).
    contradiction.
  - exists selected. split; [exact Hselected | exact Havailable].
Defined.

(** ** A bot's turn, as [main] plays it *)

Lemma findAvailableCellNumbers_reads_grid_only b b' :
  _grid b' = _grid b -> _gridSize b' = _gridSize b ->
  findAvailableCellNumbers b' = findAvailableCellNumbers b.
Proof.
  unfold findAvailableCellNumbers. intros -> Hsize.
  generalize (@nil Z) at 1 2. generalize 0 at 1 2.
  induction (_grid b) as [| line rest IH]; intros r cells; simpl; [reflexivity |].
  rewrite IH. f_equal.
  generalize 0 at 1 2. revert cells.
  induction line as [| cell others IHline]; intros cells c; simpl; [reflexivity |].
  rewrite IHline. unfold cellNumberByPosition. rewrite Hsize. reflexivity.
Qed.

Lemma numbered_insert_setScore players (turn : nat) p score :
  numbered players -> players !! turn = Some p ->
  numbered (<[turn := setScore score p]> players).
Proof.
  intros Hnum Hp i q Hq.
  destruct (Nat.eq_dec i turn) as [-> | Hne].
  - rewrite list_lookup_insert_eq in Hq by (eapply lookup_lt_Some; exact Hp).
    injection Hq as <-. simpl. apply Hnum. exact Hp.
  - rewrite list_lookup_insert_ne in Hq by congruence. apply Hnum. exact Hq.
Qed.

(** X20: the calls [main] makes for a turn, when the turn-holder is a bot
    with a non-empty marker on a well-formed board with players numbered
    1..N and a cell left: the bot selects a cell, [markCellByNumber] places
    the bot's marker there and returns true, and [togglePlayerTurn] passes
    the turn to the next seat; one available cell fewer is left, the
    selected one. *)
Theorem bot_turn_progresses
    (std_sort : (ConnectedCell -> ConnectedCell -> bool) ->
                list ConnectedCell -> list ConnectedCell)
    (b : Board) (rnd rnd' : Z) (turn : nat) (this : Player) :
  SortSpec std_sort ->
  wf_board b ->
  numbered (_players b) ->
  _playerTurn b = Some turn ->
  _players b !! turn = Some this ->
  _marker this <> EmptyString ->
  findAvailableCellNumbers b <> [] ->
  randomIndexRange (length (findAvailableCellNumbers b)) rnd ->
  exists selected b1 b2,
    requireCellSelection std_sort rnd this b = Some selected
    /\ markCellByNumber selected (_marker this) b = Some (true, b1)
    /\ togglePlayerTurn rnd' b1 = Some b2
    /\ _playerTurn b2 = Some ((turn + 1) mod length (_players b))%nat
    /\ S (length (findAvailableCellNumbers b2)) = length (findAvailableCellNumbers b)
    /\ ~ In selected (findAvailableCellNumbers b2).
Proof.
  intros Hsort Hwf Hnum Hturn Hthis Hmarker Hav Hrnd.
  pose proof Hwf as [Hwfg Hwt].
  assert (Hplayers : _players b <> [])
    by (intros Hnil; rewrite Hnil in Hthis; discriminate).
  destruct (bot_selects_cell_helper std_sort Hsort b Hwfg rnd this)
    as (selected & Hselected & Hin); auto.
  { rewrite (Hnum turn this Hthis). lia. }
  destruct (markCellByNumber_available b selected (_marker this) Hwf)
    as (b1 & Hmark & Hfilter & Hcount & Hgone); auto.
  { congruence. }
  destruct (markCellByNumber_keeps _ _ _ _ _ Hmark) as (_ & Hsize1 & Hturn1).
  destruct (markCellByNumber_players _ _ _ _ _ Hmark)
    as [[Hfalse _] | (turn' & q & cc & _ & Hturn' & Hq & _ & Hplayers1)];
    [discriminate |].
  assert (turn' = turn) as -> by congruence.
  assert (Hnum1 : numbered (_players b1))
    by (rewrite Hplayers1; apply numbered_insert_setScore; assumption).
  assert (Hlen1 : length (_players b1) = length (_players b))
    by (rewrite Hplayers1; apply length_insert).
  destruct (toggle_next rnd' b1 turn Hnum1) as (b2 & Htoggle & Hturn2).
  { rewrite Hturn1. exact Hturn. }
  { rewrite Hlen1. apply Hwt. exact Hturn. }
  destruct (toggle_keeps _ _ _ Htoggle) as (_ & _ & Hsize2 & Hgrid2).
  exists selected, b1, b2.
  rewrite (findAvailableCellNumbers_reads_grid_only b1 b2 Hgrid2 Hsize2).
  rewrite <- Hlen1. auto 10.
Qed.

Lemma bot_turn_progresses_witness :
  exists selected b1 b2,
    requireCellSelection (@insertion_sort ConnectedCell) 0 (botO 2) ownLineBoard
    = Some selected
    /\ markCellByNumber selected "O" ownLineBoard = Some (true, b1)
    /\ togglePlayerTurn 0 b1 = Some b2
    /\ _playerTurn b2 = Some 0%nat.
Proof.
  destruct (bot_turn_progresses (@insertion_sort ConnectedCell) ownLineBoard 0 0
              1%nat (botO 2) insertion_sort_SortSpec ownLineBoard_wf)
    as (selected & b1 & b2 & Hselected & Hmark & Htoggle & Hturn & _).
  - intros [| [| i]] p Hp; simpl in Hp; try discriminate;
      injection Hp as <-; reflexivity.
  - reflexivity.
  - reflexivity.
  - discriminate.
  - discriminate.
  - unfold randomIndexRange. simpl. lia.
  - exists selected, b1, b2. auto.
Defined.

(** ** Marking the same cell twice *)

(** X21: after [markCellByNumber] has placed a non-empty marker on a
    well-formed board, a second call for the same cell, with any marker,
    returns false and leaves the board, grid and scores, as the first call
    left it. *)
Theorem mark_twice_refused (b : Board) (cellNumber : Z) (marker marker' : string)
    (b1 : Board) :
  wf_board b ->
  marker <> EmptyString ->
  markCellByNumber cellNumber marker b = Some (true, b1) ->
  markCellByNumber cellNumber marker' b1 = Some (false, b1).
Proof.
  intros Hwf Hmarker Hmark.
  pose proof (markCellByNumber_wf _ _ _ _ _ Hwf Hmark) as [Hwfg1 _].
  destruct (markCellByNumber_keeps _ _ _ _ _ Hmark) as (_ & Hsize & _).
  apply markCellByNumber_refuses; [exact Hwfg1 |].
  right. left. exists marker. split; [| destruct marker; [congruence | reflexivity]].
  unfold rowByCellNumber, columnByCellNumber. rewrite Hsize.
  fold (rowByCellNumber b cellNumber) (columnByCellNumber b cellNumber).
  destruct Hwf as [Hwfg _].
  unfold markCellByNumber in Hmark.
  destruct ((columnByCellNumber b cellNumber <? 0) || _ || _ || _) eqn:Hout;
    [discriminate |].
  apply inBounds_dec in Hout. destruct Hout as [Hy Hx].
  destruct (grid_at (_grid b) _ _) as [cell |]; [| discriminate]. simpl in Hmark.
  destruct (negb (empty cell)); [discriminate |].
  destruct (_playerTurn b) as [turn |]; [| discriminate].
  destruct (findConnectedCell _ _ _ marker INT_MAX) as [cc |]; [| discriminate].
  simpl in Hmark.
  destruct (_players b !! turn) as [p |]; [| discriminate]. simpl in Hmark.
  injection Hmark as <-. simpl.
  destruct (wf_grid_row b _ Hwfg Hy) as (line & Hline & Hlen).
  eapply grid_at_set_same; eauto; lia.
Qed.

Lemma mark_twice_refused_witness :
  exists b1,
    markCellByNumber 2 "O" ownLineBoard = Some (true, b1)
    /\ markCellByNumber 2 "X" b1 = Some (false, b1).
Proof.
  eexists. split; [vm_compute; reflexivity |].
  apply (mark_twice_refused ownLineBoard 2 "O" "X" _ ownLineBoard_wf).
  - discriminate.
  - vm_compute. reflexivity.
Defined.

(** ** Mirrored and turned boards *)

Section Mirror.

Variables b b' : Board.
Variables sr sc ar ac : Z.
Variable m : string.

Hypothesis sr_unit : sr = 1 \/ sr = -1.
Hypothesis sc_unit : sc = 1 \/ sc = -1.

(** [b'] shows, for the marker [m], what [b] shows at the image of each
    position under r |-> sr * r + ar, c |-> sc * c + ac. *)
Hypothesis image :
  forall r c, holdsAt b' r c m <-> holdsAt b (sr * r + ar) (sc * c + ac) m.

Lemma isRun_image r c deltaRow deltaColumn limit n :
  isRun b' r c deltaRow deltaColumn m limit n ->
  isRun b (sr * r + ar) (sc * c + ac) (sr * deltaRow) (sc * deltaColumn) m limit n.
Proof.
  intros (Hn & Hrun & Hstop). unfold isRun. split; [exact Hn |]. split.
  - intros k Hk. specialize (Hrun k Hk). apply image in Hrun.
    replace (sr * r + ar + k * (sr * deltaRow))
      with (sr * (r + k * deltaRow) + ar) by ring.
    replace (sc * c + ac + k * (sc * deltaColumn))
      with (sc * (c + k * deltaColumn) + ac) by ring.
    exact Hrun.
  - intros Hlt Hhold. apply (Hstop Hlt). apply image.
    replace (sr * (r + (n + 1) * deltaRow) + ar)
      with (sr * r + ar + (n + 1) * (sr * deltaRow)) by ring.
    replace (sc * (c + (n + 1) * deltaColumn) + ac)
      with (sc * c + ac + (n + 1) * (sc * deltaColumn)) by ring.
    exact Hhold.
Qed.

Lemma countChain_image r c deltaRow deltaColumn deltaRow' deltaColumn' maxChain :
  wf_grid b -> wf_grid b' ->
  deltaRow' = sr * deltaRow -> deltaColumn' = sc * deltaColumn ->
  _countChainByDirection b' r c deltaRow deltaColumn m maxChain
  = _countChainByDirection b (sr * r + ar) (sc * c + ac) deltaRow' deltaColumn'
      m maxChain.
Proof.
  intros Hwf Hwf' -> ->.
  destruct (countChain_returns_run b' r c deltaRow deltaColumn m maxChain Hwf')
    as (n' & -> & Hrun').
  destruct (countChain_returns_run b (sr * r + ar) (sc * c + ac)
              (sr * deltaRow) (sc * deltaColumn) m maxChain Hwf)
    as (n & -> & Hrun).
  f_equal. apply isRun_image in Hrun'.
  exact (isRun_unique _ _ _ _ _ _ _ _ _ Hrun' Hrun).
Qed.

(** X22: when a well-formed board shows for a marker what another one
    shows mirrored top to bottom, left to right, or both (turned by 180
    degrees), possibly shifted, [findConnectedCell] finds at a position of
    the one the total, the vertical and the horizontal chain it finds at the
    image position of the other; the two diagonal chains are the same when
    the board is turned or only shifted, and exchanged when it is mirrored
    one way. *)
Theorem findConnectedCell_image (r c maxChain : Z) :
  wf_grid b -> wf_grid b' ->
  exists cc cc',
    findConnectedCell b (sr * r + ar) (sc * c + ac) m maxChain = Some cc
    /\ findConnectedCell b' r c m maxChain = Some cc'
    /\ totalConnected cc' = totalConnected cc
    /\ verticalChain cc' = verticalChain cc
    /\ horizontalChain cc' = horizontalChain cc
    /\ (sr * sc = 1 ->
        diagonalLeftChain cc' = diagonalLeftChain cc
        /\ diagonalRightChain cc' = diagonalRightChain cc)
    /\ (sr * sc = -1 ->
        diagonalLeftChain cc' = diagonalRightChain cc
        /\ diagonalRightChain cc' = diagonalLeftChain cc).
Proof.
  intros Hwf Hwf'.
  set (R := sr * r + ar). set (C := sc * c + ac).
  destruct (countChain_returns b R C (-1) 0 m maxChain Hwf) as [t Ht].
  destruct (countChain_returns b R C 1 0 m maxChain Hwf) as [d Hd].
  destruct (countChain_returns b R C 0 (-1) m maxChain Hwf) as [l Hl].
  destruct (countChain_returns b R C 0 1 m maxChain Hwf) as [g Hg].
  destruct (countChain_returns b R C (-1) (-1) m maxChain Hwf) as [tl Htl].
  destruct (countChain_returns b R C 1 1 m maxChain Hwf) as [br Hbr].
  destruct (countChain_returns b R C (-1) 1 m maxChain Hwf) as [tr Htr].
  destruct (countChain_returns b R C 1 (-1) m maxChain Hwf) as [bl Hbl].
  rewrite (findConnectedCell_of_runs b R C m maxChain _ _ _ _ _ _ _ _
             Ht Hd Hl Hg Htl Hbr Htr Hbl).
  assert (Himage : forall deltaRow deltaColumn deltaRow' deltaColumn' n,
             deltaRow' = sr * deltaRow -> deltaColumn' = sc * deltaColumn ->
             _countChainByDirection b R C deltaRow' deltaColumn' m maxChain = Some n ->
             _countChainByDirection b' r c deltaRow deltaColumn m maxChain = Some n).
  { intros dr dc dr' dc' n Hdr Hdc Hn.
    rewrite (countChain_image r c dr dc dr' dc' maxChain Hwf Hwf' Hdr Hdc).
    exact Hn. }
  destruct sr_unit as [Hsr | Hsr]; destruct sc_unit as [Hsc | Hsc].
  - rewrite (findConnectedCell_of_runs b' r c m maxChain t d l g tl br tr bl);
      try (eapply Himage; [| | eassumption]; lia).
    eexists. eexists. split; [reflexivity |]. split; [reflexivity |]. simpl.
    rewrite ?(Z.add_comm g l), ?(Z.add_comm d t),
      ?(Z.add_comm bl tr), ?(Z.add_comm br tl).
    repeat split; intros; nia.
  - rewrite (findConnectedCell_of_runs b' r c m maxChain t d g l tr bl tl br);
      try (eapply Himage; [| | eassumption]; lia).
    eexists. eexists. split; [reflexivity |]. split; [reflexivity |]. simpl.
    rewrite ?(Z.add_comm g l), ?(Z.add_comm d t),
      ?(Z.add_comm bl tr), ?(Z.add_comm br tl).
    repeat split; intros; nia.
  - rewrite (findConnectedCell_of_runs b' r c m maxChain d t l g bl tr br tl);
      try (eapply Himage; [| | eassumption]; lia).
    eexists. eexists. split; [reflexivity |]. split; [reflexivity |]. simpl.
    rewrite ?(Z.add_comm g l), ?(Z.add_comm d t),
      ?(Z.add_comm bl tr), ?(Z.add_comm br tl).
    repeat split; intros; nia.
  - rewrite (findConnectedCell_of_runs b' r c m maxChain d t g l br tl bl tr);
      try (eapply Himage; [| | eassumption]; lia).
    eexists. eexists. split; [reflexivity |]. split; [reflexivity |]. simpl.
    rewrite ?(Z.add_comm g l), ?(Z.add_comm d t),
      ?(Z.add_comm bl tr), ?(Z.add_comm br tl).
    repeat split; intros; nia.
Qed.

End Mirror.

Lemma mirrorBoard_wf_grid v k botFirst : wf_grid (mirrorBoard v k botFirst).
Proof.
  unfold wf_grid. simpl. split; [unfold INT_MAX; lia |].
  split; [reflexivity | repeat constructor].
Qed.

Lemma mirrorBoard_image (r c : Z) :
  holdsAt (mirrorBoard Classic Human true) r c "X"
  <-> holdsAt (blockBoard Classic Human true) (1 * r + 0) (-1 * c + 2) "X".
Proof.
  unfold holdsAt, inBounds.
  change (_gridSize (mirrorBoard Classic Human true)) with 3.
  change (_gridSize (blockBoard Classic Human true)) with 3.
  split; intros [[Hr Hc] Hat];
    assert (Hrow : r = 0 \/ r = 1 \/ r = 2) by lia;
    assert (Hcol : c = 0 \/ c = 1 \/ c = 2) by lia;
    destruct Hrow as [-> | [-> | ->]]; destruct Hcol as [-> | [-> | ->]];
    vm_compute in Hat; try discriminate;
    (split; [split; lia | reflexivity]).
Qed.

Lemma findConnectedCell_image_witness :
  exists cc',
    findConnectedCell (mirrorBoard Classic Human true) 0 0 "X" INT_MAX = Some cc'
    /\ totalConnected cc' = 3.
Proof.
  destruct (findConnectedCell_image (blockBoard Classic Human true)
              (mirrorBoard Classic Human true) 1 (-1) 0 2 "X"
              (or_introl eq_refl) (or_intror eq_refl) mirrorBoard_image
              0 0 INT_MAX (blockBoard_wf_grid Classic Human true)
              (mirrorBoard_wf_grid Classic Human true))
    as (cc & cc' & Hcc & Hcc' & Htotal & _).
  exists cc'. split; [exact Hcc' |]. rewrite Htotal.
  vm_compute in Hcc. injection Hcc as <-. reflexivity.
Defined.

(** ** The bot blocks the strongest threat *)

Lemma rem_within_two (x n : Z) :
  0 <= x < 2 * n -> Z.rem x n = if x <? n then x else x - n.
Proof.
  intros Hx. rewrite Z.rem_mod_nonneg by lia.
  destruct (Z.ltb_spec x n).
  - apply Z.mod_small. lia.
  - replace x with ((x - n) + 1 * n) at 1 by lia.
    rewrite Z.mod_add by lia. apply Z.mod_small. lia.
Qed.

(** The indices the search visits before it stops: with the bot numbered
    [number] among [n] players, the k-th index is (number % n + k) % n, which
    is the bot's own index number - 1 for k = n - 1 and for no smaller k. *)
Lemma search_index (number n k : Z) :
  1 <= number <= n -> 0 <= k < n ->
  0 <= Z.rem (Z.rem number n + k) n < n
  /\ (Z.rem (Z.rem number n + k) n = number - 1 <-> k = n - 1).
Proof.
  intros Hnumber Hk.
  rewrite (rem_within_two number n) by lia.
  destruct (Z.ltb_spec number n).
  - rewrite (rem_within_two (number + k) n) by lia.
    destruct (Z.ltb_spec (number + k) n); lia.
  - rewrite (rem_within_two (number - n + k) n) by lia.
    destruct (Z.ltb_spec (number - n + k) n); lia.
Qed.

(** Every index but the bot's own is visited. *)
Lemma search_index_covers (number n idx : Z) :
  1 <= number <= n -> 0 <= idx < n -> idx <> number - 1 ->
  exists k, 0 <= k < n - 1 /\ Z.rem (Z.rem number n + k) n = idx.
Proof.
  intros Hnumber Hidx Hne.
  exists (if idx <? number then idx - number + n else idx - number).
  rewrite (rem_within_two number n) by lia.
  destruct (Z.ltb_spec idx number); destruct (Z.ltb_spec number n);
    (split; [lia |]);
    match goal with
    | |- Z.rem ?x n = _ => rewrite (rem_within_two x n) by lia;
                           destruct (Z.ltb_spec x n); lia
    end.
Qed.

Section BotBlocks.

Variable std_sort :
  (ConnectedCell -> ConnectedCell -> bool) -> list ConnectedCell -> list ConnectedCell.
Hypothesis std_sort_spec : SortSpec std_sort.

Variable b : Board.
Hypothesis b_wf : wf_grid b.

Variable this : Player.
Hypothesis this_numbered : 1 <= _number this <= Z.of_nat (length (_players b)).

Local Abbreviation available := (findAvailableCellNumbers b).
Hypothesis some_available : available <> [].

Local Abbreviation totalPlayers := (Z.of_nat (length (_players b))).
Local Abbreviation first := (Z.rem (_number this) totalPlayers).

Lemma ranked_top_nonneg player ranked :
  _rankAvailableCells std_sort b player available = Some ranked ->
  0 <= topTotal ranked.
Proof.
  intros Hrank.
  destruct (rankAvailableCells_records std_sort std_sort_spec b b_wf player available)
    as (ranked' & Hrank' & Hlen & Hrec & _).
  assert (ranked' = ranked) as -> by congruence.
  destruct ranked as [| h t]; [destruct available; [congruence | discriminate] |].
  simpl. inversion Hrec as [| ? ? (cell & _ & Hcc) _]; subst.
  eapply findConnectedCell_total_nonneg. exact Hcc.
Qed.

(** The search ends holding cells whose first total is at least that of the
    first ranked cell of every player it has visited. *)
Lemma blockSearch_strongest (len : nat) :
  forall (k0 : nat) st,
    (k0 + len = length (_players b))%nat ->
    searchInv b st ->
    (st.1 <> [] -> 0 <= topTotal st.1) ->
    exists st',
      blockSearch std_sort b this available totalPlayers
        (map (fun k => first + Z.of_nat k) (seq k0 len))
        (Z.rem (first + Z.of_nat k0) totalPlayers) st
      = Some st'
      /\ topTotal st.1 <= topTotal st'.1
      /\ forall (k : nat) player ranked,
           (k0 <= k)%nat -> Z.of_nat k < totalPlayers - 1 ->
           vec_at (_players b) (Z.rem (first + Z.of_nat k) totalPlayers) = Some player ->
           _rankAvailableCells std_sort b player available = Some ranked ->
           topTotal ranked <= topTotal st'.1.
Proof.
  induction len as [| len IH]; intros k0 st Hsum Hinv Htop.
  - simpl. exists st. split; [reflexivity |]. split; [lia |].
    intros k player ranked Hk Hlast. lia.
  - simpl seq. simpl map. cbn [blockSearch].
    destruct (search_index (_number this) totalPlayers (Z.of_nat k0)
                this_numbered ltac:(lia)) as [Hrange Hstop].
    destruct (Z.eqb_spec (Z.rem (first + Z.of_nat k0) totalPlayers)
                (_number this - 1)) as [Heq | Hne].
    + exists st. split; [reflexivity |]. split; [lia |].
      intros k player ranked Hk Hlast. apply Hstop in Heq. lia.
    + destruct st as [playerToBlockCells playerToBlock].
      destruct (vec_at_Some (_players b) _ Hrange) as [player Hplayer].
      rewrite Hplayer. cbn [mbind option_bind].
      destruct (rankAvailableCells_records std_sort std_sort_spec b b_wf
                  player available) as (playerCells & Hrank & Hlen & Hrecs & _).
      rewrite Hrank. cbn [mbind option_bind].
      destruct Hinv as [Hptr Hcells]. simpl in Hptr, Hcells, Htop.
      assert (Hshort : exists shortest,
                 match playerToBlock with
                 | Some j =>
                     blocked ← _players b !! j;
                     Some (negb (nextTurnIsFirst (_number this) (_number blocked)
                                   (_number player)))
                 | None => Some true
                 end = Some shortest).
      { destruct playerToBlock as [j |]; [| eauto].
        destruct (lookup_lt_is_Some_2 (_players b) j (Hptr j eq_refl)) as [q ->].
        simpl. eauto. }
      destruct Hshort as [shortest ->]. cbn [mbind option_bind].
      pose proof (ranked_top_nonneg player playerCells Hrank) as HplayerTop.
      destruct playerCells as [| playerTop playerRest];
        [destruct available; [congruence | discriminate] |].
      assert (Hnew : searchInv b (playerTop :: playerRest,
                                  Some (Z.to_nat (Z.rem (first + Z.of_nat k0)
                                                    totalPlayers)))).
      { split; simpl.
        - intros j Hj. injection Hj as <-. lia.
        - right. split; [exact Hlen |].
          eapply List.Forall_impl; [| exact Hrecs]. simpl.
          intros cc (cell & Hcell & Hcc).
          apply findConnectedCell_position in Hcc. destruct Hcc as [-> ->].
          rewrite decode_encode. exact Hcell. }
      set (next := Z.rem (first + Z.of_nat k0 + 1) totalPlayers).
      assert (Hnext : next = Z.rem (first + Z.of_nat (S k0)) totalPlayers)
        by (unfold next; f_equal; lia).
      assert (Hstep : forall st1,
                 searchInv b st1 ->
                 (st1.1 <> [] -> 0 <= topTotal st1.1) ->
                 topTotal playerToBlockCells <= topTotal st1.1 ->
                 topTotal (playerTop :: playerRest) <= topTotal st1.1 ->
                 exists st',
                   blockSearch std_sort b this available totalPlayers
                     (map (fun k => first + Z.of_nat k) (seq (S k0) len)) next st1
                   = Some st'
                   /\ topTotal playerToBlockCells <= topTotal st'.1
                   /\ forall (k : nat) player' ranked,
                        (k0 <= k)%nat -> Z.of_nat k < totalPlayers - 1 ->
                        vec_at (_players b) (Z.rem (first + Z.of_nat k) totalPlayers)
                        = Some player' ->
                        _rankAvailableCells std_sort b player' available = Some ranked ->
                        topTotal ranked <= topTotal st'.1).
      { intros st1 Hinv1 Htop1 Hold1 Hnew1. rewrite Hnext.
        destruct (IH (S k0) st1 ltac:(lia) Hinv1 Htop1) as (st' & Hsearch & Hge & Hall).
        exists st'. split; [exact Hsearch |]. split; [lia |].
        intros k player' ranked Hk Hlast Hplayer' Hrank'.
        destruct (Nat.eq_dec k k0) as [-> | Hk0].
        - assert (player' = player) as -> by congruence.
          assert (ranked = playerTop :: playerRest) as -> by congruence. lia.
        - apply (Hall k player' ranked); [lia | assumption ..]. }
      simpl in HplayerTop.
      destruct playerToBlockCells as [| blockTop others].
      * cbn [mbind option_bind].
        apply Hstep; [exact Hnew | intros _; simpl; lia | simpl; lia | simpl; lia].
      * change (vec_at (playerTop :: playerRest) 0) with (Some playerTop).
        change (vec_at (blockTop :: others) 0) with (Some blockTop).
        cbn [mbind option_bind].
        specialize (Htop ltac:(discriminate)). simpl in Htop.
        assert (Hold : searchInv b (blockTop :: others, playerToBlock))
          by (split; assumption).
        destruct (Z.gtb_spec (totalConnected playerTop) (totalConnected blockTop));
          [| destruct (Z.eqb_spec (totalConnected playerTop) (totalConnected blockTop));
             [destruct shortest |]];
          cbn [orb andb];
          first
            [ apply Hstep;
              [exact Hnew | intros _; simpl; lia | simpl; lia | simpl; lia]
            | apply Hstep;
              [exact Hold | intros _; simpl; lia | simpl; lia | simpl; lia] ].
Qed.

End BotBlocks.

(** When an opponent's total on some available cell is above every total
    the bot reaches for itself, the search ends with the cells of an
    opponent whose first total is the largest, and the decision takes the
    first of them. *)
Lemma bot_blocks_helper
    (std_sort : (ConnectedCell -> ConnectedCell -> bool) ->
                list ConnectedCell -> list ConnectedCell)
    (b : Board) (rnd : Z) (this : Player)
    (idx0 : Z) (player0 : Player) (cell0 : Z) (threat : ConnectedCell) :
  SortSpec std_sort ->
  wf_grid b ->
  1 <= _number this <= Z.of_nat (length (_players b)) ->
  vec_at (_players b) idx0 = Some player0 ->
  idx0 <> _number this - 1 ->
  In cell0 (findAvailableCellNumbers b) ->
  findConnectedCell b (rowByCellNumber b cell0) (columnByCellNumber b cell0)
    (_marker player0) INT_MAX = Some threat ->
  (forall cell cc,
     In cell (findAvailableCellNumbers b) ->
     findConnectedCell b (rowByCellNumber b cell) (columnByCellNumber b cell)
       (_marker this) INT_MAX = Some cc ->
     totalConnected cc < totalConnected threat) ->
  exists selected idx player cc,
    requireCellSelection std_sort rnd this b = Some selected
    /\ In selected (findAvailableCellNumbers b)
    /\ vec_at (_players b) idx = Some player
    /\ idx <> _number this - 1
    /\ findConnectedCell b (rowByCellNumber b selected) (columnByCellNumber b selected)
         (_marker player) INT_MAX = Some cc
    /\ forall idx' player' cell' cc',
         vec_at (_players b) idx' = Some player' ->
         idx' <> _number this - 1 ->
         In cell' (findAvailableCellNumbers b) ->
         findConnectedCell b (rowByCellNumber b cell') (columnByCellNumber b cell')
           (_marker player') INT_MAX = Some cc' ->
         totalConnected cc' <= totalConnected cc.
Proof.
  intros Hsort Hwf Hnumber Hplayer0 Hidx0 Hcell0 Hthreat Hown.
  set (available := findAvailableCellNumbers b) in *.
  set (totalPlayers := Z.of_nat (length (_players b))) in *.
  assert (Hav : available <> [])
    by (intros Hnil; rewrite Hnil in Hcell0; contradiction).
  unfold requireCellSelection. fold available. fold totalPlayers.
  (* the bot's own ranked cells *)
  destruct (rankAvailableCells_records std_sort Hsort b Hwf this available)
    as (rankedCells & Hranked & Hlen & Hrecs & _).
  rewrite Hranked. cbn [mbind option_bind].
  destruct rankedCells as [| ranked0 rankedRest];
    [destruct available; [congruence | discriminate] |].
  assert (Hranked0 : 0 <= totalConnected ranked0 < totalConnected threat).
  { inversion Hrecs as [| ? ? (cell & Hcell & Hcc) _]; subst. split.
    - eapply findConnectedCell_total_nonneg. exact Hcc.
    - eapply Hown; eassumption. }
  (* the search *)
  set (first := Z.rem (_number this) totalPlayers).
  assert (Hfirst : first = Z.rem (first + Z.of_nat 0) totalPlayers).
  { unfold first. simpl Z.of_nat. rewrite Z.add_0_r.
    rewrite (rem_within_two (_number this) totalPlayers) by lia.
    destruct (Z.ltb_spec (_number this) totalPlayers);
      rewrite rem_within_two by lia;
      match goal with |- _ = (if ?x <? ?y then _ else _) =>
        destruct (Z.ltb_spec x y); lia end. }
  destruct (blockSearch_strongest std_sort Hsort b Hwf this Hnumber Hav
              (length (_players b)) 0%nat ([], None))
    as ([cells ptr] & Hsearch & _ & Hall).
  { lia. }
  { split; simpl; [discriminate | auto]. }
  { simpl. congruence. }
  fold available totalPlayers first in Hsearch, Hall.
  rewrite <- Hfirst in Hsearch. rewrite Hsearch.
  cbn [mbind option_bind]. cbn [fst] in Hall.
  change (vec_at (ranked0 :: rankedRest) 0) with (Some ranked0).
  cbn [mbind option_bind].
  (* every opponent's records are below the first total of the cells held *)
  assert (Hmax : forall idx' player' cell' cc',
             vec_at (_players b) idx' = Some player' ->
             idx' <> _number this - 1 ->
             In cell' available ->
             findConnectedCell b (rowByCellNumber b cell') (columnByCellNumber b cell')
               (_marker player') INT_MAX = Some cc' ->
             totalConnected cc' <= topTotal cells).
  { intros idx' player' cell' cc' Hplayer' Hidx' Hcell' Hcc'.
    assert (Hrange : 0 <= idx' < totalPlayers).
    { apply vec_at_lookup in Hplayer'. destruct Hplayer' as [Hpos Hlook].
      apply lookup_lt_Some in Hlook. unfold totalPlayers. lia. }
    destruct (search_index_covers (_number this) totalPlayers idx' Hnumber Hrange Hidx')
      as (k & Hk & Hvisit).
    destruct (rankAvailableCells_records std_sort Hsort b Hwf player' available)
      as (ranked' & Hrank' & Hlen' & _ & Htop').
    assert (Hle : topTotal ranked' <= topTotal cells).
    { apply (Hall (Z.to_nat k) player' ranked'); [lia | lia | | exact Hrank'].
      rewrite Z2Nat.id by lia. fold first in Hvisit. rewrite Hvisit. exact Hplayer'. }
    destruct ranked' as [| first' rest'];
      [destruct available; [congruence | discriminate] |].
    pose proof (Htop' cell' cc' Hcell' Hcc' first' rest' eq_refl). simpl in Hle. lia. }
  pose proof (Hmax idx0 player0 cell0 threat Hplayer0 Hidx0 Hcell0 Hthreat) as Hthreat'.
  destruct cells as [| playerCell others]; [simpl in Hthreat'; lia |].
  simpl in Hthreat', Hmax.
  (* the decision *)
  cbn [blockScan].
  destruct (Z.eqb_spec (totalConnected playerCell) 0); [lia |].
  destruct (Z.gtb_spec (totalConnected playerCell) (totalConnected ranked0)); [| lia].
  (* where the cell comes from *)
  destruct (blockSearch_cells_from _ _ _ _ _ _ _ _ _ Hsearch)
    as [Hnil | (idx & player & Hplayer & Hidx & Hrank)]; [discriminate |].
  simpl in Hrank.
  destruct (rankAvailableCells_records std_sort Hsort b Hwf player available)
    as (ranked' & Hrank' & _ & Hrecs' & _).
  assert (ranked' = playerCell :: others) as -> by congruence.
  inversion Hrecs' as [| ? ? (cell & Hcell & Hcc) _]; subst.
  pose proof (findConnectedCell_position _ _ _ _ _ _ Hcc) as [Hrow Hcol].
  exists cell, idx, player, playerCell.
  split; [rewrite Hrow, Hcol, decode_encode; reflexivity |].
  split; [exact Hcell |]. split; [exact Hplayer |]. split; [exact Hidx |].
  split; [exact Hcc | exact Hmax].
Qed.

(** X23: for every sorting algorithm the C++ standard allows, on a
    well-formed grid, for a bot numbered within 1..N: when some player at
    another index than the bot's reaches on some available cell a total
    above every total the bot can reach for itself, the bot selects an
    available cell on which such a player reaches the largest total any of
    them reaches on any available cell. *)
Theorem bot_blocks_strongest_threat
    (std_sort : (ConnectedCell -> ConnectedCell -> bool) ->
                list ConnectedCell -> list ConnectedCell)
    (b : Board) (rnd : Z) (this : Player)
    (idx0 : Z) (player0 : Player) (cell0 : Z) (threat : ConnectedCell) :
  SortSpec std_sort ->
  wf_grid b ->
  1 <= _number this <= Z.of_nat (length (_players b)) ->
  vec_at (_players b) idx0 = Some player0 ->
  idx0 <> _number this - 1 ->
  In cell0 (findAvailableCellNumbers b) ->
  findConnectedCell b (rowByCellNumber b cell0) (columnByCellNumber b cell0)
    (_marker player0) INT_MAX = Some threat ->
  (forall cell cc,
     In cell (findAvailableCellNumbers b) ->
     findConnectedCell b (rowByCellNumber b cell) (columnByCellNumber b cell)
       (_marker this) INT_MAX = Some cc ->
     totalConnected cc < totalConnected threat) ->
  exists selected idx player cc,
    requireCellSelection std_sort rnd this b = Some selected
    /\ In selected (findAvailableCellNumbers b)
    /\ vec_at (_players b) idx = Some player
    /\ idx <> _number this - 1
    /\ findConnectedCell b (rowByCellNumber b selected) (columnByCellNumber b selected)
         (_marker player) INT_MAX = Some cc
    /\ forall idx' player' cell' cc',
         vec_at (_players b) idx' = Some player' ->
         idx' <> _number this - 1 ->
         In cell' (findAvailableCellNumbers b) ->
         findConnectedCell b (rowByCellNumber b cell') (columnByCellNumber b cell')
           (_marker player') INT_MAX = Some cc' ->
         totalConnected cc' <= totalConnected cc.
Proof.
  intros Hsort Hwf Hnumber Hplayer0 Hidx0 Hcell0 Hthreat Hown.
  eapply bot_blocks_helper; eassumption.
Qed.

Lemma blockBoard_bot_weaker (cell : Z) (cc : ConnectedCell) :
  In cell (findAvailableCellNumbers (blockBoard Classic Human false)) ->
  findConnectedCell (blockBoard Classic Human false)
    (rowByCellNumber (blockBoard Classic Human false) cell)
    (columnByCellNumber (blockBoard Classic Human false) cell)
    (_marker (botO 2)) INT_MAX = Some cc ->
  totalConnected cc < 3.
Proof.
  intros Hcell Hcc. simpl in Hcell.
  repeat (destruct Hcell as [<- | Hcell];
          [vm_compute in Hcc; injection Hcc as <-; simpl; lia |]).
  contradiction.
Qed.

Lemma bot_blocks_strongest_threat_witness :
  exists selected,
    requireCellSelection (@insertion_sort ConnectedCell) 0 (botO 2)
      (blockBoard Classic Human false) = Some selected
    /\ In selected (findAvailableCellNumbers (blockBoard Classic Human false)).
Proof.
  destruct (bot_blocks_strongest_threat (@insertion_sort ConnectedCell)
              (blockBoard Classic Human false) 0 (botO 2)
              0 (opponentX Human 1) 2
              {| row := 0; column := 2; verticalChain := 0; horizontalChain := 2;
                 diagonalLeftChain := 0; diagonalRightChain := 0;
                 totalConnected := 3 |}
              insertion_sort_SortSpec (blockBoard_wf_grid Classic Human false))
    as (selected & _ & _ & _ & Hselected & Havailable & _).
  - simpl. lia.
  - reflexivity.
  - simpl. lia.
  - simpl. auto.
  - reflexivity.
  - exact blockBoard_bot_weaker.
  - exists selected. split; [exact Hselected | exact Havailable].
Defined.

(** ** The urgent block *)

Lemma diagonalBoard_wf_grid : wf_grid diagonalBoard.
Proof.
  unfold wf_grid. simpl. split; [unfold INT_MAX; lia |].
  split; [reflexivity | repeat constructor].
Qed.

(** On [diagonalBoard] no free cell connects anything for O, and no free
    cell but cell 8 connects anything for X. *)
Lemma diagonalBoard_totals (cell : Z) (cc : ConnectedCell) (m : string) :
  In cell (findAvailableCellNumbers diagonalBoard) ->
  (m = "O"%string \/ (m = "X"%string /\ cell <> 8)) ->
  findConnectedCell diagonalBoard (rowByCellNumber diagonalBoard cell)
    (columnByCellNumber diagonalBoard cell) m INT_MAX = Some cc ->
  totalConnected cc < 3.
Proof.
  intros Hcell Hm Hcc.
  change (findAvailableCellNumbers diagonalBoard) with [2; 3; 5; 6; 7; 8] in Hcell.
  simpl in Hcell.
  destruct Hm as [-> | [-> Hne]];
    repeat (destruct Hcell as [<- | Hcell];
            [first [congruence
                   | vm_compute in Hcc; injection Hcc as <-; simpl; lia] |]);
    contradiction.
Qed.

(** C2: the rule, for every sorting algorithm the C++ standard allows, on
    a well-formed grid and for a bot numbered within 1..N: when a player at
    another index than the bot's reaches on an available cell a total that is
    above every total the bot reaches for itself on an available cell, and
    above every total a player at another index than the bot's reaches on
    any other available cell, the bot selects that cell.  The scenario: on
    the 3 x 3 board where X holds cells 0 and 1 and O holds none, the bot O,
    in either seat, selects cell 2, whatever order [std::sort] gives to
    equally ranked cells: the cell ranked first for X is cell 2 and its total
    is above the total of the bot's own best cell. *)
Theorem bot_blocks_two_in_a_row
    (std_sort : (ConnectedCell -> ConnectedCell -> bool) ->
                list ConnectedCell -> list ConnectedCell) :
  SortSpec std_sort ->
  (forall (b : Board) (rnd : Z) (this : Player)
          (idx0 : Z) (player0 : Player) (cell0 : Z) (threat : ConnectedCell),
     wf_grid b ->
     1 <= _number this <= Z.of_nat (length (_players b)) ->
     vec_at (_players b) idx0 = Some player0 ->
     idx0 <> _number this - 1 ->
     In cell0 (findAvailableCellNumbers b) ->
     findConnectedCell b (rowByCellNumber b cell0) (columnByCellNumber b cell0)
       (_marker player0) INT_MAX = Some threat ->
     (forall cell cc,
        In cell (findAvailableCellNumbers b) ->
        findConnectedCell b (rowByCellNumber b cell) (columnByCellNumber b cell)
          (_marker this) INT_MAX = Some cc ->
        totalConnected cc < totalConnected threat) ->
     (forall idx player cell cc,
        vec_at (_players b) idx = Some player ->
        idx <> _number this - 1 ->
        In cell (findAvailableCellNumbers b) ->
        cell <> cell0 ->
        findConnectedCell b (rowByCellNumber b cell) (columnByCellNumber b cell)
          (_marker player) INT_MAX = Some cc ->
        totalConnected cc < totalConnected threat) ->
     requireCellSelection std_sort rnd this b = Some cell0)
  /\ (forall (rnd : Z) (v : Variant) (k : PlayerKind) (botFirst : bool),
        findAvailableCellNumbers (blockBoard v k botFirst) = [2; 3; 4; 5; 6; 7; 8]
        /\ (exists ownBest ownRest blockCell blockRest,
              _rankAvailableCells std_sort (blockBoard v k botFirst) (blockBot botFirst)
                (findAvailableCellNumbers (blockBoard v k botFirst))
              = Some (ownBest :: ownRest)
              /\ _rankAvailableCells std_sort (blockBoard v k botFirst)
                   (opponentX k (if botFirst then 2 else 1))
                   (findAvailableCellNumbers (blockBoard v k botFirst))
                 = Some (blockCell :: blockRest)
              /\ totalConnected ownBest < totalConnected blockCell
              /\ cellNumberByPosition (blockBoard v k botFirst)
                   (row blockCell) (column blockCell) = 2)
        /\ requireCellSelection std_sort rnd (blockBot botFirst)
             (blockBoard v k botFirst)
           = Some 2).
Proof.
  intros std_sort_spec. split.
  - intros b rnd this idx0 player0 cell0 threat
           Hwf Hnumber Hplayer0 Hidx0 Hcell0 Hthreat Hown Hothers.
    destruct (bot_blocks_helper std_sort b rnd this idx0 player0 cell0 threat
                std_sort_spec Hwf Hnumber Hplayer0 Hidx0 Hcell0 Hthreat Hown)
      as (selected & idx & player & cc & Hselected & Havailable & Hplayer & Hidx
          & Hcc & Hmax).
    rewrite Hselected. f_equal.
    destruct (Z.eq_dec selected cell0) as [Heq | Hne]; [exact Heq |].
    pose proof (Hothers idx player selected cc Hplayer Hidx Havailable Hne Hcc).
    pose proof (Hmax idx0 player0 cell0 threat Hplayer0 Hidx0 Hcell0 Hthreat).
    lia.
  - intros rnd v k botFirst. split; [reflexivity |].
    change (findAvailableCellNumbers (blockBoard v k botFirst))
      with [2; 3; 4; 5; 6; 7; 8].
    destruct (blockBoard_rank_O std_sort std_sort_spec v k botFirst)
      as (h & rest & HO & Hh).
    split.
    + destruct (blockBoard_rank_X std_sort std_sort_spec v k botFirst
                  (if botFirst then 2 else 1)) as [restX HX].
      exists h, rest. eexists. exists restX.
      split; [exact HO |]. split; [exact HX |].
      split; [rewrite Hh; simpl; lia | reflexivity].
    + unfold requireCellSelection.
      change (findAvailableCellNumbers (blockBoard v k botFirst))
        with [2; 3; 4; 5; 6; 7; 8].
      rewrite HO.
      destruct (blockBoard_search std_sort std_sort_spec v k botFirst)
        as (restX & playerToBlock & ->).
      simpl. rewrite Hh. reflexivity.
Qed.

Lemma bot_blocks_two_in_a_row_witness :
  requireCellSelection (@insertion_sort ConnectedCell) 0 (botO 2) diagonalBoard
  = Some 8
  /\ requireCellSelection (@insertion_sort ConnectedCell) 0 (blockBot true)
       (blockBoard Classic Human true)
     = Some 2.
Proof.
  destruct (bot_blocks_two_in_a_row (@insertion_sort ConnectedCell)
              insertion_sort_SortSpec) as [Hrule Hscenario].
  split.
  - apply (Hrule diagonalBoard 0 (botO 2) 0 (opponentX Human 1) 8
             {| row := 2; column := 2; verticalChain := 0; horizontalChain := 0;
                diagonalLeftChain := 2; diagonalRightChain := 0;
                totalConnected := 3 |}).
    + exact diagonalBoard_wf_grid.
    + simpl. lia.
    + reflexivity.
    + simpl. lia.
    + simpl. auto 10.
    + reflexivity.
    + intros cell cc Hcell Hcc.
      apply (diagonalBoard_totals cell cc "O" Hcell); [left; reflexivity | exact Hcc].
    + intros idx player cell cc Hplayer Hidx Hcell Hne Hcc.
      assert (player = opponentX Human 1) as ->.
      { apply vec_at_lookup in Hplayer. destruct Hplayer as [Hpos Hplayer].
        destruct (Z.to_nat idx) as [| [| i]] eqn:Hi; simpl in Hplayer.
        - injection Hplayer as <-. reflexivity.
        - exfalso. apply Hidx. simpl. lia.
        - discriminate. }
      apply (diagonalBoard_totals cell cc "X" Hcell); [right; auto | exact Hcc].
  - destruct (Hscenario 0 Classic Human true) as (_ & _ & Hselected).
    exact Hselected.
Defined.
